(** * Allens List: the pricing rule engine and the fuzzy search engine

    A shallow embedding of the JavaScript engine that [generate_index.py]
    writes into [index.html] (the raw template string of [build_html]),
    with the properties the specification states about it.

    Modelling conventions.
    - A JavaScript Number is a [num]: a rational, or one of
      [+Infinity], [-Infinity], [NaN].  Arithmetic rounds to binary64
      (to nearest, ties to even, overflow to an infinity); the sign of
      zero, which no operation of the engine reveals, is not modelled.
    - A JavaScript string is a Stdlib [string].  The model is exact on
      ASCII text; the few non-ASCII characters the source names are
      carried as their UTF-8 bytes.
    - A value read from JSON or from the data tables is a [jsval]; a
      function, which only the host supplies, is carried as its source
      text.  A property read looks for an own property first and asks
      the host otherwise.
    - The prototype chain, [Number(...)] of a string and [String(...)]
      of a number belong to the host; they are parameters of the
      development ([HostProp], [StringToNumber], [NumberToString]). *)

From stdpp Require Import base list strings.
From Stdlib Require Import ZArith QArith Qround Qabs Qpower Lia Lqa Ascii String List Bool Sorted.
Import ListNotations.

Set Warnings "-register-all".
Close Scope Q_scope.
Local Open Scope Z_scope.

(** ** Numbers *)

Inductive num : Type :=
| Fin (q : Q)
| PInf
| NInf
| NaN.

Definition num_of_Z (z : Z) : num := Fin (inject_Z z).

Definition isFinite (x : num) : bool :=
  match x with Fin _ => true | _ => false end.

Definition isNaN (x : num) : bool :=
  match x with NaN => true | _ => false end.

Definition Qsign (q : Q) : Z := Z.sgn (Qnum q).

(** *** Rounding to binary64

    A finite Number is a rational that binary64 holds.  The result of
    an arithmetic operation is the exact result rounded to the nearest
    such rational, a tie going to the even significand; a result of
    magnitude [2^1024] or more after rounding is an infinity. *)

Definition pow2 (e : Z) : Q := Qpower 2 e.

(** The exponent [e] of the binade of a positive rational:
    [2^e <= q < 2^(e+1)]. *)
Definition ilog2 (q : Q) : Z :=
  let e := Z.log2 (Qnum q) - Z.log2 (Zpos (Qden q)) in
  if Qle_bool (pow2 e) q then e else e - 1.

(** The nearest integer, a tie going to the even one. *)
Definition rne (m : Q) : Z :=
  let f := Qfloor m in
  match Qcompare (m - inject_Z f) (1 # 2) with
  | Lt => f
  | Gt => f + 1
  | Eq => if Z.even f then f else f + 1
  end.

(** The exponent of the unit in the last place at [q]: 53 bits of
    significand, and the spacing [2^-1074] below [2^-1022]. *)
Definition ulp_exp (q : Q) : Z := Z.max (ilog2 (Qabs q)) (-1022) - 52.

Definition round64 (q : Q) : num :=
  if Qeq_bool q 0 then Fin 0
  else
    let c := ulp_exp q in
    let r := Qred (inject_Z (rne (q / pow2 c)) * pow2 c) in
    if Qle_bool (pow2 1024) (Qabs r) then (if Qle_bool 0 q then PInf else NInf)
    else Fin r.

(** A rational that binary64 holds. *)
Definition is_double (q : Q) : bool :=
  match round64 q with
  | Fin r => Qeq_bool r q
  | _ => false
  end.

(** *** Arithmetic *)

Definition num_neg (x : num) : num :=
  match x with
  | Fin q => Fin (- q)
  | PInf => NInf
  | NInf => PInf
  | NaN => NaN
  end.

Definition num_abs (x : num) : num :=
  match x with
  | Fin q => Fin (Qabs q)
  | PInf | NInf => PInf
  | NaN => NaN
  end.

Definition num_add (x y : num) : num :=
  match x, y with
  | NaN, _ | _, NaN => NaN
  | Fin a, Fin b => round64 (a + b)
  | PInf, NInf | NInf, PInf => NaN
  | PInf, _ | _, PInf => PInf
  | NInf, _ | _, NInf => NInf
  end.

Definition num_sub (x y : num) : num :=
  match x, y with
  | NaN, _ | _, NaN => NaN
  | Fin a, Fin b => round64 (a - b)
  | Fin _, PInf => NInf
  | Fin _, NInf => PInf
  | PInf, PInf => NaN
  | PInf, _ => PInf
  | NInf, NInf => NaN
  | NInf, _ => NInf
  end.

Definition signed_inf (s : Z) : num :=
  match s with
  | Z0 => NaN
  | Zpos _ => PInf
  | Zneg _ => NInf
  end.

Definition num_sign (x : num) : Z :=
  match x with
  | Fin q => Qsign q
  | PInf => 1
  | NInf => -1
  | NaN => 0
  end.

Definition num_mul (x y : num) : num :=
  match x, y with
  | NaN, _ | _, NaN => NaN
  | Fin a, Fin b => round64 (a * b)
  | _, _ => signed_inf (num_sign x * num_sign y)
  end.

(** Division; a finite zero divisor counts as [+0]. *)
Definition num_div (x y : num) : num :=
  match x, y with
  | NaN, _ | _, NaN => NaN
  | Fin a, Fin b =>
      if Qeq_bool b 0 then signed_inf (Qsign a) else round64 (a / b)
  | Fin _, _ => Fin 0
  | _, Fin b => if Qeq_bool b 0 then x else signed_inf (num_sign x * Qsign b)
  | _, _ => NaN
  end.

(** [x % y]: the remainder has the sign of the dividend and is exact. *)
Definition Qtrunc (q : Q) : Z := Z.quot (Qnum q) (Zpos (Qden q)).

Definition num_rem (x y : num) : num :=
  match x, y with
  | Fin a, Fin b =>
      if Qeq_bool b 0 then NaN
      else Fin (Qred (a - b * inject_Z (Qtrunc (a / b))))
  | Fin _, (PInf | NInf) => x
  | _, _ => NaN
  end.

(** [x < y] and [x <= y]; every comparison with [NaN] is false. *)
Definition num_ltb (x y : num) : bool :=
  match x, y with
  | NaN, _ | _, NaN => false
  | Fin a, Fin b => negb (Qle_bool b a)
  | _, NInf => false
  | NInf, _ => true
  | PInf, _ => false
  | _, PInf => true
  end.

Definition num_leb (x y : num) : bool :=
  match x, y with
  | NaN, _ | _, NaN => false
  | Fin a, Fin b => Qle_bool a b
  | NInf, _ => true
  | _, PInf => true
  | _, _ => false
  end.

(** [x === y] on numbers. *)
Definition num_eqb (x y : num) : bool :=
  match x, y with
  | Fin a, Fin b => Qeq_bool a b
  | PInf, PInf | NInf, NInf => true
  | _, _ => false
  end.

(** [Math.round]: the nearest integer, a half going up; the result is
    exact. *)
Definition Math_round (q : Q) : Z := Qfloor (q + (1 # 2)).

Definition num_round (x : num) : num :=
  match x with
  | Fin q => Fin (inject_Z (Math_round q))
  | _ => x
  end.

(** ** Values *)

Inductive jsval : Type :=
| JUndef
| JNull
| JBool (b : bool)
| JNum (n : num)
| JStr (s : string)
| JArr (l : list jsval)
| JObj (o : list (string * jsval))
| JFun (source : string).

Inductive res (A : Type) : Type :=
| Ret (a : A)
| Throw.
Arguments Ret {A} a.
Arguments Throw {A}.

#[export] Instance res_ret : MRet res := @Ret.
#[export] Instance res_bind : MBind res := fun A B k r =>
  match r with Ret a => k a | Throw => Throw end.

Definition nullish (v : jsval) : bool :=
  match v with JUndef | JNull => true | _ => false end.

(** [a ?? b] *)
Definition coalesce (a b : jsval) : jsval := if nullish a then b else a.

Definition truthy_num (n : num) : bool :=
  match n with
  | Fin q => negb (Qeq_bool q 0)
  | NaN => false
  | _ => true
  end.

Definition truthy (v : jsval) : bool :=
  match v with
  | JUndef | JNull => false
  | JBool b => b
  | JNum n => truthy_num n
  | JStr s => negb (String.eqb s EmptyString)
  | JArr _ | JObj _ | JFun _ => true
  end.

Fixpoint assoc (k : string) (o : list (string * jsval)) : option jsval :=
  match o with
  | [] => None
  | (k', v) :: o' => if String.eqb k k' then Some v else assoc k o'
  end.

Definition is_digit (c : ascii) : bool :=
  (48 <=? nat_of_ascii c)%nat && (nat_of_ascii c <=? 57)%nat.

Definition digit_val (c : ascii) : nat := (nat_of_ascii c - 48)%nat.

Fixpoint digits_val (acc : nat) (s : string) : option nat :=
  match s with
  | EmptyString => Some acc
  | String c s' =>
      if is_digit c then digits_val (10 * acc + digit_val c)%nat s' else None
  end.

(** A property key that is an array index: decimal digits with no
    leading zero. *)
Definition array_index (k : string) : option nat :=
  match k with
  | EmptyString => None
  | String "0" EmptyString => Some 0%nat
  | String "0" _ => None
  | _ => digits_val 0 k
  end.

(** The own property [k] of a value read from JSON, if it has one. *)
Definition own_prop (v : jsval) (k : string) : option jsval :=
  match v with
  | JObj o => assoc k o
  | JArr l =>
      if String.eqb k "length" then Some (JNum (num_of_Z (Z.of_nat (List.length l))))
      else match array_index k with
           | Some i => nth_error l i
           | None => None
           end
  | JStr s =>
      if String.eqb k "length" then Some (JNum (num_of_Z (Z.of_nat (String.length s))))
      else match array_index k with
           | Some i => match String.get i s with
                       | Some c => Some (JStr (String c EmptyString))
                       | None => None
                       end
           | None => None
           end
  | _ => None
  end.

Section Engine.

(** The host: what a property read gives when the value has no own
    property of that name (the prototype chain of the value, and the
    properties of the built-in functions), and the conversions. *)
Variable HostProp : jsval -> string -> jsval.
Variable StringToNumber : string -> num.
Variable NumberToString : num -> string.

(** [v[k]] for a receiver that is neither [null] nor [undefined]
    (reading a property of those throws; the callers test first). *)
Definition prop (v : jsval) (k : string) : jsval :=
  match v with
  | JUndef | JNull => JUndef
  | _ => match own_prop v k with
         | Some x => x
         | None => HostProp v k
         end
  end.

Fixpoint join_with (sep : string) (l : list string) : string :=
  match l with
  | [] => EmptyString
  | [x] => x
  | x :: l' => (x ++ sep ++ join_with sep l')%string
  end.

(** [String(v)] *)
Fixpoint ToString (v : jsval) : string :=
  match v with
  | JUndef => "undefined"
  | JNull => "null"
  | JBool true => "true"
  | JBool false => "false"
  | JNum n => NumberToString n
  | JStr s => s
  | JArr l =>
      join_with ","
        (List.map (fun e => if nullish e then EmptyString else ToString e) l)
  | JObj _ => "[object Object]"
  | JFun source => source
  end.

(** [Number(v)] *)
Definition ToNumber (v : jsval) : num :=
  match v with
  | JUndef => NaN
  | JNull => num_of_Z 0
  | JBool true => num_of_Z 1
  | JBool false => num_of_Z 0
  | JNum n => n
  | JStr s => StringToNumber s
  | JArr _ | JObj _ | JFun _ => StringToNumber (ToString v)
  end.

(** ** Rounding rule *)

Definition roundPrice (n : jsval) : jsval :=
  let x := ToNumber n in
  if negb (isFinite x) then JStr EmptyString
  else
    (* Always round to nearest $10 first *)
    let p := num_mul (num_round (num_div x (num_of_Z 10))) (num_of_Z 10) in
    (* If above $340, avoid 10/90 endings *)
    let p :=
      if num_ltb (num_of_Z 340) p then
        let last :=
          num_rem (num_add (num_rem p (num_of_Z 100)) (num_of_Z 100))
            (num_of_Z 100) in (* positive modulo *)
        if num_eqb last (num_of_Z 10) then num_sub p (num_of_Z 10)
        else if num_eqb last (num_of_Z 90) then num_add p (num_of_Z 10)
        else p
      else p in
    JNum p.

(** ** Configuration *)

(** Back-compat defaults (percent only), as [build_html] writes them. *)
Definition DEFAULT_RULES : jsval :=
  JObj [ ("1-100", JNum (num_of_Z 30));
         ("101-220", JNum (num_of_Z 20));
         ("221-300", JNum (num_of_Z 15));
         ("301-469", JNum (num_of_Z 13));
         ("470+", JNum (num_of_Z 10)) ].

Definition DEFAULT_BUCKETS : jsval :=
  JArr [ JArr [JStr "1-100"; JNum (num_of_Z 1); JNum (num_of_Z 100)];
         JArr [JStr "101-220"; JNum (num_of_Z 101); JNum (num_of_Z 220)];
         JArr [JStr "221-300"; JNum (num_of_Z 221); JNum (num_of_Z 300)];
         JArr [JStr "301-469"; JNum (num_of_Z 301); JNum (num_of_Z 469)];
         JArr [JStr "470+"; JNum (num_of_Z 470); JNum PInf] ].

(** The three properties of the configuration object that the engine
    reads. *)
Record EngineConfig : Type := mkConfig {
  defaults : jsval;
  perSheet : jsval;
  buckets : jsval
}.

(** The store is what [JSON.parse] makes of the text kept under
    [engineConfigV1]: [None] when the key is absent, empty or not JSON. *)
Definition store : Type := option jsval.

Definition getEngineConfig (raw : store) : EngineConfig :=
  let fallback := mkConfig DEFAULT_RULES (JObj []) DEFAULT_BUCKETS in
  match raw with
  | None => fallback
  | Some cfg =>
      match cfg with
      | JUndef | JNull => fallback (* the read throws, the catch answers *)
      | JArr _ | JObj _ =>
          mkConfig (coalesce (prop cfg "defaults") DEFAULT_RULES)
                   (coalesce (prop cfg "perSheet") (JObj []))
                   (coalesce (prop cfg "buckets") DEFAULT_BUCKETS)
      | _ => (* a primitive drops the three assignments *)
          mkConfig (prop cfg "defaults") (prop cfg "perSheet") (prop cfg "buckets")
      end
  end.

Record rule : Type := mkRule {
  pct : option num;
  flat : option num
}.

(** [(x===''||x==null) ? null : Number(x)] *)
Definition rule_field (x : jsval) : option num :=
  match x with
  | JUndef | JNull => None
  | JStr EmptyString => None
  | _ => Some (ToNumber x)
  end.

(** Normalize rules: number => {pct:number, flat:null}; object => {pct,flat} *)
Definition asRuleObj (v : jsval) : rule :=
  match v with
  | JUndef | JNull => mkRule None None
  | JNum n => mkRule (Some n) None
  | JArr _ | JObj _ =>
      mkRule (rule_field (prop v "pct")) (rule_field (prop v "flat"))
  | _ => mkRule None None
  end.

(** ** Buckets + rules *)

Record bucket : Type := mkBucket {
  label : string;
  lo : num;
  hi : num
}.

Definition isArray (v : jsval) : bool :=
  match v with JArr _ => true | _ => false end.

Definition items (v : jsval) : list jsval :=
  match v with JArr l => l | _ => [] end.

Fixpoint map_res {A B} (f : A -> res B) (l : list A) : res (list B) :=
  match l with
  | [] => Ret []
  | a :: l' => b ← f a; bs ← map_res f l'; Ret (b :: bs)
  end.

Definition activeBuckets (raw : store) : res (list bucket) :=
  let cfg := getEngineConfig raw in
  let b := if isArray (buckets cfg) then buckets cfg else DEFAULT_BUCKETS in
  map_res (fun arr =>
             if nullish arr then Throw
             else Ret (mkBucket (ToString (prop arr "0"))
                                (ToNumber (prop arr "1"))
                                (match prop arr "2" with
                                 | JNum PInf => PInf
                                 | x => ToNumber x
                                 end)))
          (items b).

Definition is_none {A} (o : option A) : bool :=
  match o with None => true | Some _ => false end.

Definition resolveRule (raw : store) (label sheetName : string) : rule :=
  let cfg := getEngineConfig raw in
  let page :=
    if truthy (perSheet cfg) && truthy (prop (perSheet cfg) sheetName)
    then prop (perSheet cfg) sheetName else JObj [] in
  let vPage := if truthy page then prop page label else JNull in
  let vDef := if truthy (defaults cfg) then prop (defaults cfg) label else JNull in
  let rulePage := asRuleObj vPage in
  let ruleDef := asRuleObj vDef in
  (* fallback to DEFAULT_RULES numeric if both empty *)
  if is_none (pct rulePage) && is_none (flat rulePage)
     && is_none (pct ruleDef) && is_none (flat ruleDef)
  then
    let num :=
      match prop DEFAULT_RULES label with
      | JUndef => num_of_Z 0
      | x => ToNumber x
      end in
    mkRule (Some num) None
  else
    (* prefer page overrides if provided, else defaults *)
    mkRule (match pct rulePage with Some x => Some x | None => pct ruleDef end)
           (match flat rulePage with Some x => Some x | None => flat ruleDef end).

(** [Number(x||0)] for a rule field [x]. *)
Definition or_zero (x : option num) : num :=
  match x with
  | Some n => if truthy_num n then n else num_of_Z 0
  | None => num_of_Z 0
  end.

Fixpoint finalPrice_scan (raw : store) (sheetName : string) (base : num)
    (bucks : list bucket) : jsval :=
  match bucks with
  | [] => roundPrice (JNum base)
  | b :: rest =>
      if num_leb (lo b) base && num_leb base (hi b) then
        let rule := resolveRule raw (label b) sheetName in
        let pct := or_zero (pct rule) in
        let flat := or_zero (flat rule) in
        let p := num_mul base (num_sub (num_of_Z 1) (num_div pct (num_of_Z 100))) in
        let p := num_sub p flat in
        let p := if num_ltb p (num_of_Z 0) then num_of_Z 0 else p in
        roundPrice (JNum p)
      else finalPrice_scan raw sheetName base rest
  end.

Definition finalPriceFor (raw : store) (sheetName : string) (base : num)
    : res jsval :=
  bucks ← activeBuckets raw;
  Ret (finalPrice_scan raw sheetName base bucks).

End Engine.

(** ** Text: characters, regular expressions, string methods *)

Local Close Scope Z_scope.

Definition chars : string -> list ascii := list_ascii_of_string.
Definition text : list ascii -> string := string_of_list_ascii.

Definition code_in (a b : nat) (c : ascii) : bool :=
  (a <=? nat_of_ascii c) && (nat_of_ascii c <=? b).

Definition is_lower (c : ascii) : bool := code_in 97 122 c.
Definition is_upper (c : ascii) : bool := code_in 65 90 c.

(** [\w] *)
Definition is_word (c : ascii) : bool :=
  is_lower c || is_upper c || is_digit c || Ascii.eqb c "_".

(** [\s] on ASCII: tab, line feed, vertical tab, form feed, carriage
    return, space. *)
Definition is_space (c : ascii) : bool :=
  code_in 9 13 c || Ascii.eqb c " ".

Definition lower_char (c : ascii) : ascii :=
  if is_upper c then ascii_of_nat (nat_of_ascii c + 32) else c.

Definition toLowerCase (s : string) : string :=
  text (List.map lower_char (chars s)).

(** The double quote, and the UTF-8 bytes of the non-ASCII characters
    that the source's patterns and literals name. *)
Definition dquote : ascii := "034".
Definition utf8 (a b c : nat) : string :=
  String (ascii_of_nat a) (String (ascii_of_nat b) (String (ascii_of_nat c) EmptyString)).
Definition ldquo : string := utf8 226 128 156.   (* U+201C *)
Definition rdquo : string := utf8 226 128 157.   (* U+201D *)
Definition dprime : string := utf8 226 128 179.  (* U+2033 *)
Definition nbhyphen : string := utf8 226 128 145. (* U+2011 *)

(** The fragment of JavaScript's regular expressions that the source
    uses; repetition applies to character classes only. *)
Inductive regex : Type :=
| RChar (c : ascii)
| RStr (s : string)
| RClass (p : ascii -> bool)
| RStar (p : ascii -> bool)
| RPlus (p : ascii -> bool)
| RSeq (r1 r2 : regex)
| RAlt (r1 r2 : regex)
| ROpt (r : regex)
| RGroup (r : regex)
| RBound
| REnd.

(** A match in progress: the character before the position, the rest
    of the subject, the groups captured so far. *)
Definition mcont : Type :=
  option ascii -> list ascii -> list (list ascii) -> option (list ascii * list (list ascii)).

Definition word_before (prev : option ascii) : bool :=
  match prev with Some c => is_word c | None => false end.

Definition word_after (s : list ascii) : bool :=
  match s with c :: _ => is_word c | [] => false end.

Fixpoint match_str (lit : list ascii) (prev : option ascii) (s : list ascii)
    : option (option ascii * list ascii) :=
  match lit with
  | [] => Some (prev, s)
  | c :: lit' =>
      match s with
      | d :: s' => if Ascii.eqb c d then match_str lit' (Some d) s' else None
      | [] => None
      end
  end.

(** Greedy repetition of a class, giving characters back on failure. *)
Fixpoint match_star (p : ascii -> bool) (prev : option ascii) (s : list ascii)
    (k : option ascii -> list ascii -> option (list ascii * list (list ascii)))
    : option (list ascii * list (list ascii)) :=
  match s with
  | c :: s' =>
      if p c then
        match match_star p (Some c) s' k with
        | Some r => Some r
        | None => k prev s
        end
      else k prev s
  | [] => k prev s
  end.

(** Backtracking matcher in continuation-passing style: alternatives
    are tried left to right, repetition and option are greedy. *)
Fixpoint rmatch (r : regex) (prev : option ascii) (s : list ascii)
    (caps : list (list ascii)) (k : mcont)
    : option (list ascii * list (list ascii)) :=
  match r with
  | RChar c =>
      match s with
      | d :: s' => if Ascii.eqb c d then k (Some d) s' caps else None
      | [] => None
      end
  | RStr lit =>
      match match_str (chars lit) prev s with
      | Some (prev', s') => k prev' s' caps
      | None => None
      end
  | RClass p =>
      match s with
      | d :: s' => if p d then k (Some d) s' caps else None
      | [] => None
      end
  | RStar p => match_star p prev s (fun prev' s' => k prev' s' caps)
  | RPlus p =>
      match s with
      | d :: s' =>
          if p d then match_star p (Some d) s' (fun prev' s' => k prev' s' caps)
          else None
      | [] => None
      end
  | RSeq r1 r2 =>
      rmatch r1 prev s caps (fun prev' s' caps' => rmatch r2 prev' s' caps' k)
  | RAlt r1 r2 =>
      match rmatch r1 prev s caps k with
      | Some x => Some x
      | None => rmatch r2 prev s caps k
      end
  | ROpt r1 =>
      match rmatch r1 prev s caps k with
      | Some x => Some x
      | None => k prev s caps
      end
  | RGroup r1 =>
      rmatch r1 prev s caps
        (fun prev' s' caps' =>
           k prev' s' (caps' ++ [firstn (List.length s - List.length s') s]))
  | RBound =>
      if xorb (word_before prev) (word_after s) then k prev s caps else None
  | REnd =>
      match s with [] => k prev s caps | _ :: _ => None end
  end.

(** A match starting exactly here: the number of characters it takes
    and its groups. *)
Definition match_at (r : regex) (prev : option ascii) (s : list ascii)
    : option (nat * list (list ascii)) :=
  match rmatch r prev s [] (fun _ s' caps => Some (s', caps)) with
  | Some (s', caps) => Some (List.length s - List.length s', caps)
  | None => None
  end.

(** [s.replace(/r/g, repl)]: matches are found left to right on the
    subject, never overlapping; [skip] counts the characters that the
    last match still covers. *)
Fixpoint replace_go (r : regex) (repl : list (list ascii) -> list ascii)
    (prev : option ascii) (skip : nat) (s : list ascii) : list ascii :=
  match s with
  | [] =>
      match skip, match_at r prev [] with
      | 0, Some (_, caps) => repl caps
      | _, _ => []
      end
  | c :: s' =>
      match skip with
      | S n => replace_go r repl (Some c) n s'
      | 0 =>
          match match_at r prev s with
          | Some (0, caps) => repl caps ++ c :: replace_go r repl (Some c) 0 s'
          | Some (S n, caps) => repl caps ++ replace_go r repl (Some c) n s'
          | None => c :: replace_go r repl (Some c) 0 s'
          end
      end
  end.

Definition replace_with (r : regex) (repl : list (list ascii) -> list ascii)
    (s : string) : string :=
  text (replace_go r repl None 0 (chars s)).

(** Replacement by a fixed text, and by [$1] followed by a fixed text. *)
Definition replaceAll (r : regex) (by_ : string) (s : string) : string :=
  replace_with r (fun _ => chars by_) s.

Definition replaceAll_g1 (r : regex) (after : string) (s : string) : string :=
  replace_with r (fun caps => nth 0 caps [] ++ chars after) s.

(** [/r/.test(s)] *)
Fixpoint test_go (r : regex) (prev : option ascii) (s : list ascii) : bool :=
  match match_at r prev s with
  | Some _ => true
  | None =>
      match s with
      | [] => false
      | c :: s' => test_go r (Some c) s'
      end
  end.

Definition test (r : regex) (s : string) : bool := test_go r None (chars s).

Fixpoint is_prefix (p s : list ascii) : bool :=
  match p, s with
  | [], _ => true
  | c :: p', d :: s' => Ascii.eqb c d && is_prefix p' s'
  | _ :: _, [] => false
  end.

Fixpoint includes_go (p s : list ascii) : bool :=
  is_prefix p s ||
  match s with
  | [] => false
  | _ :: s' => includes_go p s'
  end.

(** [s.includes(p)], [s.startsWith(p)] *)
Definition includes (s p : string) : bool := includes_go (chars p) (chars s).
Definition startsWith (s p : string) : bool := is_prefix (chars p) (chars s).

Fixpoint drop_spaces (s : list ascii) : list ascii :=
  match s with
  | c :: s' => if is_space c then drop_spaces s' else s
  | [] => []
  end.

(** [s.trim()] *)
Definition trim (s : string) : string :=
  text (rev (drop_spaces (rev (drop_spaces (chars s))))).

(** [s.split(' ')] *)
Fixpoint split_go (cur : list ascii) (s : list ascii) : list string :=
  match s with
  | [] => [text (rev cur)]
  | c :: s' =>
      if Ascii.eqb c " " then text (rev cur) :: split_go [] s'
      else split_go (c :: cur) s'
  end.

Definition split_space (s : string) : list string := split_go [] (chars s).

Definition nonempty (s : string) : bool := negb (String.eqb s EmptyString).

(** [s.split(' ').filter(Boolean)] *)
Definition tokens_of (s : string) : list string :=
  List.filter nonempty (split_space s).

Fixpoint rseq (l : list regex) : regex :=
  match l with
  | [] => RStr EmptyString
  | [r] => r
  | r :: l' => RSeq r (rseq l')
  end.

Fixpoint ralt (l : list regex) : regex :=
  match l with
  | [] => RClass (fun _ => false)
  | [r] => r
  | r :: l' => RAlt r (ralt l')
  end.

(** ** Search / fuzzy *)

(** The patterns of [normText], in the order of its statements. *)
Definition re_inch_quote : regex := RAlt (RChar dquote) (RStr rdquo).
Definition re_dash_inch : regex :=
  rseq [RBound; RGroup (RPlus is_digit); RStar is_space; RChar "-";
        RStar is_space; RStr "inch"; RBound].
Definition re_inches : regex :=
  rseq [RBound; RGroup (RPlus is_digit); RStar is_space; RStr "inch";
        ROpt (RGroup (RStr "es")); RBound].
Definition re_cell_gen : regex :=
  rseq [RBound; RGroup (RClass (code_in 50 54)); RStar is_space; RChar "g"; RBound].
Definition keeps (c : ascii) : bool :=
  is_lower c || is_digit c || Ascii.eqb c "." || Ascii.eqb c " ".
Definition re_not_kept : regex := RPlus (fun c => negb (keeps c)).
Definition re_spaces : regex := RPlus is_space.

Definition normText (s : string) : string :=
  if String.eqb s EmptyString then EmptyString else
  let s := toLowerCase s in
  let s := replaceAll re_inch_quote " inch " s in
  let s := replaceAll_g1 re_dash_inch " inch" s in
  let s := replaceAll_g1 re_inches " inch" s in
  let s := replaceAll (RChar "-") " " s in
  let s := replaceAll_g1 re_cell_gen "g" s in
  let s := replaceAll re_not_kept " " s in
  let s := trim (replaceAll re_spaces " " s) in
  s.

Definition re_brand : regex :=
  rseq [RBound;
        RGroup (ralt [RStr "ipad"; RStr "iphone"; RStr "apple"; RStr "samsung"]);
        RBound].

Definition buildSearchBlob (name sheetName : string) : string :=
  let base := normText name in
  let stripped :=
    trim (replaceAll re_spaces " " (replaceAll re_brand EmptyString base)) in
  let sheetPart :=
    if nonempty sheetName then (" " ++ normText sheetName)%string
    else EmptyString in
  trim (base ++ " " ++ stripped ++ sheetPart)%string.

(** One cell of the rolling row: [dp[j]] is rewritten from its old
    value, its left neighbour and [prev]. *)
Definition lev_cell (a b : list ascii) (i : nat) (st : list nat * nat) (j : nat)
    : list nat * nat :=
  let '(dp, prev) := st in
  let tmp := dp !!! j in
  let cost := if bool_decide (a !! (i - 1) = b !! (j - 1)) then 0 else 1 in
  (<[j := Nat.min (Nat.min (dp !!! j + 1) (dp !!! (j - 1) + 1)) (prev + cost)]> dp,
   tmp).

Definition lev_row (a b : list ascii) (n : nat) (dp : list nat) (i : nat)
    : list nat :=
  let prev := dp !!! 0 in
  let dp := <[0 := i]> dp in
  fst (fold_left (lev_cell a b i) (seq 1 n) (dp, prev)).

Definition levenshtein (a b : string) : nat :=
  let m := String.length a in
  let n := String.length b in
  if String.eqb a b then 0
  else if m =? 0 then n
  else if n =? 0 then m
  else
    let dp := seq 0 (n + 1) in
    fold_left (lev_row (chars a) (chars b) n) (seq 1 m) dp !!! n.

(** [Math.abs(x - y)] on lengths. *)
Definition abs_diff (x y : nat) : nat := (x - y) + (y - x).

Definition fuzzyTokenMatch (token : string) (hayTokens : list string) : bool :=
  if String.eqb token EmptyString then true
  else if existsb (fun h => includes h token) hayTokens then true
  else
    let maxEd := if 6 <=? String.length token then 2 else 1 in
    existsb (fun h =>
               if 3 <? abs_diff (String.length h) (String.length token) then false
               else levenshtein token h <=? maxEd)
            hayTokens.

(** A row of the prepared index. *)
Record prow : Type := mkProw {
  device : string;
  price : num;
  search : string
}.

Definition matchesQuery (row : prow) (q : string) : bool :=
  if String.eqb q EmptyString then true
  else
    let hay := search row in
    let nq := normText q in
    let tokens := tokens_of nq in
    if List.length tokens =? 0 then true
    else
      let hayTokens := tokens_of hay in
      forallb (fun tok => fuzzyTokenMatch tok hayTokens) tokens.

(** [/^\d+(?:\.\d+)?$/] *)
Definition re_number : regex :=
  rseq [RPlus is_digit; ROpt (RSeq (RChar ".") (RPlus is_digit)); REnd].

(** The value of a decimal literal that [re_number] lets through. *)
Fixpoint parseFloat_go (n : Z) (scale : positive) (frac : bool) (s : list ascii)
    : Q :=
  match s with
  | [] => Qmake n scale
  | c :: s' =>
      if Ascii.eqb c "." then parseFloat_go n scale true s'
      else parseFloat_go (10 * n + Z.of_nat (digit_val c))%Z
             (if frac then (10 * scale)%positive else scale) frac s'
  end.

(** [parseFloat] on such a literal: its value, rounded. *)
Definition parseFloat (s : string) : num :=
  round64 (parseFloat_go 0 1 false (chars s)).

Definition extractNums (tokens : list string) : list num :=
  flat_map (fun t => match match_at re_number None (chars t) with
                     | Some _ => [parseFloat t]
                     | None => []
                     end) tokens.

(** The loop over the pairs of neighbouring query tokens. *)
Fixpoint phrase_score (hay : string) (tokens : list string) (score : num) : num :=
  match tokens with
  | t1 :: (t2 :: _) as rest =>
      phrase_score hay rest
        (if includes hay (t1 ++ " " ++ t2)%string
         then num_add score (num_of_Z 12) else score)
  | _ => score
  end.

Definition token_best (tok : string) (hayTokens : list string) : nat :=
  fold_left
    (fun best h =>
       if String.eqb h tok then Nat.max best 10
       else if startsWith h tok || includes h tok then Nat.max best 6
       else
         let maxEd := if 6 <=? String.length tok then 2 else 1 in
         if (abs_diff (String.length h) (String.length tok) <=? 3)
            && (levenshtein tok h <=? maxEd)
         then Nat.max best 3 else best)
    hayTokens 0.

Definition best_delta (qNums hNums : list num) : num :=
  fold_left
    (fun bestDelta qn =>
       fold_left
         (fun bestDelta hn =>
            let d := num_abs (num_sub hn qn) in
            if num_ltb d bestDelta then d else bestDelta)
         hNums bestDelta)
    qNums PInf.

Definition rankScore (row : prow) (q : string) : num :=
  let hay := search row in
  let nq := normText q in
  if String.eqb nq EmptyString then num_of_Z 0
  else
    let tokens := tokens_of nq in
    let hayTokens := tokens_of hay in
    let score := num_of_Z 0 in
    let score := if includes hay nq then num_add score (num_of_Z 40) else score in
    let score := phrase_score hay tokens score in
    let score :=
      fold_left
        (fun score tok => num_add score (num_of_Z (Z.of_nat (token_best tok hayTokens))))
        tokens score in
    let qNums := extractNums tokens in
    let hNums := extractNums hayTokens in
    let score :=
      if (0 <? List.length qNums) && (0 <? List.length hNums) then
        let bestDelta := best_delta qNums hNums in
        if num_eqb bestDelta (num_of_Z 0) then num_add score (num_of_Z 25)
        else if num_leb bestDelta (num_of_Z 1) then num_add score (num_of_Z 10)
        else if num_leb bestDelta (num_of_Z 2) then num_add score (num_of_Z 5)
        else num_sub score bestDelta
      else score in
    num_sub score
      (num_mul (num_of_Z (Z.max 0 (Z.of_nat (List.length hayTokens)
                                   - Z.of_nat (List.length tokens))))
               (Fin (1 # 4))).

(** ** Query variants (the second script of the page) *)

Definition HYPHENS : regex :=
  ralt [RStr (utf8 226 128 144); RStr nbhyphen; RStr (utf8 226 128 146);
        RStr (utf8 226 128 147); RStr (utf8 226 128 148);
        RStr (utf8 226 136 146); RChar "-"].
Definition QUOTES : regex :=
  ralt [RChar dquote; RStr ldquo; RStr rdquo; RStr dprime].
Definition SPACES : regex := RPlus is_space.

(** [variants.add(v)] on a [Set], which keeps insertion order. *)
Definition set_add (v : string) (variants : list string) : list string :=
  if existsb (String.eqb v) variants then variants else variants ++ [v].

Definition expandQueryVariants (q : string) : list string :=
  let q := trim (toLowerCase q) in
  let variants := [q] in
  let variants :=
    if includes q "inch" then
      set_add (replaceAll (RStr "inch") "in" q)
        (set_add (replaceAll (RStr "inch") dprime q)
           (set_add (replaceAll (RStr "inch") (String dquote EmptyString) q)
              variants))
    else variants in
  let variants :=
    if test (ralt [RStr ldquo; RStr rdquo; RChar dquote; RStr dprime]) q then
      set_add (replaceAll QUOTES "in" q)
        (set_add (replaceAll QUOTES "inch" q) variants)
    else variants in
  let hyphenNormalized := replaceAll HYPHENS "-" q in
  let variants :=
    if String.eqb hyphenNormalized q then variants
    else set_add hyphenNormalized variants in
  let variants := set_add (replaceAll (RChar "-") " " hyphenNormalized) variants in
  let variants :=
    if test (rseq [RBound; RStr "wi"; RStar is_space; RStr "fi"; RBound]) q
       || test (rseq [RBound; RStr "wifi"; RBound]) q
       || test (rseq [RBound; RStr "wi"; ROpt (RChar "-"); RStr "fi"; RBound]) q
    then
      fold_left (fun vs v => set_add v vs)
        ["wifi"; "wi-fi"; "wi fi"; "wi-fi/vzw"; "wi-fi / vzw"; "wi-fi vzw";
         "wi-fi/vzw"; "wi" ++ nbhyphen ++ "fi"; "wi" ++ nbhyphen ++ "fi/vzw";
         "wi" ++ nbhyphen ++ "fi vzw"]%string
        variants
    else variants in
  let common :=
    [ ["att"; "at&t"; "atnt"];
      ["tmobile"; "t-mobile"; "t mobile"];
      ["verizon"; "vz"; "vzw"] ] in
  let variants :=
    fold_left
      (fun vs group =>
         if existsb (fun g => includes q g) group
         then fold_left (fun vs g => set_add g vs) group vs
         else vs)
      common variants in
  let variants :=
    set_add (replaceAll (RClass (fun c => negb (is_word c || is_space c))) " " q)
      variants in
  let variants :=
    fold_left (fun vs v => set_add (trim (replaceAll SPACES " " v)) vs)
      variants variants in
  variants.

(** ** Preparing the index and rendering one section *)

(** A row of [DATASETS], as the generator writes it. *)
Record drow : Type := mkDrow {
  d_device : string;
  d_display : string;
  d_price : num
}.

Definition prepareIndex (sheet : string) (rows : list drow) : list prow :=
  List.map
    (fun r =>
       mkProw (d_device r) (d_price r)
         (buildSearchBlob
            (if nonempty (d_display r) then d_display r else d_device r) sheet))
    rows.

Record hit : Type := mkHit {
  idx : nat;
  dev : string;
  shown : jsval;
  sc : num
}.

(** [(b.sc - a.sc) || (a.idx - b.idx)] *)
Definition hit_cmp (a b : hit) : num :=
  let d := num_sub (sc b) (sc a) in
  if truthy_num d then d else num_of_Z (Z.of_nat (idx a) - Z.of_nat (idx b)).

(** The stable sort of [Array.prototype.sort]: an element moves behind
    another one only when the comparator is positive. *)
Fixpoint insert_hit (x : hit) (l : list hit) : list hit :=
  match l with
  | [] => [x]
  | y :: l' =>
      if num_ltb (num_of_Z 0) (hit_cmp x y) then y :: insert_hit x l'
      else x :: l
  end.

Definition sort_hits (l : list hit) : list hit := fold_right insert_hit [] l.

Section Render.

Variable HostProp : jsval -> string -> jsval.
Variable StringToNumber : string -> num.
Variable NumberToString : num -> string.

(** The body of [rows.forEach((r, idx) => ...)]; a row of the prepared
    index has no [display], so [r.device||r.display] is the device or
    [undefined]. *)
Fixpoint collect (raw : store) (name q : string) (i : nat) (rows : list prow)
    : res (list hit) :=
  match rows with
  | [] => Ret []
  | r :: rest =>
      let dev := if nonempty (device r) then device r else "undefined" in
      let base := price r in
      if negb (nonempty dev) || isNaN base then collect raw name q (S i) rest
      else if negb (matchesQuery r q) then collect raw name q (S i) rest
      else
        let sc := if nonempty q then rankScore r q else num_of_Z 0 in
        fp ← finalPriceFor HostProp StringToNumber NumberToString raw name base;
        ms ← collect raw name q (S i) rest;
        Ret (mkHit i dev fp sc :: ms)
  end.

Definition render (raw : store) (name q : string) (rows : list prow)
    : res (list hit) :=
  matches ← collect raw name q 0 rows;
  Ret (sort_hits matches).

End Render.

(** ** Storing and merging the configuration *)

(** What [JSON.parse] reads back from [JSON.stringify(v)]: a number
    that is not finite is written as [null], as is [undefined] or a
    function inside an array; a property whose value is [undefined] or
    a function is left out. *)
Definition is_undef (v : jsval) : bool :=
  match v with JUndef | JFun _ => true | _ => false end.

Fixpoint json_props (image : jsval -> jsval) (o : list (string * jsval))
    : list (string * jsval) :=
  match o with
  | [] => []
  | (k, x) :: o' =>
      if is_undef x then json_props image o'
      else (k, image x) :: json_props image o'
  end.

Fixpoint json_image (v : jsval) : jsval :=
  match v with
  | JNum (Fin _) => v
  | JNum _ => JNull
  | JArr l =>
      JArr (List.map (fun e => if is_undef e then JNull else json_image e) l)
  | JObj o => JObj (json_props (fun x => json_image x) o)
  | _ => v
  end.

(** [localStorage.setItem('engineConfigV1', JSON.stringify(cfg))];
    [JSON.stringify(undefined)] is no JSON text. *)
Definition setEngineConfig (cfg : jsval) : store :=
  match cfg with
  | JUndef | JFun _ => None
  | _ => Some (json_image cfg)
  end.

(** What the stored object holds under a name whose value was [v]:
    nothing when [v] is [undefined] or a function. *)
Definition stored_value (v : jsval) : jsval :=
  if is_undef v then JUndef else json_image v.

(** The object literal [{defaults: ..., perSheet: ..., buckets: ...}]. *)
Definition config_object (c : EngineConfig) : jsval :=
  JObj [ ("defaults", defaults c); ("perSheet", perSheet c); ("buckets", buckets c) ].

(** The reset button:
    [setEngineConfig({ defaults: DEFAULT_RULES, perSheet: {}, buckets: DEFAULT_BUCKETS })]. *)
Definition resetEngine : store :=
  setEngineConfig (config_object (mkConfig DEFAULT_RULES (JObj []) DEFAULT_BUCKETS)).

(** [a || b] *)
Definition or_else (a b : jsval) : jsval := if truthy a then a else b.

(** [typeof v === 'object'] for a value that is not [null]. *)
Definition is_object (v : jsval) : bool :=
  match v with JArr _ | JObj _ => true | _ => false end.

Section Loader.

Variable HostProp : jsval -> string -> jsval.
Variable StringToNumber : string -> num.
Variable NumberToString : num -> string.

Definition sanitizeBuckets (buckets : jsval) : jsval :=
  match buckets with
  | JArr l =>
      JArr (List.map
              (fun arr =>
                 match arr with
                 | JArr a =>
                     let label := ToString NumberToString (prop HostProp arr "0") in
                     let lo :=
                       ToNumber StringToNumber NumberToString (prop HostProp arr "1") in
                     let hi :=
                       if 2 <? List.length a then prop HostProp arr "2" else JUndef in
                     let hi :=
                       match hi with
                       | JNull | JUndef | JStr EmptyString => JStr "Infinity"
                       | _ => hi
                       end in
                     JArr [JStr label; JNum lo; hi]
                 | _ => arr
                 end) l)
  | _ => buckets
  end.

(** [mergeConfig(current, remote)]; the theme that a remote document
    may name is applied on the side and is not part of the result. *)
Definition mergeConfig (current : EngineConfig) (remote : jsval) : EngineConfig :=
  let out :=
    mkConfig (or_else (defaults current) (JObj []))
             (or_else (perSheet current) (JObj []))
             (or_else (buckets current) (JArr [])) in
  if truthy remote && is_object remote then
    let out :=
      if truthy (prop HostProp remote "defaults") && is_object (prop HostProp remote "defaults")
      then mkConfig (prop HostProp remote "defaults") (perSheet out) (buckets out)
      else out in
    let out :=
      if truthy (prop HostProp remote "perSheet") && is_object (prop HostProp remote "perSheet")
      then mkConfig (defaults out) (prop HostProp remote "perSheet") (buckets out)
      else out in
    let out :=
      if isArray (prop HostProp remote "buckets")
      then mkConfig (defaults out) (perSheet out)
             (sanitizeBuckets (prop HostProp remote "buckets"))
      else out in
    out
  else out.

(** [initEngineConfigFromServer]: [remote] is what the first fetch that
    succeeds returns, [None] when both fail. *)
Definition initEngineConfigFromServer (raw : store) (remote : option jsval) : store :=
  match remote with
  | None => raw
  | Some r =>
      if truthy r
      then setEngineConfig (config_object (mergeConfig (getEngineConfig HostProp raw) r))
      else raw
  end.

End Loader.

(** ** The generator: reading a row of the source table

    The Python functions that turn a row of the workbook into a device
    and a price.  A cell is a string, an [int], a [bool] (which Python
    counts as an [int]), a [float], or anything else ([None], a date).
    Text is ASCII, as in the rest of the development; on such text
    [str.strip], [str.lower], [len] and the class [\d] are the
    functions below.  A float is a [num], as a Number of the page is. *)

Inductive pyval : Type :=
| PStr (s : string)
| PInt (z : Z)
| PBool (b : bool)
| PFloat (x : num)
| POther.

(** [str.isspace] on ASCII: tab to carriage return, the four
    separators 28 to 31, and the space. *)
Definition py_isspace (c : ascii) : bool := code_in 9 13 c || code_in 28 32 c.

Fixpoint py_lstrip (s : list ascii) : list ascii :=
  match s with
  | c :: s' => if py_isspace c then py_lstrip s' else s
  | [] => []
  end.

(** [s.strip()] *)
Definition py_strip (s : string) : string :=
  text (rev (py_lstrip (rev (py_lstrip (chars s))))).

Fixpoint first_text (cells : list pyval) : option string :=
  match cells with
  | [] => None
  | v :: rest =>
      match v with
      | PStr v =>
          let s := py_strip v in
          if nonempty s then Some s else first_text rest
      | _ => first_text rest
      end
  end.

(** [-?\d+(?:\.\d+)?] *)
Definition re_py_number : regex :=
  rseq [ROpt (RChar "-"); RPlus is_digit;
        ROpt (RSeq (RChar ".") (RPlus is_digit))].

(** [re.fullmatch(r, s)] *)
Definition fullmatch (r : regex) (s : string) : bool :=
  match match_at (RSeq r REnd) None (chars s) with
  | Some _ => true
  | None => false
  end.

(** [re.search(r, s)]: the text of the leftmost match. *)
Fixpoint search_go (r : regex) (prev : option ascii) (s : list ascii)
    : option (list ascii) :=
  match match_at r prev s with
  | Some (n, _) => Some (firstn n s)
  | None =>
      match s with
      | [] => None
      | c :: s' => search_go r (Some c) s'
      end
  end.

Definition search_first (r : regex) (s : string) : option string :=
  match search_go r None (chars s) with
  | Some m => Some (text m)
  | None => None
  end.

(** [float(s)] on the decimal literals that [re_py_number] lets
    through: the nearest double, an infinity for a literal too
    large. *)
Definition py_float (s : string) : num :=
  round64
    match chars s with
    | "-"%char :: s' => Qopp (parseFloat_go 0 1 false s')
    | s' => parseFloat_go 0 1 false s'
    end.

(** [float(v)] on an [int]: the nearest double; Python raises
    [OverflowError] for an [int] too large. *)
Definition float_of_int (z : Z) : res num :=
  match round64 (inject_Z z) with
  | Fin x => Ret (Fin x)
  | _ => Throw
  end.

(** [s.replace(",", "")] *)
Definition remove_commas (s : string) : string :=
  text (List.filter (fun c => negb (Ascii.eqb c ",")) (chars s)).

Fixpoint first_number (cells : list pyval) : res (option num) :=
  match cells with
  | [] => Ret None
  | v :: rest =>
      match v with
      | PInt z => x ← float_of_int z; Ret (Some x)
      | PBool b => Ret (Some (num_of_Z (if b then 1 else 0)))
      | PFloat (Fin x) => Ret (Some (Fin x))
      | PFloat _ => first_number rest
      | PStr v =>
          let sv := remove_commas (py_strip v) in
          (* exact number *)
          if fullmatch re_py_number sv then Ret (Some (py_float sv))
          else
            (* tolerant: mixed text *)
            match search_first re_py_number sv with
            | Some m => Ret (Some (py_float m))
            | None => first_number rest
            end
      | POther => first_number rest
      end
  end.

Definition HEADER_WORDS : list string :=
  [ "device"; "price"; "prices"; "model"; "storage"; "color";
    "note"; "notes"; "sealed"; "open"; "active"; "natural";
    "locked carrier"; "activation status" ].

Definition JUNK_WORDS : list string :=
  [ "header"; "total"; "sum of"; "subtotal"; "grand total"; "file"; "page";
    "tab"; "sheet" ].

(** [A-Za-z0-9] *)
Definition is_alnum (c : ascii) : bool := is_lower c || is_upper c || is_digit c.

(** The literal [0.6]. *)
Definition point_six : num := round64 (6 # 10).

Definition looks_like_header_or_junk (text : string) : bool :=
  let t := toLowerCase (py_strip text) in
  if negb (nonempty t) || (String.length t <=? 1) then true
  else if existsb (String.eqb t) HEADER_WORDS then true
  else if existsb (fun x => includes t x) JUNK_WORDS then true
  (* too many non-alphanumerics *)
  else if num_ltb
            (num_mul (num_of_Z (Z.of_nat (String.length t))) point_six)
            (num_of_Z
               (Z.of_nat
                  (List.length
                     (List.filter (fun c => negb (is_alnum c)) (chars t)))))
  then true
  else false.

(** [(None, None)] is [None] here. *)
Definition row_to_device_and_price (row : list pyval)
    : res (option (string * num)) :=
  let cells := row in
  let dev := first_text cells in
  match dev with
  | None => Ret None
  | Some dev =>
      price ← first_number (tl cells);
      match price with
      | None => Ret None
      | Some price =>
          if looks_like_header_or_junk dev then Ret None
          else if num_leb price (num_of_Z 0) then Ret None
          else Ret (Some (py_strip dev, price))
      end
  end.

(** The rows that [load_workbook_tables] keeps of one sheet, in their
    order: the device and the price of each (the display name is
    derived from the device). *)
Fixpoint kept_rows (table : list (list pyval)) : res (list (string * num)) :=
  match table with
  | [] => Ret []
  | row :: rest =>
      r ← row_to_device_and_price row;
      rs ← kept_rows rest;
      Ret (match r with Some dp => dp :: rs | None => rs end)
  end.

(** * Definitions that follow the words of the specification *)

(** What the second stage of [roundPrice] does to a multiple of ten, in
    the words of the specification: above 340 an ending of 10 goes down
    and an ending of 90 goes up. *)
Definition avoid_10_90 (r : Z) : Z :=
  if (340 <? r)%Z then
    if (r mod 100 =? 10)%Z then (r - 10)%Z
    else if (r mod 100 =? 90)%Z then (r + 10)%Z
    else r
  else r.


(** The inclusive range [[low, high]] of a bucket contains the price. *)
Definition in_bucket (price : num) (b : bucket) : bool :=
  num_leb (lo b) price && num_leb price (hi b).

(** [resolveBucket(price, buckets)]: a linear scan in listed order that
    returns the first bucket with [low <= price <= high], or none. *)
Fixpoint resolveBucket (price : num) (bs : list bucket) : option bucket :=
  match bs with
  | [] => None
  | b :: bs' => if in_bucket price b then Some b else resolveBucket price bs'
  end.

(** [applyDiscount(base, rule)]: [p = base * (1 - pct/100) - flat],
    clamped to [max(p, 0)]; an absent field counts as 0 here. *)
Definition applyDiscount (base : num) (r : rule) : num :=
  let p :=
    num_sub (num_mul base
               (num_sub (num_of_Z 1)
                  (num_div (or_zero (pct r)) (num_of_Z 100))))
            (or_zero (flat r)) in
  if num_ltb p (num_of_Z 0) then num_of_Z 0 else p.

(** A rule with both fields unset. *)
Definition unset (r : rule) : bool := is_none (pct r) && is_none (flat r).

(** The first source that sets a field wins. *)
Definition first_set (a b : option num) : option num :=
  match a with Some x => Some x | None => b end.

(** A number that is at least 0, [+Infinity] among them. *)
Definition at_least_0 (p : num) : Prop := num_leb (num_of_Z 0) p = true.


Section RuleSources.

Variable HostProp : jsval -> string -> jsval.
Variable StringToNumber : string -> num.
Variable NumberToString : num -> string.

(** The two sources of [resolveRule], read as its first statements read
    them: [config.perSheet[sheetName][label]] and
    [config.defaults[label]], each normalised by [asRuleObj]. *)
Definition sheet_rule (raw : store) (sheetName label : string) : rule :=
  let cfg := getEngineConfig HostProp raw in
  let page :=
    if truthy (perSheet cfg) && truthy (prop HostProp (perSheet cfg) sheetName)
    then prop HostProp (perSheet cfg) sheetName else JObj [] in
  asRuleObj HostProp StringToNumber NumberToString
    (if truthy page then prop HostProp page label else JNull).

Definition default_rule (raw : store) (label : string) : rule :=
  let cfg := getEngineConfig HostProp raw in
  asRuleObj HostProp StringToNumber NumberToString
    (if truthy (defaults cfg) then prop HostProp (defaults cfg) label else JNull).

(** [legacyPercentTable[label] or 0] *)
Definition legacy_pct (label : string) : num :=
  match prop HostProp DEFAULT_RULES label with
  | JUndef => num_of_Z 0
  | x => ToNumber StringToNumber NumberToString x
  end.

End RuleSources.

(** Stand-ins for the host's conversions where a concrete run needs
    them; the runs below convert no string and print no number. *)
Definition no_number (s : string) : num := NaN.
Definition no_text (n : num) : string := EmptyString.

(** A stand-in for the host's prototype chain: every value inherits the
    methods of [Object.prototype] and the constructor of its kind, an
    array also the methods [flat] and [map] of [Array.prototype] (the
    runs below read no other inherited name); a function prints as its
    source text. *)
Definition native (name : string) : jsval :=
  JFun ("function " ++ name ++ "() { [native code] }").

Definition Object_prototype : list string :=
  [ "toString"; "toLocaleString"; "valueOf"; "hasOwnProperty";
    "isPrototypeOf"; "propertyIsEnumerable" ].

Definition constructor_name (v : jsval) : string :=
  match v with
  | JArr _ => "Array"
  | JStr _ => "String"
  | JNum _ => "Number"
  | JBool _ => "Boolean"
  | JFun _ => "Function"
  | _ => "Object"
  end.

Definition sample_host (v : jsval) (k : string) : jsval :=
  if String.eqb k "constructor" then native (constructor_name v)
  else
    match v with
    | JArr _ =>
        if existsb (String.eqb k) ("flat" :: "map" :: Object_prototype)
        then native k else JUndef
    | _ => if existsb (String.eqb k) Object_prototype then native k else JUndef
    end.

(** The Levenshtein distance between the first [i] characters of [a]
    and the first [j] characters of [b], by its defining recurrence:
    [lev(i,0) = i], [lev(0,j) = j], and otherwise the least of a
    deletion [lev(i-1,j) + 1], an insertion [lev(i,j-1) + 1] and a
    substitution [lev(i-1,j-1) + (0 if the characters agree, else 1)]. *)
Fixpoint lev_prefix (a b : list ascii) (i : nat) : nat -> nat :=
  match i with
  | 0 => fun j => j
  | S i' =>
      fix row (j : nat) : nat :=
        match j with
        | 0 => S i'
        | S j' =>
            Nat.min (Nat.min (lev_prefix a b i' (S j') + 1) (row j' + 1))
                    (lev_prefix a b i' j'
                     + (if bool_decide (a !! i' = b !! j') then 0 else 1))
        end
  end.

Definition lev_distance (a b : string) : nat :=
  lev_prefix (chars a) (chars b) (String.length a) (String.length b).

(** [t] occurs in [h] as a substring. *)
Definition substring_of (t h : string) : Prop :=
  exists pre post : string, h = (pre ++ t ++ post)%string.

(** The second step of the matcher: lengths at most 3 apart and a
    distance of at most 2 for a token of 6 characters or more, at most
    1 for a shorter one. *)
Definition within_edits (t h : string) : Prop :=
  abs_diff (String.length h) (String.length t) <= 3
  /\ lev_distance t h <= (if 6 <=? String.length t then 2 else 1).

(** The filter as the specification words it: some variant of the
    query, once normalised, has every one of its tokens matched by the
    tokens of the blob. *)
Definition variant_filter (row : prow) (q : string) : bool :=
  existsb
    (fun v =>
       forallb (fun tok => fuzzyTokenMatch tok (tokens_of (search row)))
               (tokens_of (normText v)))
    (expandQueryVariants q).

(** ** Vocabulary of the proofs *)

Section LevInvariants.

Variables a b : list ascii.
Variable n : nat.

(** The array holds row [i] of the matrix. *)
Definition holds_row (i : nat) (dp : list nat) : Prop :=
  List.length dp = S n /\ forall j, j <= n -> dp !!! j = lev_prefix a b i j.

(** In the middle of row [S i]: the cells up to [k] are new, the cells
    after [k] are still those of row [i], and [prev] is the old cell
    [k]. *)
Definition mid_row (i k : nat) (st : list nat * nat) : Prop :=
  List.length st.1 = S n
  /\ (forall j, j <= k -> st.1 !!! j = lev_prefix a b (S i) j)
  /\ (forall j, k < j -> j <= n -> st.1 !!! j = lev_prefix a b i j)
  /\ st.2 = lev_prefix a b i k.

End LevInvariants.

(** Trimming on the right only. *)
Definition rtrim (l : list ascii) : list ascii := rev (drop_spaces (rev l)).

(** The signal that one haystack token gives a query token. *)
Definition token_val (tok h : string) : nat :=
  if String.eqb h tok then 10
  else if startsWith h tok || includes h tok then 6
  else if (abs_diff (String.length h) (String.length tok) <=? 3)
          && (levenshtein tok h <=? (if 6 <=? String.length tok then 2 else 1))
       then 3 else 0.

(** What [buildSearchBlob] appends for the sheet label. *)
Definition sheet_part (sheetName : string) : string :=
  if nonempty sheetName then (" " ++ normText sheetName)%string else EmptyString.

(** The numeric stage of [rankScore], given the least difference. *)
Definition numeric_stage (score bestDelta : num) : num :=
  if num_eqb bestDelta (num_of_Z 0) then num_add score (num_of_Z 25)
  else if num_leb bestDelta (num_of_Z 1) then num_add score (num_of_Z 10)
  else if num_leb bestDelta (num_of_Z 2) then num_add score (num_of_Z 5)
  else num_sub score bestDelta.

(** One step of the search for the least difference. *)
Definition nearer (qn : num) (bestDelta : num) (hn : num) : num :=
  let d := num_abs (num_sub hn qn) in
  if num_ltb d bestDelta then d else bestDelta.

(** The tokens of the query [15 pro 256], and the integer part of the
    score that the text signals give it. *)
Definition q_tokens : list string := ["15"; "pro"; "256"].

Definition score_int (hay : string) (hayTokens : list string) : Z :=
  ((if includes hay "15 pro 256" then 40 else 0)
   + (if includes hay "15 pro" then 12 else 0)
   + (if includes hay "pro 256" then 12 else 0)
   + Z.of_nat (token_best "15" hayTokens)
   + Z.of_nat (token_best "pro" hayTokens)
   + Z.of_nat (token_best "256" hayTokens))%Z.

(** A least difference between 0 and 1. *)
Definition within_one (bestDelta : num) : Prop :=
  exists d, bestDelta = Fin d /\ (0 <= d <= 1)%Q.

(** A pattern begins inside a text: at some place of the text the
    pattern and the rest of the text agree as far as both go. *)
Fixpoint overlaps (p s : list ascii) : bool :=
  match s with
  | [] => false
  | _ :: s' => is_prefix p s || is_prefix s p || overlaps p s'
  end.

(** The two blobs without their first and last characters. *)
Definition head15 : list ascii := chars "phone 15 pro 256gb 15 pro 256g".
Definition head14 : list ascii := chars "phone 14 pro 256gb 14 pro 256g".


(** ** Sample data *)

(** A stored configuration with the two buckets A and B of the
    specification and a percent rule for each. *)
Definition cfg_AB : store :=
  Some (JObj
    [ ("buckets",
       JArr [ JArr [JStr "A"; JNum (num_of_Z 1); JNum (num_of_Z 100)];
              JArr [JStr "B"; JNum (num_of_Z 101); JNum (num_of_Z 220)] ]);
      ("defaults",
       JObj [ ("A", JNum (num_of_Z 30)); ("B", JNum (num_of_Z 20)) ]) ]).

Definition bucket_A : bucket := mkBucket "A" (num_of_Z 1) (num_of_Z 100).
Definition bucket_B : bucket := mkBucket "B" (num_of_Z 101) (num_of_Z 220).

(** A prepared row for a Verizon phone, and one whose price is
    infinite. *)
Definition row_verizon : prow :=
  mkProw "Verizon iPhone 12" (num_of_Z 400)
    (buildSearchBlob "Verizon iPhone 12" "Phones").

Definition rows_infinite : list prow :=
  prepareIndex "Phones" [mkDrow "Galaxy S22" "Galaxy S22" PInf].

(** A rule that takes something off: a finite percentage and a finite
    flat amount, neither negative (an unset field counts as 0). *)
Definition takes_off (r : rule) : Prop :=
  exists a b : Q,
    or_zero (pct r) = Fin a /\ or_zero (flat r) = Fin b
    /\ (0 <= a)%Q /\ (0 <= b)%Q.

(** The host gives a plain object no inherited property under the
    three names of the configuration. *)
Definition plain_config_names (HostProp : jsval -> string -> jsval) : Prop :=
  forall o k, In k ["defaults"; "perSheet"; "buckets"]%string ->
              HostProp (JObj o) k = JUndef.

(** A bucket entry [[label, lo, Infinity]] as the page holds it, and
    the entry [[label, lo, null]] as a remote document writes it. *)
Definition open_entry (e : string * Q) : jsval :=
  JArr [JStr e.1; JNum (Fin e.2); JNum PInf].

Definition remote_entry (e : string * Q) : jsval :=
  JArr [JStr e.1; JNum (Fin e.2); JNull].

(** A stand-in for [Number] of a string that knows the one word
    [Infinity]. *)
Definition inf_number (s : string) : num :=
  if String.eqb s "Infinity" then PInf else NaN.

(** A value that [JSON.stringify] and [JSON.parse] hand back as it
    was: no [undefined], no function, no number that is not finite. *)
Fixpoint json_clean (v : jsval) : bool :=
  match v with
  | JUndef | JFun _ => false
  | JNum (Fin _) => true
  | JNum _ => false
  | JArr l => forallb json_clean l
  | JObj o => forallb (fun kv => json_clean kv.2) o
  | _ => true
  end.

(** The compiled-in buckets as they are read back from the store. *)
Definition closed_buckets : list bucket :=
  [ mkBucket "1-100" (num_of_Z 1) (num_of_Z 100);
    mkBucket "101-220" (num_of_Z 101) (num_of_Z 220);
    mkBucket "221-300" (num_of_Z 221) (num_of_Z 300);
    mkBucket "301-469" (num_of_Z 301) (num_of_Z 469);
    mkBucket "470+" (num_of_Z 470) (num_of_Z 0) ].

(** A bucket with no upper bound. *)
Definition open_bucket (e : string * Q) : bucket := mkBucket e.1 (Fin e.2) PInf.

(** A field of the configuration that the store keeps as it is. *)
Definition kept_in_store (v : jsval) : bool := json_clean v && negb (nullish v).

(** The length of the run of [p]-characters that [s] begins with. *)
Fixpoint run_length (p : ascii -> bool) (s : list ascii) : nat :=
  match s with
  | c :: s' => if p c then S (run_length p s') else 0
  | [] => 0
  end.

(** Every maximal run of [p]-characters replaced by [by_]; [inrun]
    tells that the run at the head has been replaced already. *)
Fixpoint collapse (p : ascii -> bool) (by_ : list ascii) (inrun : bool)
    (s : list ascii) : list ascii :=
  match s with
  | [] => []
  | c :: s' =>
      if p c then
        if inrun then collapse p by_ true s' else by_ ++ collapse p by_ true s'
      else c :: collapse p by_ false s'
  end.

(** No two spaces side by side. *)
Fixpoint no_double_space (l : list ascii) : bool :=
  match l with
  | c :: l' =>
      match l' with
      | d :: _ => negb (Ascii.eqb c " " && Ascii.eqb d " ") && no_double_space l'
      | [] => true
      end
  | [] => true
  end.

Definition starts_with_space (l : list ascii) : bool :=
  match l with c :: _ => Ascii.eqb c " " | [] => false end.

(** The normalised name without its brand words, as [buildSearchBlob]
    computes it. *)
Definition brandless (name : string) : string :=
  trim (replaceAll re_spaces " " (replaceAll re_brand EmptyString (normText name))).

(** The name that [prepareIndex] indexes: [r.display || r.device]. *)
Definition indexed_name (r : drow) : string :=
  if nonempty (d_display r) then d_display r else d_device r.

(** A score is a double or [-Infinity]. *)
Definition well_scored (s : num) : Prop :=
  s = NInf \/ exists x, s = Fin x /\ is_double x = true.

(** Two scores that are the same number. *)
Definition same_score (a b : num) : Prop :=
  match a, b with
  | Fin x, Fin y => (x == y)%Q
  | NInf, NInf => True
  | _, _ => False
  end.

(** The order of the result list: a higher score first, and among
    equal scores the earlier row of the catalog first. *)
Definition ranked_before (a b : hit) : Prop :=
  num_ltb (sc b) (sc a) = true
  \/ (same_score (sc a) (sc b) /\ idx a < idx b).

(** An array of the page has fewer than [2^32] elements; so have the
    token lists of a query and of a row. *)
Definition array_sized {A} (l : list A) : Prop :=
  (Z.of_nat (List.length l) < 2 ^ 32)%Z.

(** The name a row is listed under: [String(r.device||r.display)] on a
    prepared row, which has no [display]. *)
Definition shown_name (r : prow) : string :=
  if nonempty (device r) then device r else "undefined".

(** The catalog in its own order, rows with a [NaN] price left out. *)
Fixpoint listing (shown_price : prow -> jsval) (i : nat) (rows : list prow)
    : list hit :=
  match rows with
  | [] => []
  | r :: rest =>
      if isNaN (price r) then listing shown_price (S i) rest
      else mkHit i (shown_name r) (shown_price r) (num_of_Z 0)
           :: listing shown_price (S i) rest
  end.


(** [s.rstrip()] on characters. *)
Definition py_rstrip (l : list ascii) : list ascii := rev (py_lstrip (rev l)).

(** The compiled-in buckets as a fresh page reads them. *)
Definition default_buckets : list bucket :=
  [ mkBucket "1-100" (num_of_Z 1) (num_of_Z 100);
    mkBucket "101-220" (num_of_Z 101) (num_of_Z 220);
    mkBucket "221-300" (num_of_Z 221) (num_of_Z 300);
    mkBucket "301-469" (num_of_Z 301) (num_of_Z 469);
    mkBucket "470+" (num_of_Z 470) PInf ].

(** Two rows of a sheet of phones, and a remote configuration that
    names one bucket with no upper bound. *)
Definition two_phones : list drow :=
  [ mkDrow "iPhone 14 Pro 256GB" "iPhone 14 Pro 256GB" (num_of_Z 500);
    mkDrow "iPhone 15 Pro 256GB" "iPhone 15 Pro 256GB" (num_of_Z 700) ].

Definition remote_one_bucket : jsval :=
  JObj [ ("buckets", JArr [remote_entry ("all", 1%Q)]) ].

(** What [render] lists for the query [15 pro 256] on the two phones. *)
Definition two_phones_ranked : list hit :=
  [ mkHit 1 "iPhone 15 Pro 256GB" (JNum (num_of_Z 630)) (Fin (455 # 4));
    mkHit 0 "iPhone 14 Pro 256GB" (JNum (num_of_Z 450)) (Fin (159 # 4)) ].

(** ** Vocabulary of the rounding proofs *)

(** The rounded value before it is reduced and tested for overflow. *)
Definition rnd_val (q : Q) : Q :=
  (inject_Z (rne (q / pow2 (ulp_exp q))) * pow2 (ulp_exp q))%Q.

(** [f] is a multiple of [2^c]. *)
Definition on_grid (c : Z) (f : Q) : Prop :=
  exists j : Z, (f == inject_Z j * pow2 c)%Q.




(** The factor [1 - 10/100] as the page computes it: the double next
    to nine tenths. *)
Definition point_nine : num :=
  num_sub (num_of_Z 1) (num_div (num_of_Z 10) (num_of_Z 100)).

(** * Properties *)

(** ** binary64 rounding *)

Local Open Scope Z_scope.

Lemma pow2_pos (e : Z) : (0 < pow2 e)%Q.
Proof. apply Qpower_0_lt. reflexivity. Qed.

Lemma pow2_plus (a b : Z) : (pow2 (a + b) == pow2 a * pow2 b)%Q.
Proof. apply Qpower_plus. discriminate. Qed.

Lemma pow2_minus (a b : Z) : (pow2 (a - b) == pow2 a / pow2 b)%Q.
Proof. apply Qpower_minus. discriminate. Qed.

Lemma pow2_le (a b : Z) : a <= b -> (pow2 a <= pow2 b)%Q.
Proof. intros H. apply Qpower_le_compat_l; [exact H|discriminate]. Qed.

Lemma pow2_lt (a b : Z) : a < b -> (pow2 a < pow2 b)%Q.
Proof. intros H. apply Qpower_lt_compat_l; [exact H|reflexivity]. Qed.

Lemma pow2_lt_inv (a b : Z) : (pow2 a < pow2 b)%Q -> a < b.
Proof. intros H. apply (Qpower_lt_compat_l_inv 2); [exact H|reflexivity]. Qed.

Lemma pow2_le_inv (a b : Z) : (pow2 a <= pow2 b)%Q -> a <= b.
Proof. intros H. apply (Qpower_le_compat_l_inv 2); [exact H|reflexivity]. Qed.

Lemma pow2_nonneg (e : Z) : 0 <= e -> (pow2 e == inject_Z (2 ^ e))%Q.
Proof. intros H. unfold pow2. rewrite Zpower_Qpower by exact H. reflexivity. Qed.

Lemma pow2_succ (e : Z) : (pow2 (e + 1) == 2 * pow2 e)%Q.
Proof. rewrite pow2_plus. change (pow2 1) with 2%Q. ring. Qed.

Lemma pow2_pred (e : Z) : (pow2 (e - 1) == pow2 e / 2)%Q.
Proof. rewrite pow2_minus. change (pow2 1) with 2%Q. reflexivity. Qed.

(** [ilog2 q] is the exponent of the binade of [q]. *)
Lemma ilog2_spec (q : Q) :
  (0 < q)%Q -> (pow2 (ilog2 q) <= q < pow2 (ilog2 q + 1))%Q.
Proof.
  intros Hq. destruct q as [n d]. unfold ilog2. cbn [Qnum Qden].
  assert (Hn : 0 < n) by (unfold Qlt in Hq; cbn in Hq; lia).
  pose proof (Z.log2_spec n Hn) as [Hn1 Hn2].
  pose proof (Z.log2_spec (Zpos d) (Pos2Z.is_pos d)) as [Hd1 Hd2].
  pose proof (Z.log2_nonneg n) as Ln. pose proof (Z.log2_nonneg (Zpos d)) as Ld.
  set (ln := Z.log2 n) in *. set (ld := Z.log2 (Zpos d)) in *.
  rewrite <- Z.add_1_r in Hn2, Hd2.
  assert (A1 : (pow2 ln <= inject_Z n)%Q)
    by (rewrite pow2_nonneg by lia; rewrite <- Zle_Qle; exact Hn1).
  assert (A2 : (inject_Z n < pow2 (ln + 1))%Q)
    by (rewrite pow2_nonneg by lia; rewrite <- Zlt_Qlt; exact Hn2).
  assert (B1 : (pow2 ld <= inject_Z (Zpos d))%Q)
    by (rewrite pow2_nonneg by lia; rewrite <- Zle_Qle; exact Hd1).
  assert (B2 : (inject_Z (Zpos d) < pow2 (ld + 1))%Q)
    by (rewrite pow2_nonneg by lia; rewrite <- Zlt_Qlt; exact Hd2).
  rewrite pow2_succ in A2, B2.
  assert (E : (n # d == inject_Z n / inject_Z (Zpos d))%Q) by apply Qmake_Qdiv.
  pose proof (pow2_pos ln) as Pn. pose proof (pow2_pos ld) as Pd.
  assert (Dpos : (0 < inject_Z (Zpos d))%Q) by (rewrite <- (Zlt_Qlt 0); lia).
  set (N := inject_Z n) in *. set (D := inject_Z (Zpos d)) in *.
  set (R := (pow2 ln / pow2 ld)%Q).
  assert (HR : (R * pow2 ld == pow2 ln)%Q) by (unfold R; field; lra).
  assert (Rpos : (0 < R)%Q) by (unfold R; apply Qlt_shift_div_l; lra).
  assert (Up : (n # d < pow2 (ln - ld + 1))%Q).
  { rewrite E, pow2_succ, pow2_minus. fold R.
    apply Qlt_shift_div_r; [exact Dpos|].
    assert (0 <= R * (D - pow2 ld))%Q by (apply Qmult_le_0_compat; lra).
    lra. }
  assert (Lo : (pow2 (ln - ld - 1) < n # d)%Q).
  { rewrite E, pow2_pred, pow2_minus. fold R.
    apply Qlt_shift_div_l; [exact Dpos|].
    assert (0 < R * (2 * pow2 ld - D))%Q by (apply Qmult_lt_0_compat; lra).
    assert (X : (R / 2 * D == (R * D) / 2)%Q) by (field).
    rewrite X. apply Qlt_shift_div_r; [reflexivity|]. lra. }
  destruct (Qle_bool (pow2 (ln - ld)) (n # d)) eqn:C.
  - apply Qle_bool_iff in C. split; assumption.
  - assert (~ (pow2 (ln - ld) <= n # d)%Q) as C'
      by (intros X; apply Qle_bool_iff in X; congruence).
    replace (ln - ld - 1 + 1) with (ln - ld) by lia.
    split; [apply Qlt_le_weak, Lo|]. apply Qnot_le_lt, C'.
Qed.

Lemma ilog2_lt (q : Q) (n : Z) : (0 < q)%Q -> (q < pow2 n)%Q -> ilog2 q < n.
Proof.
  intros Hq H. destruct (ilog2_spec q Hq) as [L _].
  apply pow2_lt_inv. lra.
Qed.

Lemma ilog2_ge (q : Q) (n : Z) : (0 < q)%Q -> (pow2 n <= q)%Q -> n <= ilog2 q.
Proof.
  intros Hq H. destruct (ilog2_spec q Hq) as [_ U].
  assert (n < ilog2 q + 1) by (apply pow2_lt_inv; lra). lia.
Qed.

(** ** Rounding to an integer, ties to even *)

Lemma rne_cases (m : Q) :
  (rne m = Qfloor m /\ (m - inject_Z (Qfloor m) <= 1 # 2)%Q)
  \/ (rne m = Qfloor m + 1 /\ (1 # 2 <= m - inject_Z (Qfloor m))%Q).
Proof.
  unfold rne. destruct (Qcompare_spec (m - inject_Z (Qfloor m)) (1 # 2)) as [E|L|G].
  - destruct (Z.even (Qfloor m)); [left|right]; split; auto; rewrite E; apply Qle_refl.
  - left. split; [reflexivity|apply Qlt_le_weak, L].
  - right. split; [reflexivity|apply Qlt_le_weak, G].
Qed.

Lemma Qfloor_bounds (m : Q) :
  (inject_Z (Qfloor m) <= m < inject_Z (Qfloor m) + 1)%Q.
Proof.
  pose proof (Qfloor_le m). pose proof (Qlt_floor m) as H1.
  rewrite inject_Z_plus in H1. change (inject_Z 1) with 1%Q in H1. split; lra.
Qed.

Lemma rne_error (m : Q) :
  (m - (1 # 2) <= inject_Z (rne m) <= m + (1 # 2))%Q.
Proof.
  pose proof (Qfloor_bounds m) as [F1 F2].
  destruct (rne_cases m) as [[-> H]|[-> H]].
  - split; lra.
  - rewrite inject_Z_plus. change (inject_Z 1) with 1%Q. split; lra.
Qed.

Lemma rne_ge (a : Z) (m : Q) : (inject_Z a <= m)%Q -> a <= rne m.
Proof.
  intros H. assert (a <= Qfloor m).
  { change a with (Qfloor (inject_Z a)) at 1 || rewrite <- (Qfloor_Z a).
    apply Qfloor_resp_le, H. }
  destruct (rne_cases m) as [[-> _]|[-> _]]; lia.
Qed.

Lemma rne_le (a : Z) (m : Q) : (m <= inject_Z a)%Q -> rne m <= a.
Proof.
  intros H. pose proof (Qfloor_bounds m) as [F1 F2].
  destruct (rne_cases m) as [[-> _]|[-> G]].
  - rewrite Zle_Qle. lra.
  - assert (inject_Z (Qfloor m) < inject_Z a)%Q by lra.
    rewrite <- Zlt_Qlt in H0. lia.
Qed.

Lemma rne_int (z : Z) : rne (inject_Z z) = z.
Proof.
  apply Z.le_antisymm; [apply rne_le|apply rne_ge]; apply Qle_refl.
Qed.

Lemma rne_comp (a b : Q) : (a == b)%Q -> rne a = rne b.
Proof.
  intros E. unfold rne. rewrite (Qfloor_comp a b E).
  assert (X : ((a - inject_Z (Qfloor b) ?= 1 # 2) = (b - inject_Z (Qfloor b) ?= 1 # 2))%Q)
    by (rewrite E; reflexivity).
  rewrite X. reflexivity.
Qed.

(** ** Rounding to binary64 *)

Lemma round64_zero (q : Q) : (q == 0)%Q -> round64 q = Fin 0.
Proof.
  intros H. unfold round64. apply Qeq_bool_iff in H. rewrite H. reflexivity.
Qed.

Lemma round64_finite (q : Q) :
  ~ (q == 0)%Q -> (Qabs (rnd_val q) < pow2 1024)%Q ->
  round64 q = Fin (Qred (rnd_val q)).
Proof.
  intros H0 Hb. unfold round64.
  destruct (Qeq_bool q 0) eqn:E; [apply Qeq_bool_iff in E; contradiction|].
  cbv zeta. fold (rnd_val q).
  destruct (Qle_bool (pow2 1024) (Qabs (Qred (rnd_val q)))) eqn:L; [|reflexivity].
  apply Qle_bool_iff in L. rewrite Qred_correct in L. lra.
Qed.

Lemma round64_overflow (q : Q) :
  ~ (q == 0)%Q -> (pow2 1024 <= Qabs (rnd_val q))%Q ->
  round64 q = if Qle_bool 0 q then PInf else NInf.
Proof.
  intros H0 Hb. unfold round64.
  destruct (Qeq_bool q 0) eqn:E; [apply Qeq_bool_iff in E; contradiction|].
  cbv zeta. fold (rnd_val q).
  destruct (Qle_bool (pow2 1024) (Qabs (Qred (rnd_val q)))) eqn:L; [reflexivity|].
  assert (~ (pow2 1024 <= Qabs (Qred (rnd_val q)))%Q) as N
    by (intros X; apply Qle_bool_iff in X; congruence).
  rewrite Qred_correct in N. contradiction.
Qed.

Lemma rnd_val_error (q : Q) :
  (Qabs (rnd_val q - q) <= pow2 (ulp_exp q) / 2)%Q.
Proof.
  unfold rnd_val. set (c := ulp_exp q). pose proof (pow2_pos c) as Pc.
  pose proof (rne_error (q / pow2 c)) as [E1 E2].
  set (z := inject_Z (rne (q / pow2 c))) in *.
  assert (X : (q == q / pow2 c * pow2 c)%Q) by (field; lra).
  set (m := (q / pow2 c)%Q) in *.
  assert (A : (0 <= (z - (m - (1 # 2))) * pow2 c)%Q)
    by (apply Qmult_le_0_compat; lra).
  assert (B : (0 <= (m + (1 # 2) - z) * pow2 c)%Q)
    by (apply Qmult_le_0_compat; lra).
  assert (Y : (pow2 c / 2 == (1 # 2) * pow2 c)%Q) by field.
  apply Qabs_Qle_condition. rewrite Y, X. split; lra.
Qed.

Lemma rnd_val_ge (q f : Q) :
  on_grid (ulp_exp q) f -> (f <= q)%Q -> (f <= rnd_val q)%Q.
Proof.
  intros [j Hj] H. unfold rnd_val. set (c := ulp_exp q) in *.
  pose proof (pow2_pos c) as Pc. rewrite Hj.
  apply Qmult_le_compat_r; [|lra]. rewrite <- Zle_Qle. apply rne_ge.
  apply Qle_shift_div_l; [exact Pc|]. rewrite <- Hj. exact H.
Qed.

Lemma rnd_val_le (q f : Q) :
  on_grid (ulp_exp q) f -> (q <= f)%Q -> (rnd_val q <= f)%Q.
Proof.
  intros [j Hj] H. unfold rnd_val. set (c := ulp_exp q) in *.
  pose proof (pow2_pos c) as Pc. rewrite Hj.
  apply Qmult_le_compat_r; [|lra]. rewrite <- Zle_Qle. apply rne_le.
  apply Qle_shift_div_r; [exact Pc|]. rewrite <- Hj. exact H.
Qed.

Lemma rnd_val_exact (q : Q) : on_grid (ulp_exp q) q -> (rnd_val q == q)%Q.
Proof.
  intros H. apply Qle_antisym; [apply rnd_val_le|apply rnd_val_ge];
    (exact H || apply Qle_refl).
Qed.

Lemma on_grid_finer (c c' : Z) (f : Q) : c' <= c -> on_grid c f -> on_grid c' f.
Proof.
  intros Hc [j Hj]. exists (j * 2 ^ (c - c')).
  rewrite Hj, inject_Z_mult, <- pow2_nonneg by lia.
  rewrite <- Qmult_assoc, <- pow2_plus.
  replace (c - c' + c') with c by lia. reflexivity.
Qed.

Lemma on_grid_int (c z : Z) : c <= 0 -> on_grid c (inject_Z z).
Proof.
  intros Hc. apply (on_grid_finer 0); [exact Hc|]. exists z.
  change (pow2 0) with 1%Q. ring.
Qed.

Lemma Qabs_nonzero_pos (q : Q) : ~ (q == 0)%Q -> (0 < Qabs q)%Q.
Proof.
  intros H. pose proof (Qabs_nonneg q) as N.
  destruct (Qlt_le_dec 0 (Qabs q)) as [L|L]; [exact L|].
  exfalso. apply H. 
  assert (E : (Qabs q == 0)%Q) by (apply Qle_antisym; assumption).
  destruct (Qabs_Qle_condition q 0) as [C _].
  destruct C as [C1 C2]; [rewrite E; apply Qle_refl|].
  apply Qle_antisym; [exact C2|]. change (- 0)%Q with 0%Q in C1. exact C1.
Qed.

Lemma ulp_exp_le (q : Q) (n : Z) :
  ~ (q == 0)%Q -> -1021 <= n -> (Qabs q < pow2 n)%Q -> ulp_exp q <= n - 53.
Proof.
  intros H0 Hn H. unfold ulp_exp.
  pose proof (ilog2_lt _ _ (Qabs_nonzero_pos q H0) H). lia.
Qed.

Lemma ulp_exp_ge (q : Q) (n : Z) :
  ~ (q == 0)%Q -> (pow2 n <= Qabs q)%Q -> n - 52 <= ulp_exp q.
Proof.
  intros H0 H. unfold ulp_exp.
  pose proof (ilog2_ge _ _ (Qabs_nonzero_pos q H0) H). lia.
Qed.

Lemma ulp_exp_min (q : Q) : -1074 <= ulp_exp q.
Proof. unfold ulp_exp. lia. Qed.

Lemma Qred_inject_Z (z : Z) : Qred (inject_Z z) = inject_Z z.
Proof.
  unfold inject_Z, Qred.
  pose proof (Z.ggcd_gcd z 1) as G. pose proof (Z.ggcd_correct_divisors z 1) as D.
  destruct (Z.ggcd z 1) as [g [aa bb]]. cbn [fst snd] in *.
  rewrite Z.gcd_1_r in G. subst g. destruct D as [D1 D2].
  rewrite Z.mul_1_l in D1, D2. subst aa bb. reflexivity.
Qed.

(** A multiple of [2^c] within 53 bits of it is held exactly. *)
Lemma round64_exact (q : Q) (c : Z) :
  on_grid c q -> -1074 <= c -> c + 53 <= 1024 -> (Qabs q < pow2 (c + 53))%Q ->
  round64 q = Fin (Qred q).
Proof.
  intros Hg Hc1 Hc2 Hb.
  destruct (Qeq_dec q 0) as [E|E].
  { rewrite (round64_zero q E). f_equal. symmetry.
    rewrite (Qred_complete q 0 E). reflexivity. }
  assert (Hu : ulp_exp q <= c).
  { pose proof (ulp_exp_le q (c + 53) E ltac:(lia) Hb). lia. }
  assert (Hx : (rnd_val q == q)%Q)
    by (apply rnd_val_exact, (on_grid_finer c); assumption).
  rewrite round64_finite; [f_equal; apply Qred_complete, Hx|exact E|].
  rewrite Hx. eapply Qlt_le_trans; [exact Hb|]. apply pow2_le. lia.
Qed.

Lemma Qabs_inject_Z_lt (z b : Z) :
  Z.abs z < b -> (Qabs (inject_Z z) < inject_Z b)%Q.
Proof.
  intros H. apply Qabs_case; intros _; [|rewrite <- inject_Z_opp];
    rewrite <- Zlt_Qlt; lia.
Qed.

(** Whole numbers below [2^53] are held exactly. *)
Lemma round64_int (z : Z) :
  Z.abs z < 2 ^ 53 -> round64 (inject_Z z) = Fin (inject_Z z).
Proof.
  intros H. rewrite <- (Qred_inject_Z z) at 2.
  apply (round64_exact _ 0); [apply on_grid_int; lia|lia|lia|].
  change (0 + 53) with 53. rewrite pow2_nonneg by lia.
  apply Qabs_inject_Z_lt, H.
Qed.

Lemma ilog2_unique (q : Q) (e : Z) :
  (pow2 e <= q < pow2 (e + 1))%Q -> ilog2 q = e.
Proof.
  intros [L U]. pose proof (pow2_pos e) as P.
  assert (Hq : (0 < q)%Q) by lra.
  pose proof (ilog2_lt q (e + 1) Hq U). pose proof (ilog2_ge q e Hq L). lia.
Qed.

Lemma ilog2_comp (a b : Q) : (0 < a)%Q -> (a == b)%Q -> ilog2 a = ilog2 b.
Proof.
  intros Ha E. apply ilog2_unique. rewrite E. apply ilog2_spec. rewrite <- E. exact Ha.
Qed.

Lemma ulp_exp_comp (a b : Q) : ~ (a == 0)%Q -> (a == b)%Q -> ulp_exp a = ulp_exp b.
Proof.
  intros Ha E. unfold ulp_exp. f_equal. f_equal.
  apply ilog2_comp; [apply Qabs_nonzero_pos, Ha|rewrite E; reflexivity].
Qed.

Lemma rnd_val_comp (a b : Q) : ~ (a == 0)%Q -> (a == b)%Q -> (rnd_val a == rnd_val b)%Q.
Proof.
  intros Ha E. unfold rnd_val. rewrite (ulp_exp_comp a b Ha E).
  rewrite (rne_comp (a / pow2 (ulp_exp b)) (b / pow2 (ulp_exp b)))
    by (rewrite E; reflexivity).
  reflexivity.
Qed.

(** Rounding depends on the value only. *)
Lemma round64_comp (a b : Q) : (a == b)%Q -> round64 a = round64 b.
Proof.
  intros E. destruct (Qeq_dec a 0) as [Z0|N0].
  { rewrite (round64_zero a Z0), (round64_zero b); [reflexivity|].
    rewrite <- E. exact Z0. }
  assert (N0' : ~ (b == 0)%Q) by (rewrite <- E; exact N0).
  pose proof (rnd_val_comp a b N0 E) as V.
  destruct (Qlt_le_dec (Qabs (rnd_val a)) (pow2 1024)) as [L|L].
  - rewrite (round64_finite a N0 L), (round64_finite b N0') by (rewrite <- V; exact L).
    f_equal. apply Qred_complete, V.
  - rewrite (round64_overflow a N0 L), (round64_overflow b N0') by (rewrite <- V; exact L).
    destruct (Qle_bool 0 a) eqn:A, (Qle_bool 0 b) eqn:B; try reflexivity.
    + apply Qle_bool_iff in A. rewrite E in A. apply Qle_bool_iff in A. congruence.
    + apply Qle_bool_iff in B. rewrite <- E in B. apply Qle_bool_iff in B. congruence.
Qed.

(** *** Whole numbers *)

Lemma num_ltb_Z (a b : Z) : num_ltb (num_of_Z a) (num_of_Z b) = (a <? b).
Proof.
  cbn [num_of_Z num_ltb]. destruct (Z.ltb_spec a b) as [H|H].
  - apply negb_true_iff. destruct (Qle_bool (inject_Z b) (inject_Z a)) eqn:E;
      [|reflexivity].
    apply Qle_bool_iff in E. rewrite <- Zle_Qle in E. lia.
  - apply negb_false_iff, Qle_bool_iff. rewrite <- Zle_Qle. exact H.
Qed.

Lemma num_leb_Z (a b : Z) : num_leb (num_of_Z a) (num_of_Z b) = (a <=? b).
Proof.
  cbn [num_of_Z num_leb]. destruct (Z.leb_spec a b) as [H|H].
  - apply Qle_bool_iff. rewrite <- Zle_Qle. exact H.
  - destruct (Qle_bool (inject_Z a) (inject_Z b)) eqn:E; [|reflexivity].
    apply Qle_bool_iff in E. rewrite <- Zle_Qle in E. lia.
Qed.

Lemma num_eqb_Z (a b : Z) : num_eqb (num_of_Z a) (num_of_Z b) = (a =? b).
Proof.
  cbn [num_of_Z num_eqb]. destruct (Z.eqb_spec a b) as [->|H].
  - apply Qeq_bool_iff. reflexivity.
  - destruct (Qeq_bool (inject_Z a) (inject_Z b)) eqn:E; [|reflexivity].
    apply Qeq_bool_iff in E. apply (proj1 (inject_Z_injective a b)) in E.
    exfalso. exact (H E).
Qed.

Lemma num_add_Z (a b : Z) :
  Z.abs (a + b) < 2 ^ 53 -> num_add (num_of_Z a) (num_of_Z b) = num_of_Z (a + b).
Proof.
  intros H. cbn [num_of_Z num_add].
  rewrite (round64_comp _ (inject_Z (a + b))) by (rewrite inject_Z_plus; reflexivity).
  apply round64_int, H.
Qed.

Lemma num_sub_Z (a b : Z) :
  Z.abs (a - b) < 2 ^ 53 -> num_sub (num_of_Z a) (num_of_Z b) = num_of_Z (a - b).
Proof.
  intros H. cbn [num_of_Z num_sub].
  rewrite (round64_comp _ (inject_Z (a - b)))
    by (unfold Z.sub; rewrite inject_Z_plus, inject_Z_opp; reflexivity).
  apply round64_int, H.
Qed.

Lemma num_mul_Z (a b : Z) :
  Z.abs (a * b) < 2 ^ 53 -> num_mul (num_of_Z a) (num_of_Z b) = num_of_Z (a * b).
Proof.
  intros H. cbn [num_of_Z num_mul].
  rewrite (round64_comp _ (inject_Z (a * b))) by (rewrite inject_Z_mult; reflexivity).
  apply round64_int, H.
Qed.

Lemma Qtrunc_ratio (a b : Z) :
  b <> 0 -> Qtrunc (inject_Z a / inject_Z b) = Z.quot a b.
Proof.
  intros Hb. unfold Qtrunc.
  destruct b as [|b|b]; [contradiction| |].
  - cbn. rewrite Z.mul_1_r, Pos.mul_1_l. reflexivity.
  - cbn. rewrite Pos.mul_1_l.
    change (Z.neg b) with (- Z.pos b). rewrite Z.quot_opp_r by discriminate.
    replace (a * -1) with (- a) by lia. rewrite Z.quot_opp_l by discriminate.
    reflexivity.
Qed.

Lemma num_rem_Z (a b : Z) :
  b <> 0 -> num_rem (num_of_Z a) (num_of_Z b) = num_of_Z (Z.rem a b).
Proof.
  intros Hb. unfold num_of_Z. cbn [num_rem].
  destruct (Qeq_bool (inject_Z b) 0) eqn:E.
  { apply Qeq_bool_iff in E. change 0%Q with (inject_Z 0) in E.
    apply (proj1 (inject_Z_injective b 0)) in E. exfalso. exact (Hb E). }
  rewrite Qtrunc_ratio by exact Hb.
  rewrite <- (Qred_inject_Z (Z.rem a b)). f_equal. apply Qred_complete.
  unfold Qminus. rewrite <- inject_Z_mult, <- inject_Z_opp, <- inject_Z_plus.
  apply inject_Z_injective. pose proof (Z.quot_rem' a b). lia.
Qed.

(** *** Numbers that binary64 holds *)

Lemma is_double_grid (x : Q) :
  is_double x = true -> ~ (x == 0)%Q -> on_grid (ulp_exp x) x.
Proof.
  unfold is_double, round64. intros H N.
  destruct (Qeq_bool x 0) eqn:E; [apply Qeq_bool_iff in E; contradiction|].
  cbv zeta in H. fold (rnd_val x) in H.
  destruct (Qle_bool (pow2 1024) (Qabs (Qred (rnd_val x)))).
  { destruct (Qle_bool 0 x); discriminate H. }
  apply Qeq_bool_iff in H. rewrite Qred_correct in H.
  exists (rne (x / pow2 (ulp_exp x))). symmetry. exact H.
Qed.

Lemma is_double_int (z : Z) : Z.abs z < 2 ^ 53 -> is_double (inject_Z z) = true.
Proof.
  intros H. unfold is_double. rewrite (round64_int z H).
  apply Qeq_bool_iff. reflexivity.
Qed.

(** Two different multiples of [2^c] are [2^c] apart or more. *)
Lemma grid_gap (c : Z) (f g : Q) :
  on_grid c f -> on_grid c g -> (f < g)%Q -> (f + pow2 c <= g)%Q.
Proof.
  intros [j Hj] [j' Hj'] H. pose proof (pow2_pos c) as P.
  rewrite Hj, Hj' in *.
  assert (L : j < j').
  { destruct (Z.lt_ge_cases j j') as [L|L]; [exact L|exfalso].
    rewrite Zle_Qle in L.
    assert (inject_Z j' * pow2 c <= inject_Z j * pow2 c)%Q
      by (apply Qmult_le_compat_r; lra).
    lra. }
  assert (L' : (inject_Z j + 1 <= inject_Z j')%Q).
  { change 1%Q with (inject_Z 1). rewrite <- inject_Z_plus, <- Zle_Qle. lia. }
  assert (0 <= (inject_Z j' - (inject_Z j + 1)) * pow2 c)%Q
    by (apply Qmult_le_0_compat; lra).
  lra.
Qed.

Lemma on_grid_half (c z : Z) : c <= -1 -> on_grid c (inject_Z z - (1 # 2)).
Proof.
  intros Hc. apply (on_grid_finer (-1)); [exact Hc|]. exists (2 * z - 1).
  change (pow2 (-1)) with (1 # 2)%Q.
  unfold Z.sub. rewrite inject_Z_plus, inject_Z_mult, inject_Z_opp.
  change (inject_Z 2) with 2%Q. change (inject_Z 1) with 1%Q. field.
Qed.

(** Rounding keeps the sign: the double of a rational that is at least
    0 is at least 0, or [+Infinity]. *)
Lemma round64_nonneg (q : Q) :
  (0 <= q)%Q -> round64 q = PInf \/ exists r, round64 q = Fin r /\ (0 <= r)%Q.
Proof.
  intros H. unfold round64.
  destruct (Qeq_bool q 0); [right; exists 0%Q; split; [reflexivity|apply Qle_refl]|].
  cbv zeta. fold (rnd_val q).
  destruct (Qle_bool (pow2 1024) (Qabs (Qred (rnd_val q)))).
  - apply Qle_bool_iff in H. rewrite H. left; reflexivity.
  - right. eexists; split; [reflexivity|]. rewrite Qred_correct.
    apply rnd_val_ge; [|exact H]. exists 0. ring.
Qed.


Lemma abs_below_top (q : Q) :
  ~ (q == 0)%Q -> (Qabs q < pow2 (ulp_exp q + 53))%Q.
Proof.
  intros N. pose proof (Qabs_nonzero_pos q N) as P.
  destruct (ilog2_spec (Qabs q) P) as [_ U].
  eapply Qlt_le_trans; [exact U|]. apply pow2_le. unfold ulp_exp. lia.
Qed.

Lemma on_grid_pow2 (c e : Z) : c <= e -> on_grid c (pow2 e).
Proof.
  intros H. exists (2 ^ (e - c)). rewrite <- pow2_nonneg by lia.
  rewrite <- pow2_plus. replace (e - c + c) with e by lia. reflexivity.
Qed.

Lemma on_grid_opp (c : Z) (f : Q) : on_grid c f -> on_grid c (- f).
Proof. intros [j Hj]. exists (- j). rewrite Hj, inject_Z_opp. ring. Qed.

Lemma on_grid_rnd_val (q : Q) : on_grid (ulp_exp q) (rnd_val q).
Proof. exists (rne (q / pow2 (ulp_exp q))). reflexivity. Qed.

Lemma rnd_val_bound (q : Q) :
  ~ (q == 0)%Q -> (Qabs (rnd_val q) <= pow2 (ulp_exp q + 53))%Q.
Proof.
  intros N. pose proof (abs_below_top q N) as B.
  set (c := ulp_exp q) in *.
  assert (G : on_grid c (pow2 (c + 53))) by (apply on_grid_pow2; lia).
  apply Qabs_Qle_condition. split.
  - apply rnd_val_ge; [apply on_grid_opp, G|].
    apply Qabs_Qlt_condition in B. lra.
  - apply rnd_val_le; [exact G|]. apply Qabs_Qlt_condition in B. lra.
Qed.

(** A result of [round64] is a double: rounding it again changes
    nothing. *)
Lemma round64_idem (q r : Q) : round64 q = Fin r -> round64 r = Fin r.
Proof.
  intros H. destruct (Qeq_dec q 0) as [Z0|N0].
  { rewrite (round64_zero q Z0) in H. injection H as <-. reflexivity. }
  unfold round64 in H.
  destruct (Qeq_bool q 0) eqn:E; [apply Qeq_bool_iff in E; contradiction|].
  cbv zeta in H. fold (rnd_val q) in H.
  destruct (Qle_bool (pow2 1024) (Qabs (Qred (rnd_val q)))) eqn:O;
    [destruct (Qle_bool 0 q); discriminate H|].
  injection H as <-.
  assert (Hv : (Qabs (rnd_val q) < pow2 1024)%Q).
  { destruct (Qlt_le_dec (Qabs (rnd_val q)) (pow2 1024)) as [L|L]; [exact L|].
    rewrite <- (Qred_correct (rnd_val q)) in L. apply Qle_bool_iff in L. congruence. }
  clear O E.
  pose proof (rnd_val_bound q N0) as B. pose proof (on_grid_rnd_val q) as G.
  pose proof (ulp_exp_min q) as M.
  set (c := ulp_exp q) in *. set (v := rnd_val q) in *.
  rewrite (round64_comp (Qred v) v) by apply Qred_correct.
  destruct (Qlt_le_dec (Qabs v) (pow2 (c + 53))) as [L|L].
  - apply (round64_exact v c G M); [|exact L].
    destruct (Z_le_gt_dec (c + 53) 1024) as [K|K]; [exact K|exfalso].
    assert (pow2 1024 <= pow2 (c + 52))%Q by (apply pow2_le; lia).
    assert (T : (pow2 (c + 52) <= Qabs q)%Q).
    { unfold c, ulp_exp in *.
      destruct (ilog2_spec (Qabs q) (Qabs_nonzero_pos q N0)) as [S1 _].
      eapply Qle_trans; [|exact S1]. apply pow2_le. lia. }
    assert (G2 : on_grid c (pow2 (c + 52))) by (apply on_grid_pow2; lia).
    assert (Qabs v >= pow2 (c + 52))%Q; [|lra].
    revert T. apply Qabs_case; intros Hq T.
    + assert (pow2 (c + 52) <= v)%Q by (apply rnd_val_ge; assumption).
      eapply Qle_trans; [eassumption|apply Qle_Qabs].
    + assert (v <= - pow2 (c + 52))%Q
        by (apply rnd_val_le; [apply on_grid_opp, G2|lra]).
      rewrite <- Qabs_opp. eapply Qle_trans; [|apply Qle_Qabs]. lra.
  - assert (Ev : (Qabs v == pow2 (c + 53))%Q) by (apply Qle_antisym; assumption).
    assert (K : c + 53 < 1024) by (apply pow2_lt_inv; rewrite <- Ev; exact Hv).
    apply (round64_exact v (c + 1)); [|lia|lia|].
    + assert (G3 : on_grid (c + 1) (pow2 (c + 53))) by (apply on_grid_pow2; lia).
      revert Ev. apply Qabs_case; intros _ Ev.
      * destruct G3 as [j Hj]. exists j. rewrite Ev. exact Hj.
      * apply on_grid_opp in G3. destruct G3 as [j Hj]. exists j.
        rewrite <- Hj, <- Ev. ring.
    + rewrite Ev. apply pow2_lt. lia.
Qed.

Lemma is_double_round64 (q r : Q) : round64 q = Fin r -> is_double r = true.
Proof.
  intros H. unfold is_double. rewrite (round64_idem q r H).
  apply Qeq_bool_iff. reflexivity.
Qed.

Lemma is_double_bound (f : Q) : is_double f = true -> (Qabs f < pow2 1024)%Q.
Proof.
  unfold is_double, round64.
  destruct (Qeq_bool f 0) eqn:E.
  { intros _. apply Qeq_bool_iff in E. rewrite E. apply pow2_pos. }
  cbv zeta. fold (rnd_val f).
  destruct (Qle_bool (pow2 1024) (Qabs (Qred (rnd_val f)))) eqn:O;
    [destruct (Qle_bool 0 f); discriminate|].
  intros H. apply Qeq_bool_iff in H. rewrite <- H.
  destruct (Qlt_le_dec (Qabs (Qred (rnd_val f))) (pow2 1024)) as [L|L]; [exact L|].
  apply Qle_bool_iff in L. congruence.
Qed.

(** Rounding does not pass a double: a rational at most a double [f]
    is rounded to a double at most [f], or to [-Infinity]. *)
Lemma rnd_val_le_double (y f : Q) :
  is_double f = true -> ~ (y == 0)%Q -> (y <= f)%Q -> (rnd_val y <= f)%Q.
Proof.
  intros Hf Ny Hle.
  destruct (Qeq_dec f 0) as [F0|F0].
  { apply rnd_val_le; [|exact Hle]. exists 0. rewrite F0. ring. }
  pose proof (is_double_grid f Hf F0) as Gf.
  destruct (Z_le_gt_dec (ulp_exp y) (ulp_exp f)) as [C|C].
  { apply rnd_val_le; [|exact Hle]. apply (on_grid_finer (ulp_exp f)); assumption. }
  pose proof (abs_below_top f F0) as Bf.
  assert (Ey : ulp_exp y + 52 = ilog2 (Qabs y)).
  { pose proof (ulp_exp_min f). unfold ulp_exp in *. lia. }
  destruct (ilog2_spec (Qabs y) (Qabs_nonzero_pos y Ny)) as [Ly _].
  rewrite <- Ey in Ly.
  assert (T : (pow2 (ulp_exp f + 53) <= pow2 (ulp_exp y + 52))%Q)
    by (apply pow2_le; lia).
  assert (G : on_grid (ulp_exp y) (pow2 (ulp_exp y + 52)))
    by (apply on_grid_pow2; lia).
  apply Qabs_Qlt_condition in Bf.
  revert Ly. apply Qabs_case; intros Hy Ly; [lra|].
  assert (rnd_val y <= - pow2 (ulp_exp y + 52))%Q
    by (apply rnd_val_le; [apply on_grid_opp, G|lra]).
  lra.
Qed.

Lemma round64_le_double (y f : Q) :
  is_double f = true -> (y <= f)%Q ->
  round64 y = NInf \/ exists r, round64 y = Fin r /\ (r <= f)%Q.
Proof.
  intros Hf Hle. destruct (Qeq_dec y 0) as [Y0|Ny].
  { right. exists 0%Q. split; [apply round64_zero, Y0|lra]. }
  pose proof (rnd_val_le_double y f Hf Ny Hle) as V.
  pose proof (is_double_bound f Hf) as Bf. apply Qabs_Qlt_condition in Bf.
  unfold round64.
  destruct (Qeq_bool y 0) eqn:E; [apply Qeq_bool_iff in E; contradiction|].
  cbv zeta. fold (rnd_val y).
  destruct (Qle_bool (pow2 1024) (Qabs (Qred (rnd_val y)))) eqn:O.
  - destruct (Qle_bool 0 y) eqn:P; [exfalso|left; reflexivity].
    apply Qle_bool_iff in P, O. rewrite Qred_correct in O.
    assert (0 <= rnd_val y)%Q by (apply rnd_val_ge; [exists 0; ring|exact P]).
    rewrite Qabs_pos in O by assumption. lra.
  - right. eexists; split; [reflexivity|]. rewrite Qred_correct. exact V.
Qed.

(** Every double is a multiple of the least one. *)
Lemma is_double_least_grid (f : Q) : is_double f = true -> on_grid (-1074) f.
Proof.
  intros H. destruct (Qeq_dec f 0) as [F0|F0].
  - exists 0. rewrite F0. ring.
  - apply (on_grid_finer (ulp_exp f)); [apply ulp_exp_min|].
    apply is_double_grid; assumption.
Qed.

Lemma ulp_below_abs (q : Q) :
  (pow2 (-1074) <= Qabs q)%Q -> (pow2 (ulp_exp q) <= Qabs q)%Q.
Proof.
  intros H. pose proof (pow2_pos (-1074)) as P.
  assert (Hq : (0 < Qabs q)%Q) by lra.
  destruct (ilog2_spec (Qabs q) Hq) as [L _].
  unfold ulp_exp.
  destruct (Z.max_spec (ilog2 (Qabs q)) (-1022)) as [[_ ->]|[_ ->]].
  - exact H.
  - eapply Qle_trans; [|exact L]. apply pow2_le. lia.
Qed.

(** A rational at least the least double is rounded to a double above
    0, or to [+Infinity]; likewise below 0. *)
Lemma round64_pos (q : Q) :
  (pow2 (-1074) <= q)%Q ->
  round64 q = PInf \/ exists r, round64 q = Fin r /\ (0 < r)%Q.
Proof.
  intros H. pose proof (pow2_pos (-1074)) as P.
  pose proof (pow2_pos (ulp_exp q)) as Pc.
  assert (A : (pow2 (ulp_exp q) <= q)%Q).
  { rewrite <- (Qabs_pos q) at 2 by lra. apply ulp_below_abs.
    rewrite Qabs_pos by lra. exact H. }
  assert (V : (pow2 (ulp_exp q) <= rnd_val q)%Q)
    by (apply rnd_val_ge; [apply on_grid_pow2; lia|exact A]).
  unfold round64.
  destruct (Qeq_bool q 0) eqn:E; [apply Qeq_bool_iff in E; lra|].
  cbv zeta. fold (rnd_val q).
  destruct (Qle_bool (pow2 1024) (Qabs (Qred (rnd_val q)))).
  - assert (Q0 : Qle_bool 0 q = true) by (apply Qle_bool_iff; lra).
    rewrite Q0. left; reflexivity.
  - right. eexists; split; [reflexivity|]. rewrite Qred_correct. lra.
Qed.

Lemma round64_neg (q : Q) :
  (q <= - pow2 (-1074))%Q ->
  round64 q = NInf \/ exists r, round64 q = Fin r /\ (r < 0)%Q.
Proof.
  intros H. pose proof (pow2_pos (-1074)) as P.
  pose proof (pow2_pos (ulp_exp q)) as Pc.
  assert (A : (q <= - pow2 (ulp_exp q))%Q).
  { assert (B : (pow2 (ulp_exp q) <= Qabs q)%Q).
    { apply ulp_below_abs. rewrite Qabs_neg by lra. lra. }
    rewrite Qabs_neg in B by lra. lra. }
  assert (V : (rnd_val q <= - pow2 (ulp_exp q))%Q)
    by (apply rnd_val_le; [apply on_grid_opp, on_grid_pow2; lia|exact A]).
  unfold round64.
  destruct (Qeq_bool q 0) eqn:E; [apply Qeq_bool_iff in E; lra|].
  cbv zeta. fold (rnd_val q).
  destruct (Qle_bool (pow2 1024) (Qabs (Qred (rnd_val q)))).
  - destruct (Qle_bool 0 q) eqn:Q0; [apply Qle_bool_iff in Q0; lra|].
    left; reflexivity.
  - right. eexists; split; [reflexivity|]. rewrite Qred_correct. lra.
Qed.

(** Two different doubles are at least the least double apart, so
    their difference is never rounded to 0. *)
Lemma double_gap (a b : Q) :
  is_double a = true -> is_double b = true -> (a < b)%Q ->
  (pow2 (-1074) <= b - a)%Q.
Proof.
  intros Ha Hb H.
  pose proof (grid_gap (-1074) a b (is_double_least_grid a Ha)
                (is_double_least_grid b Hb) H).
  lra.
Qed.

Local Close Scope Z_scope.


(** ** The rounding rule *)

Lemma Math_round_bounds (x : Q) :
  (inject_Z (Math_round x) - (1 # 2) <= x < inject_Z (Math_round x) + (1 # 2))%Q.
Proof.
  unfold Math_round.
  pose proof (Qfloor_le (x + (1 # 2))) as Hlo.
  pose proof (Qlt_floor (x + (1 # 2))) as Hhi.
  rewrite inject_Z_plus in Hhi.
  change (inject_Z 1) with 1%Q in Hhi.
  split; lra.
Qed.

Lemma Qfloor_unique (x : Q) (k : Z) :
  (inject_Z k <= x < inject_Z k + 1)%Q -> Qfloor x = k.
Proof.
  intros [Hlo Hhi].
  pose proof (Qfloor_le x) as Fl.
  pose proof (Qlt_floor x) as Fh.
  rewrite inject_Z_plus in Fh. change (inject_Z 1) with 1%Q in Fh.
  assert (A : (inject_Z k < inject_Z (Qfloor x + 1))%Q).
  { rewrite inject_Z_plus. change (inject_Z 1) with 1%Q. lra. }
  assert (B : (inject_Z (Qfloor x) < inject_Z (k + 1))%Q).
  { rewrite inject_Z_plus. change (inject_Z 1) with 1%Q. lra. }
  rewrite <- Zlt_Qlt in A, B. lia.
Qed.

Lemma Math_round_tens (k : Z) : Math_round (inject_Z (k * 10) / 10) = k.
Proof.
  unfold Math_round. apply Qfloor_unique.
  rewrite inject_Z_mult. change (inject_Z 10) with 10%Q.
  split; field_simplify; lra.
Qed.

Ltac zmod := Z.div_mod_to_equations; lia.

Lemma positive_modulo (p : Z) :
  (340 < p)%Z -> Z.rem (Z.rem p 100 + 100) 100 = (p mod 100)%Z.
Proof.
  intros Hp.
  rewrite (Z.rem_mod_nonneg p 100) by lia.
  pose proof (Z.mod_pos_bound p 100 ltac:(lia)) as Hb.
  rewrite Z.rem_mod_nonneg by lia.
  rewrite <- (Z.mod_small (p mod 100) 100) at 2 by lia.
  rewrite <- Z.add_mod_idemp_r by lia.
  rewrite Z.mod_same by lia. rewrite Z.add_0_r. reflexivity.
Qed.

(** Dividing a price by ten and rounding the quotient to binary64 does
    not change the whole number that [Math.round] sees. *)
Lemma round_tenth (x : Q) :
  is_double x = true -> (0 <= x)%Q -> (x < pow2 53)%Q ->
  exists y : Q,
    round64 (x / 10) = Fin y /\ Math_round y = Math_round (x / 10).
Proof.
  intros Hd H0 Hb.
  destruct (Qeq_dec x 0) as [Z0|N0].
  { exists 0%Q. split.
    - apply round64_zero. rewrite Z0. reflexivity.
    - unfold Math_round. apply Qfloor_comp. rewrite Z0. reflexivity. }
  assert (Hx : (0 < x)%Q).
  { destruct (Qlt_le_dec 0 x) as [L|L]; [exact L|]. exfalso. apply N0.
    apply Qle_antisym; assumption. }
  set (t := (x / 10)%Q).
  assert (Ht : (0 < t)%Q) by (unfold t; apply Qlt_shift_div_l; lra).
  assert (Nt : ~ (t == 0)%Q) by lra.
  assert (At : (Qabs t == t)%Q) by (apply Qabs_pos; lra).
  assert (P50 : (pow2 53 == 8 * pow2 50)%Q).
  { change 53%Z with (3 + 50)%Z. rewrite pow2_plus. reflexivity. }
  assert (Tx : (t * 10 == x)%Q) by (unfold t; field).
  assert (Hc : (ulp_exp t <= -3)%Z).
  { apply (ulp_exp_le t 50); [exact Nt|lia|]. rewrite At. lra. }
  pose proof (Math_round_bounds t) as [Klo Khi].
  set (k := Math_round t) in *.
  (* the rounded quotient lies between 0 and 2^50 *)
  assert (V0 : (0 <= rnd_val t)%Q).
  { apply rnd_val_ge; [|lra]. exists 0%Z. ring. }
  assert (V1 : (rnd_val t <= pow2 50)%Q).
  { apply rnd_val_le; [|lra]. apply (on_grid_finer 50); [lia|].
    exists 1%Z. ring. }
  assert (Vlo : (inject_Z k - (1 # 2) <= rnd_val t)%Q).
  { apply rnd_val_ge; [|exact Klo]. apply on_grid_half. lia. }
  assert (Vhi : (rnd_val t < inject_Z k + (1 # 2))%Q).
  { assert (K0 : (0 <= k)%Z).
    { assert (inject_Z (-1) < inject_Z k)%Q
        by (change (inject_Z (-1)) with (-1)%Q; lra).
      rewrite <- Zlt_Qlt in H. lia. }
    rewrite Zle_Qle in K0. change (inject_Z 0) with 0%Q in K0.
    destruct (Qlt_le_dec x 1) as [S|S].
    - assert (rnd_val t <= 1 # 4)%Q.
      { apply rnd_val_le; [|lra]. apply (on_grid_finer (-2)); [lia|].
        exists 1%Z. change (pow2 (-2)) with (1 # 4)%Q. ring. }
      lra.
    - set (e := ilog2 (Qabs x)).
      assert (Ax : (Qabs x == x)%Q) by (apply Qabs_pos; lra).
      destruct (ilog2_spec (Qabs x)) as [E1 E2]; [rewrite Ax; exact Hx|].
      fold e in E1, E2. rewrite Ax in E1, E2.
      assert (He : (0 <= e)%Z).
      { apply ilog2_ge; [rewrite Ax; exact Hx|].
        rewrite Ax. change (pow2 0) with 1%Q. exact S. }
      assert (Ux : ulp_exp x = (e - 52)%Z) by (unfold ulp_exp; fold e; lia).
      assert (He53 : (e < 53)%Z) by (apply pow2_lt_inv; lra).
      assert (P8 : (pow2 (e + 1) == 8 * pow2 (e - 2))%Q).
      { replace (e + 1)%Z with (3 + (e - 2))%Z by lia. rewrite pow2_plus.
        reflexivity. }
      pose proof (pow2_pos (e - 2)) as Pe.
      assert (Ct : (ulp_exp t <= e - 55)%Z).
      { pose proof (ulp_exp_le t (e - 2) Nt ltac:(lia)) as X.
        rewrite At in X. assert (t < pow2 (e - 2))%Q by lra. specialize (X H).
        lia. }
      assert (G : (x + pow2 (e - 52) <= inject_Z (10 * k + 5))%Q).
      { apply grid_gap.
        - rewrite <- Ux. apply is_double_grid; assumption.
        - apply on_grid_int. lia.
        - rewrite inject_Z_plus, inject_Z_mult.
          change (inject_Z 10) with 10%Q. change (inject_Z 5) with 5%Q. lra. }
      rewrite inject_Z_plus, inject_Z_mult in G.
      change (inject_Z 10) with 10%Q in G. change (inject_Z 5) with 5%Q in G.
      pose proof (rnd_val_error t) as Er.
      apply Qabs_Qle_condition in Er. destruct Er as [_ Er].
      assert (Pc : (pow2 (ulp_exp t) <= pow2 (e - 55))%Q) by (apply pow2_le; exact Ct).
      assert (P3 : (pow2 (e - 52) == 8 * pow2 (e - 55))%Q).
      { replace (e - 52)%Z with (3 + (e - 55))%Z by lia. rewrite pow2_plus.
        reflexivity. }
      pose proof (pow2_pos (e - 55)) as P55.
      assert (Er' : (rnd_val t - t <= pow2 (e - 55) / 2)%Q).
      { eapply Qle_trans; [exact Er|]. apply Qmult_le_compat_r; [exact Pc|].
        discriminate. }
      assert (Hh : (pow2 (e - 55) / 2 == (1 # 2) * pow2 (e - 55))%Q) by field.
      lra. }
  exists (Qred (rnd_val t)). split.
  - apply round64_finite; [exact Nt|].
    assert (Qabs (rnd_val t) == rnd_val t)%Q by (apply Qabs_pos; exact V0).
    rewrite H. eapply Qle_lt_trans; [exact V1|]. apply pow2_lt. lia.
  - unfold Math_round at 1. apply Qfloor_unique. fold k.
    rewrite Qred_correct. split; lra.
Qed.

Section RoundingFacts.

Variable StringToNumber : string -> num.
Variable NumberToString : num -> string.

(** On a price that binary64 holds, from 0 to [2^53 - 16], no product
    and no sum of [roundPrice] is rounded. *)
Lemma roundPrice_double (x : Q) :
  is_double x = true -> (0 <= x)%Q -> (x <= inject_Z (2 ^ 53 - 16))%Q ->
  roundPrice StringToNumber NumberToString (JNum (Fin x))
  = JNum (num_of_Z (avoid_10_90 (Math_round (x / 10) * 10))).
Proof.
  intros Hd H0 Hb.
  assert (Hb' : (x < pow2 53)%Q).
  { eapply Qle_lt_trans; [exact Hb|]. rewrite pow2_nonneg by lia.
    rewrite <- Zlt_Qlt. lia. }
  destruct (round_tenth x Hd H0 Hb') as (y & Hy & Hk).
  pose proof (Math_round_bounds (x / 10)) as [Klo Khi].
  set (k := Math_round (x / 10)) in *.
  assert (Hx : (x == x / 10 * 10)%Q) by field.
  assert (K0 : (0 <= k)%Z).
  { assert (inject_Z (-1) < inject_Z k)%Q
      by (change (inject_Z (-1)) with (-1)%Q; lra).
    rewrite <- Zlt_Qlt in H. lia. }
  assert (K1 : (k * 10 < 2 ^ 53 - 10)%Z).
  { assert (inject_Z (k * 10) < inject_Z (2 ^ 53 - 10))%Q.
    { eapply Qle_lt_trans with (y := (x + 5)%Q).
      - rewrite inject_Z_mult. change (inject_Z 10) with 10%Q. lra.
      - eapply Qle_lt_trans with (y := (inject_Z (2 ^ 53 - 16) + 5)%Q); [lra|].
        change 5%Q with (inject_Z 5). rewrite <- inject_Z_plus, <- Zlt_Qlt. lia. }
    rewrite <- Zlt_Qlt in H. exact H. }
  unfold roundPrice. cbn [ToNumber isFinite negb].
  assert (D : num_div (Fin x) (num_of_Z 10) = Fin y) by exact Hy.
  rewrite D. cbn [num_round]. rewrite Hk. fold (num_of_Z k).
  rewrite (num_mul_Z k 10) by lia.
  set (p := (k * 10)%Z) in *.
  rewrite num_ltb_Z. unfold avoid_10_90.
  destruct (Z.ltb_spec 340 p) as [Hp|Hp]; [|reflexivity].
  rewrite (num_rem_Z p 100) by lia.
  assert (R : (-100 < Z.rem p 100 < 100)%Z).
  { pose proof (Z.rem_bound_pos p 100 ltac:(lia) ltac:(lia)). lia. }
  rewrite (num_add_Z (Z.rem p 100) 100) by lia.
  rewrite (num_rem_Z (Z.rem p 100 + 100) 100) by lia.
  rewrite !num_eqb_Z, positive_modulo by exact Hp.
  destruct (p mod 100 =? 10)%Z; [apply f_equal, num_sub_Z; lia|].
  destruct (p mod 100 =? 90)%Z; [apply f_equal, num_add_Z; lia|reflexivity].
Qed.

(** C1, as the code has it.  For every price [x] that binary64 holds,
    from 0 to [2^52], [roundPrice] answers the number obtained in two
    stages.  First the multiple of ten [r] nearest to [x], a half going
    up: [r - 5 <= x < r + 5].  Then, when [r] is above 340, [r - 10] if
    [r] ends in 10 and [r + 10] if it ends in 90, and [r] itself in
    every other case; a value [r] at or below 340, and so every price
    at or below 340, gets no adjustment.  The four values of the
    specification follow.  The bound is needed: the products and sums
    of [roundPrice] are rounded to binary64, and above [2^53] they are
    no longer exact. *)
Theorem roundPrice_two_stages :
  (forall x : Q,
      is_double x = true -> (0 <= x <= inject_Z (2 ^ 52))%Q ->
      exists r : Z,
        (r mod 10 = 0)%Z
        /\ (inject_Z r - 5 <= x < inject_Z r + 5)%Q
        /\ roundPrice StringToNumber NumberToString (JNum (Fin x))
           = JNum (num_of_Z
                     (if (340 <? r)%Z then
                        if (r mod 100 =? 10)%Z then (r - 10)%Z
                        else if (r mod 100 =? 90)%Z then (r + 10)%Z
                        else r
                      else r))
        /\ ((r <= 340)%Z ->
            roundPrice StringToNumber NumberToString (JNum (Fin x))
            = JNum (num_of_Z r))
        /\ ((x <= 340)%Q -> (r <= 340)%Z))
  /\ roundPrice StringToNumber NumberToString (JNum (num_of_Z 409))
     = JNum (num_of_Z 400)
  /\ roundPrice StringToNumber NumberToString (JNum (num_of_Z 486))
     = JNum (num_of_Z 500)
  /\ roundPrice StringToNumber NumberToString (JNum (num_of_Z 344))
     = JNum (num_of_Z 340)
  /\ roundPrice StringToNumber NumberToString (JNum (num_of_Z 346))
     = JNum (num_of_Z 350).
Proof.
  split; [|repeat split; vm_compute; reflexivity].
  intros x Hd [H0 Hb]. exists (Math_round (x / 10) * 10)%Z.
  assert (Hb' : (x <= inject_Z (2 ^ 53 - 16))%Q).
  { eapply Qle_trans; [exact Hb|]. rewrite <- Zle_Qle. lia. }
  pose proof (roundPrice_double x Hd H0 Hb') as Hr.
  pose proof (Math_round_bounds (x / 10)) as [Hlo Hhi].
  set (k := Math_round (x / 10)) in *.
  assert (Hk : (inject_Z (k * 10) == inject_Z k * 10)%Q)
    by (rewrite inject_Z_mult; reflexivity).
  assert (Hx : (x == x / 10 * 10)%Q) by field.
  split; [apply Z.mod_mul; lia|].
  split; [rewrite Hk; split; lra|].
  split; [exact Hr|].
  split.
  - intros Hle. rewrite Hr. unfold avoid_10_90.
    destruct (Z.ltb_spec 340 (k * 10)); [lia | reflexivity].
  - intros Hle.
    assert (A : (inject_Z k < inject_Z 35)%Q).
    { change (inject_Z 35) with 35%Q. lra. }
    rewrite <- Zlt_Qlt in A. lia.
Qed.

Lemma avoid_10_90_tens (r : Z) :
  (r mod 10 = 0)%Z -> (avoid_10_90 r mod 10 = 0)%Z.
Proof.
  intros H. unfold avoid_10_90.
  destruct (340 <? r)%Z; [|exact H].
  destruct (r mod 100 =? 10)%Z; [|destruct (r mod 100 =? 90)%Z]; zmod.
Qed.

Lemma avoid_10_90_idem (r : Z) :
  (r mod 10 = 0)%Z -> avoid_10_90 (avoid_10_90 r) = avoid_10_90 r.
Proof.
  intros H. unfold avoid_10_90.
  destruct (Z.ltb_spec 340 r) as [Hr|Hr].
  - destruct (Z.eqb_spec (r mod 100) 10) as [E|E].
    + destruct (Z.ltb_spec 340 (r - 10)); [|reflexivity].
      destruct (Z.eqb_spec ((r - 10) mod 100) 10); [zmod|].
      destruct (Z.eqb_spec ((r - 10) mod 100) 90); [zmod|reflexivity].
    + destruct (Z.eqb_spec (r mod 100) 90) as [E'|E'].
      * destruct (Z.ltb_spec 340 (r + 10)); [|reflexivity].
        destruct (Z.eqb_spec ((r + 10) mod 100) 10); [zmod|].
        destruct (Z.eqb_spec ((r + 10) mod 100) 90); [zmod|reflexivity].
      * destruct (Z.ltb_spec 340 r); [|lia].
        destruct (Z.eqb_spec (r mod 100) 10); [zmod|].
        destruct (Z.eqb_spec (r mod 100) 90); [zmod|reflexivity].
  - destruct (Z.ltb_spec 340 r); [zmod|reflexivity].
Qed.

Lemma avoid_10_90_range (r : Z) : (r - 10 <= avoid_10_90 r <= r + 10)%Z.
Proof.
  unfold avoid_10_90.
  destruct (340 <? r)%Z; [|lia].
  destruct (r mod 100 =? 10)%Z; [lia|].
  destruct (r mod 100 =? 90)%Z; lia.
Qed.

Lemma avoid_10_90_nonneg (r : Z) : (0 <= r)%Z -> (0 <= avoid_10_90 r)%Z.
Proof.
  intros Hr. unfold avoid_10_90.
  destruct (Z.ltb_spec 340 r); [|exact Hr].
  destruct (r mod 100 =? 10)%Z; [lia|].
  destruct (r mod 100 =? 90)%Z; lia.
Qed.

(** C8, as the code has it.  [roundPrice] is idempotent on every price
    that binary64 holds, from 0 to [2^52]: rounding a rounded price
    changes nothing.  Above [2^53] the property is lost with the
    exactness of the arithmetic. *)
Theorem roundPrice_idempotent (x : Q) :
  is_double x = true -> (0 <= x <= inject_Z (2 ^ 52))%Q ->
  roundPrice StringToNumber NumberToString
    (roundPrice StringToNumber NumberToString (JNum (Fin x)))
  = roundPrice StringToNumber NumberToString (JNum (Fin x)).
Proof.
  intros Hd [H0 Hb].
  assert (Hb' : (x <= inject_Z (2 ^ 53 - 16))%Q).
  { eapply Qle_trans; [exact Hb|]. rewrite <- Zle_Qle. lia. }
  rewrite (roundPrice_double x Hd H0 Hb').
  pose proof (Math_round_bounds (x / 10)) as [Klo Khi].
  set (k := Math_round (x / 10)) in *.
  set (r := (k * 10)%Z).
  assert (Hx : (x == x / 10 * 10)%Q) by field.
  assert (K0 : (0 <= k)%Z).
  { assert (inject_Z (-1) < inject_Z k)%Q
      by (change (inject_Z (-1)) with (-1)%Q; lra).
    rewrite <- Zlt_Qlt in H. lia. }
  assert (K1 : (r <= 2 ^ 52 + 5)%Z).
  { assert (inject_Z r <= inject_Z (2 ^ 52 + 5))%Q.
    { unfold r. rewrite inject_Z_mult, inject_Z_plus.
      change (inject_Z 10) with 10%Q. change (inject_Z 5) with 5%Q. lra. }
    rewrite <- Zle_Qle in H. exact H. }
  assert (Hr : (r mod 10 = 0)%Z) by (apply Z.mod_mul; lia).
  pose proof (avoid_10_90_tens r Hr) as Ht.
  pose proof (avoid_10_90_range r) as [R1 R2].
  pose proof (avoid_10_90_nonneg r ltac:(lia)) as R0.
  unfold num_of_Z at 1. rewrite roundPrice_double.
  - apply Z.mod_divide in Ht; [|lia]. destruct Ht as [j Hj].
    rewrite Hj at 1. rewrite Math_round_tens. rewrite <- Hj.
    rewrite avoid_10_90_idem by exact Hr. reflexivity.
  - apply is_double_int. lia.
  - rewrite <- (Zle_Qle 0). exact R0.
  - rewrite <- Zle_Qle. lia.
Qed.

End RoundingFacts.

(** ** Buckets, rules and the displayed price *)

Section PricingFacts.

Variable HostProp : jsval -> string -> jsval.
Variable StringToNumber : string -> num.
Variable NumberToString : num -> string.

Lemma finalPrice_scan_resolveBucket raw sheetName base bucks :
  finalPrice_scan HostProp StringToNumber NumberToString raw sheetName base bucks
  = match resolveBucket base bucks with
    | Some b =>
        roundPrice StringToNumber NumberToString
          (JNum (applyDiscount base
                   (resolveRule HostProp StringToNumber NumberToString raw (label b) sheetName)))
    | None => roundPrice StringToNumber NumberToString (JNum base)
    end.
Proof.
  induction bucks as [|b bucks IH]; [reflexivity|].
  cbn [finalPrice_scan resolveBucket]. unfold in_bucket at 1.
  destruct (num_leb (lo b) base && num_leb base (hi b)); [reflexivity|exact IH].
Qed.

Lemma resolveBucket_first base pre b post :
  Forall (fun b' => in_bucket base b' = false) pre ->
  in_bucket base b = true ->
  resolveBucket base (pre ++ b :: post) = Some b.
Proof.
  induction 1 as [|b' pre Hb' _ IH]; intros Hb; cbn.
  - rewrite Hb. reflexivity.
  - rewrite Hb'. apply IH, Hb.
Qed.

Lemma resolveBucket_none base bucks :
  Forall (fun b' => in_bucket base b' = false) bucks ->
  resolveBucket base bucks = None.
Proof.
  induction 1 as [|b' bs Hb' _ IH]; cbn; [reflexivity|].
  rewrite Hb'. exact IH.
Qed.

Lemma resolveBucket_some base bucks b :
  resolveBucket base bucks = Some b ->
  exists pre post,
    bucks = pre ++ b :: post
    /\ Forall (fun b' => in_bucket base b' = false) pre
    /\ in_bucket base b = true.
Proof.
  induction bucks as [|b' bs IH]; cbn; [discriminate|].
  destruct (in_bucket base b') eqn:E.
  - intros [= <-]. exists [], bs. auto.
  - intros H. destruct (IH H) as (pre & post & -> & Hpre & Hb).
    exists (b' :: pre), post. auto.
Qed.

(** C2. Whatever the ordered bucket list (here the list [bucks] that
    [activeBuckets] reads from the stored configuration), [finalPriceFor]
    applies the rule of the first bucket, in listed order, whose
    inclusive range holds the base price, later buckets that also hold
    it being ignored; and when no bucket holds the price it answers
    [roundPrice(base)], no discount applied.  With the buckets
    [("A",1,100)], [("B",101,220)] the price 50 resolves to A, 150 to B
    and 500 to no bucket. *)
Theorem finalPriceFor_first_bucket raw sheetName base bucks :
  activeBuckets HostProp StringToNumber NumberToString raw = Ret bucks ->
  (forall pre b post,
      bucks = pre ++ b :: post ->
      Forall (fun b' => in_bucket base b' = false) pre ->
      in_bucket base b = true ->
      finalPriceFor HostProp StringToNumber NumberToString raw sheetName base
      = Ret (roundPrice StringToNumber NumberToString
               (JNum (applyDiscount base
                        (resolveRule HostProp StringToNumber NumberToString raw
                           (label b) sheetName)))))
  /\ (Forall (fun b' => in_bucket base b' = false) bucks ->
      finalPriceFor HostProp StringToNumber NumberToString raw sheetName base
      = Ret (roundPrice StringToNumber NumberToString (JNum base)))
  /\ (let A := mkBucket "A" (num_of_Z 1) (num_of_Z 100) in
      let B := mkBucket "B" (num_of_Z 101) (num_of_Z 220) in
      resolveBucket (num_of_Z 50) [A; B] = Some A
      /\ resolveBucket (num_of_Z 150) [A; B] = Some B
      /\ resolveBucket (num_of_Z 500) [A; B] = None).
Proof.
  intros Hb. unfold finalPriceFor. rewrite Hb. cbn [mbind res_bind].
  rewrite finalPrice_scan_resolveBucket.
  split; [|split].
  - intros pre b post -> Hpre Hin.
    rewrite (resolveBucket_first _ _ _ _ Hpre Hin). reflexivity.
  - intros Hnone. rewrite (resolveBucket_none _ _ Hnone). reflexivity.
  - repeat split; reflexivity.
Qed.

(** *** Rules *)

Lemma resolveRule_sources raw label sheetName :
  resolveRule HostProp StringToNumber NumberToString raw label sheetName
  = let page := sheet_rule HostProp StringToNumber NumberToString raw sheetName label in
    let dflt := default_rule HostProp StringToNumber NumberToString raw label in
    if unset page && unset dflt
    then mkRule (Some (legacy_pct HostProp StringToNumber NumberToString label)) None
    else mkRule (first_set (pct page) (pct dflt))
                (first_set (flat page) (flat dflt)).
Proof.
  unfold resolveRule, sheet_rule, default_rule, unset, legacy_pct, first_set.
  cbv zeta. rewrite <- !andb_assoc. reflexivity.
Qed.



(** C10, as the code has it.  The rule that [resolveRule] returns is
    never unset as a whole (one of [pct], [flat] is a number), but a
    field may stay null: in the legacy answer [flat] is null, and
    otherwise a field is null exactly when neither the per-sheet rule
    nor the defaults rule sets it.  A null field counts as 0 where the
    rule is applied. *)
Theorem resolveRule_may_keep_null raw label sheetName :
  let page := sheet_rule HostProp StringToNumber NumberToString raw sheetName label in
  let dflt := default_rule HostProp StringToNumber NumberToString raw label in
  let r := resolveRule HostProp StringToNumber NumberToString raw label sheetName in
  (pct r <> None \/ flat r <> None)
  /\ (unset page && unset dflt = true -> pct r <> None /\ flat r = None)
  /\ (unset page && unset dflt = false ->
      (pct r = None <-> pct page = None /\ pct dflt = None)
      /\ (flat r = None <-> flat page = None /\ flat dflt = None))
  /\ or_zero None = num_of_Z 0.
Proof.
  cbv zeta. rewrite resolveRule_sources. cbv zeta.
  set (page := sheet_rule _ _ _ raw sheetName label).
  set (dflt := default_rule _ _ _ raw label).
  unfold unset.
  destruct (pct page), (flat page), (pct dflt), (flat dflt); cbn;
    repeat split; try discriminate; try tauto;
    try (left; discriminate); try (right; discriminate);
    try (intros [? ?]; discriminate); try (intros []; discriminate).
Qed.

(** *** The displayed price is never negative *)


Lemma at_least_0_cases (p : num) :
  at_least_0 p <-> p = PInf \/ exists r, p = Fin r /\ (0 <= r)%Q.
Proof.
  unfold at_least_0. destruct p as [r| | |]; cbn.
  - rewrite Qle_bool_iff. change (inject_Z 0) with 0%Q. split.
    + intros H. right. exists r. split; [reflexivity|exact H].
    + intros [H|(r' & [= <-] & H)]; [discriminate|exact H].
  - split; [intros _; left; reflexivity|reflexivity].
  - split; [discriminate|intros [H|(r' & H & _)]; discriminate].
  - split; [discriminate|intros [H|(r' & H & _)]; discriminate].
Qed.







End PricingFacts.

(** ** The fuzzy token matcher *)

Lemma length_chars (s : string) : List.length (chars s) = String.length s.
Proof. induction s as [|c s IH]; cbn; [reflexivity|]. f_equal. exact IH. Qed.

Lemma chars_text (l : list ascii) : chars (text l) = l.
Proof. apply list_ascii_of_string_of_list_ascii. Qed.

Lemma text_chars (s : string) : text (chars s) = s.
Proof. apply string_of_list_ascii_of_string. Qed.

Lemma chars_append (s1 s2 : string) :
  chars (s1 ++ s2)%string = chars s1 ++ chars s2.
Proof.
  induction s1 as [|c s1 IH]; [reflexivity|].
  change (c :: chars (s1 ++ s2)%string = c :: (chars s1 ++ chars s2)).
  f_equal. exact IH.
Qed.

Lemma chars_inj (s1 s2 : string) : chars s1 = chars s2 -> s1 = s2.
Proof. intros H. rewrite <- (text_chars s1), <- (text_chars s2), H. reflexivity. Qed.

(** *** The rolling row computes the recurrence *)

Section LevRows.

Variables a b : list ascii.
Variable n : nat.

Lemma lev_prefix_0_r i : lev_prefix a b i 0 = i.
Proof. destruct i; reflexivity. Qed.

Lemma lev_prefix_step i j :
  lev_prefix a b (S i) (S j)
  = Nat.min (Nat.min (lev_prefix a b i (S j) + 1) (lev_prefix a b (S i) j + 1))
            (lev_prefix a b i j
             + (if bool_decide (a !! i = b !! j) then 0 else 1)).
Proof. reflexivity. Qed.

Lemma lev_cell_mid_row i k st :
  S k <= n -> mid_row a b n i k st -> mid_row a b n i (S k) (lev_cell a b (S i) st (S k)).
Proof.
  intros Hk. destruct st as [dp prev]. intros (Hlen & Hnew & Hold & Hprev).
  cbn [fst snd] in *. unfold lev_cell.
  replace (S i - 1) with i by lia. replace (S k - 1) with k by lia.
  rewrite (Hold (S k)) by lia. rewrite (Hnew k) by lia. rewrite Hprev.
  rewrite <- lev_prefix_step.
  repeat split; cbn [fst snd].
  - rewrite length_insert. exact Hlen.
  - intros j Hj. destruct (decide (j = S k)) as [->|Hne].
    + rewrite list_lookup_total_insert_eq by lia. reflexivity.
    + rewrite list_lookup_total_insert_ne by lia. apply Hnew. lia.
  - intros j Hj1 Hj2. rewrite list_lookup_total_insert_ne by lia.
    apply Hold; lia.
Qed.

Lemma lev_cells_mid_row i dp k :
  k <= n -> holds_row a b n i dp ->
  mid_row a b n i k (fold_left (lev_cell a b (S i)) (seq 1 k) (<[0 := S i]> dp, dp !!! 0)).
Proof.
  intros Hk [Hlen Hrow]. induction k as [|k IH].
  - cbn [seq fold_left]. repeat split; cbn [fst snd].
    + rewrite length_insert. exact Hlen.
    + intros j Hj. replace j with 0 by lia.
      rewrite list_lookup_total_insert_eq by lia. reflexivity.
    + intros j Hj1 Hj2. rewrite list_lookup_total_insert_ne by lia.
      apply Hrow, Hj2.
    + apply Hrow. lia.
  - rewrite seq_S, fold_left_app. cbn [fold_left].
    change (1 + k) with (S k).
    apply lev_cell_mid_row; [exact Hk|]. apply IH. lia.
Qed.

Lemma lev_row_holds i dp :
  holds_row a b n i dp -> holds_row a b n (S i) (lev_row a b n dp (S i)).
Proof.
  intros Hrow. unfold lev_row.
  destruct (lev_cells_mid_row i dp n (le_n n) Hrow) as (Hlen & Hnew & _ & _).
  split; [exact Hlen|exact Hnew].
Qed.

Lemma lev_rows_hold m :
  holds_row a b n m (fold_left (lev_row a b n) (seq 1 m) (seq 0 (n + 1))).
Proof.
  induction m as [|m IH].
  - cbn [seq fold_left]. split.
    + rewrite length_seq. lia.
    + intros j Hj. rewrite lookup_total_seq_lt by lia. reflexivity.
  - rewrite seq_S, fold_left_app. cbn [fold_left].
    change (1 + m) with (S m). apply lev_row_holds, IH.
Qed.

End LevRows.

Lemma lev_prefix_diag (a : list ascii) i : lev_prefix a a i i = 0.
Proof.
  induction i as [|i IH]; [reflexivity|].
  rewrite lev_prefix_step, IH.
  rewrite bool_decide_eq_true_2 by reflexivity.
  apply Nat.min_r. lia.
Qed.

(** [levenshtein] is the Levenshtein distance. *)
Lemma levenshtein_correct (a b : string) : levenshtein a b = lev_distance a b.
Proof.
  unfold levenshtein, lev_distance.
  destruct (String.eqb_spec a b) as [->|_].
  { symmetry. apply lev_prefix_diag. }
  destruct (Nat.eqb_spec (String.length a) 0) as [->|_]; [reflexivity|].
  destruct (Nat.eqb_spec (String.length b) 0) as [->|_].
  { symmetry. apply lev_prefix_0_r. }
  destruct (lev_rows_hold (chars a) (chars b) (String.length b) (String.length a))
    as [_ H].
  apply H. lia.
Qed.

(** *** Containment *)

Lemma is_prefix_spec (p s : list ascii) :
  is_prefix p s = true <-> exists post, s = p ++ post.
Proof.
  revert s. induction p as [|c p IH]; intros s; cbn.
  - split; [intros _; exists s; reflexivity|reflexivity].
  - destruct s as [|d s].
    + split; [discriminate|intros [post [=]]].
    + rewrite andb_true_iff, IH. split.
      * intros [Hc [post ->]]. apply Ascii.eqb_eq in Hc. subst d.
        exists post. reflexivity.
      * intros [post [= -> ->]]. split; [apply Ascii.eqb_refl|eauto].
Qed.

Lemma includes_go_spec (p s : list ascii) :
  includes_go p s = true <-> exists pre post, s = pre ++ p ++ post.
Proof.
  induction s as [|d s IH].
  - cbn. rewrite orb_false_r, is_prefix_spec. split.
    + intros [post ->]. exists [], post. reflexivity.
    + intros (pre & post & Hs). symmetry in Hs.
      apply app_eq_nil in Hs. destruct Hs as [-> Hs]. eauto.
  - cbn [includes_go]. rewrite orb_true_iff, is_prefix_spec, IH. split.
    + intros [[post ->]|(pre & post & ->)].
      * exists [], post. reflexivity.
      * exists (d :: pre), post. reflexivity.
    + intros (pre & post & Hs). destruct pre as [|e pre].
      * left. exists post. exact Hs.
      * right. injection Hs as -> ->. eauto.
Qed.

Lemma includes_spec (h t : string) : includes h t = true <-> substring_of t h.
Proof.
  unfold includes, substring_of. rewrite includes_go_spec. split.
  - intros (pre & post & Hh). exists (text pre), (text post).
    apply chars_inj. rewrite !chars_append, !chars_text. exact Hh.
  - intros (pre & post & ->). exists (chars pre), (chars post).
    rewrite !chars_append. reflexivity.
Qed.

Lemma fuzzyTokenMatch_empty (hayTokens : list string) :
  fuzzyTokenMatch EmptyString hayTokens = true.
Proof. reflexivity. Qed.

Lemma fuzzyTokenMatch_iff (t : string) (hayTokens : list string) :
  fuzzyTokenMatch t hayTokens = true
  <-> t = EmptyString
      \/ (exists h, In h hayTokens /\ substring_of t h)
      \/ (exists h, In h hayTokens /\ within_edits t h).
Proof.
  unfold fuzzyTokenMatch.
  destruct (String.eqb_spec t EmptyString) as [->|Hne]; [tauto|].
  assert (Hsub : existsb (fun h => includes h t) hayTokens = true
                 <-> exists h, In h hayTokens /\ substring_of t h).
  { rewrite existsb_exists. split; intros (h & Hin & Hh); exists h;
      (split; [exact Hin|apply includes_spec, Hh]). }
  assert (Hed :
    existsb (fun h =>
               if 3 <? abs_diff (String.length h) (String.length t) then false
               else levenshtein t h <=? (if 6 <=? String.length t then 2 else 1))
      hayTokens = true
    <-> exists h, In h hayTokens /\ within_edits t h).
  { rewrite existsb_exists. unfold within_edits.
    split; intros (h & Hin & Hh); exists h; (split; [exact Hin|]).
    - destruct (Nat.ltb_spec 3 (abs_diff (String.length h) (String.length t)));
        [discriminate|].
      apply Nat.leb_le in Hh. rewrite levenshtein_correct in Hh. split; lia.
    - destruct Hh as [Hlen Hd].
      destruct (Nat.ltb_spec 3 (abs_diff (String.length h) (String.length t)));
        [lia|].
      apply Nat.leb_le. rewrite levenshtein_correct. exact Hd. }
  destruct (existsb (fun h => includes h t) hayTokens) eqn:E.
  - split; [intros _; right; left; apply Hsub; reflexivity|reflexivity].
  - rewrite Hed. split; [tauto|].
    intros [?|[Hs|?]]; [contradiction| |assumption].
    apply Hsub in Hs. discriminate.
Qed.

(** C6. For a query token [t] (a token is never empty) and any list of
    haystack tokens: the matcher answers true when some haystack token
    contains [t] as a substring; and when none does, it answers true
    exactly when some haystack token whose length is at most 3 away
    from that of [t] lies at Levenshtein distance at most 2 from [t] if
    [t] has 6 characters or more, at most 1 if it has fewer.  So 16 and
    17 match the token 15, and 20 does not. *)
Theorem fuzzyTokenMatch_contains_or_close (t : string) (hayTokens : list string) :
  t <> EmptyString ->
  ((exists h, In h hayTokens /\ substring_of t h) ->
   fuzzyTokenMatch t hayTokens = true)
  /\ (~ (exists h, In h hayTokens /\ substring_of t h) ->
      (fuzzyTokenMatch t hayTokens = true
       <-> exists h,
             In h hayTokens
             /\ abs_diff (String.length h) (String.length t) <= 3
             /\ lev_distance t h <= (if 6 <=? String.length t then 2 else 1)))
  /\ fuzzyTokenMatch "16" ["15"] = true
  /\ fuzzyTokenMatch "17" ["15"] = true
  /\ fuzzyTokenMatch "20" ["15"] = false.
Proof.
  intros Hne. split; [|split; [|repeat split; reflexivity]].
  - intros Hs. apply fuzzyTokenMatch_iff. auto.
  - intros Hno. rewrite fuzzyTokenMatch_iff. unfold within_edits. tauto.
Qed.

(** ** The query filter *)

Lemma tokens_of_nonempty (s tok : string) :
  In tok (tokens_of s) -> tok <> EmptyString.
Proof.
  unfold tokens_of. rewrite filter_In. intros [_ H] ->. discriminate.
Qed.

Lemma matchesQuery_forallb (row : prow) (q : string) :
  matchesQuery row q
  = forallb (fun tok => fuzzyTokenMatch tok (tokens_of (search row)))
            (tokens_of (normText q)).
Proof.
  unfold matchesQuery.
  destruct (String.eqb_spec q EmptyString) as [->|_]; [reflexivity|].
  destruct (tokens_of (normText q)); reflexivity.
Qed.

(** C7, as the code has it.  The filter accepts an item exactly when
    every whitespace-separated token of the one normalised query,
    [normText(q)], matches some token of the item's search blob, by
    containment or within the edit bound (AND across the tokens of the
    query, OR across the tokens that the surfaces of the blob
    contribute).  No variant of the query is tried. *)
Theorem matchesQuery_every_token (row : prow) (q : string) :
  (matchesQuery row q = true
   <-> forall tok,
         In tok (tokens_of (normText q)) ->
         fuzzyTokenMatch tok (tokens_of (search row)) = true)
  /\ (matchesQuery row q = true
      <-> forall tok,
            In tok (tokens_of (normText q)) ->
            exists h,
              In h (tokens_of (search row))
              /\ (substring_of tok h \/ within_edits tok h)).
Proof.
  rewrite matchesQuery_forallb, forallb_forall. split; [reflexivity|].
  split; intros H tok Hin.
  - specialize (H tok Hin). apply fuzzyTokenMatch_iff in H.
    destruct H as [H|[(h & Hh & Hs)|(h & Hh & He)]].
    + exfalso. exact (tokens_of_nonempty _ _ Hin H).
    + exists h. auto.
    + exists h. auto.
  - apply fuzzyTokenMatch_iff. destruct (H tok Hin) as (h & Hh & [Hs|He]).
    + right; left. eauto.
    + right; right. eauto.
Qed.

(** ** Rendering a section *)

Lemma insert_hit_In (h x : hit) (l : list hit) :
  In h (insert_hit x l) <-> h = x \/ In h l.
Proof.
  induction l as [|y l IH]; cbn [insert_hit].
  - cbn. split; [intros [->|[]]; auto|intros [->|[]]; auto].
  - destruct (num_ltb (num_of_Z 0) (hit_cmp x y)).
    + cbn [In]. rewrite IH. tauto.
    + cbn [In]. split; [intros [->|H]; auto|intros [->|H]; auto].
Qed.

Lemma sort_hits_In (h : hit) (l : list hit) : In h (sort_hits l) <-> In h l.
Proof.
  induction l as [|x l IH]; cbn [sort_hits fold_right]; [tauto|].
  fold (sort_hits l). rewrite insert_hit_In, IH. cbn [In].
  split; [intros [->|H]; auto|intros [->|H]; auto].
Qed.

Section RenderFacts.

Variable HostProp : jsval -> string -> jsval.
Variable StringToNumber : string -> num.
Variable NumberToString : num -> string.

(** A row whose price is [NaN] is left before it is matched, scored or
    priced. *)
Lemma collect_skips_NaN raw name q i r rest :
  isNaN (price r) = true ->
  collect HostProp StringToNumber NumberToString raw name q i (r :: rest)
  = collect HostProp StringToNumber NumberToString raw name q (S i) rest.
Proof.
  intros H. cbn [collect]. rewrite H, orb_true_r. reflexivity.
Qed.

Lemma collect_hits raw name q rows :
  forall i hits,
    collect HostProp StringToNumber NumberToString raw name q i rows = Ret hits ->
    forall h, In h hits ->
      exists r,
        i <= idx h /\ rows !! (idx h - i) = Some r
        /\ isNaN (price r) = false /\ matchesQuery r q = true.
Proof.
  induction rows as [|r rest IH]; intros i hits; cbn [collect].
  { intros [= <-] h []. }
  assert (Hrest : forall hits',
             collect HostProp StringToNumber NumberToString raw name q (S i) rest = Ret hits' ->
             forall h, In h hits' ->
               exists r0, i <= idx h /\ (r :: rest) !! (idx h - i) = Some r0
                          /\ isNaN (price r0) = false /\ matchesQuery r0 q = true).
  { intros hits' Hc h Hin. destruct (IH _ _ Hc h Hin) as (r0 & Hle & Hl & Hp & Hm).
    exists r0. split; [lia|]. split; [|auto].
    replace (idx h - i) with (S (idx h - S i)) by lia. exact Hl. }
  destruct (negb _ || isNaN (price r)) eqn:E1; [apply Hrest|].
  destruct (negb (matchesQuery r q)) eqn:E2; [apply Hrest|].
  apply orb_false_iff in E1. destruct E1 as [_ E1].
  apply negb_false_iff in E2.
  destruct (finalPriceFor _ _ _ raw name (price r)) as [fp|]; cbn [mbind res_bind];
    [|discriminate].
  destruct (collect _ _ _ raw name q (S i) rest) as [ms|] eqn:Ec; cbn [mbind res_bind];
    [|discriminate].
  intros [= <-] h [<-|Hin].
  - exists r. cbn [idx]. rewrite Nat.sub_diag. auto.
  - apply (Hrest ms eq_refl h Hin).
Qed.

(** C5, as the code has it.  A catalog row whose price is [NaN] is
    rejected by [render] before it is matched, scored or priced, and no
    entry of the result list comes from it, whatever the query and the
    configuration.  The test is [isNaN]: a row whose price is
    [+Infinity] or [-Infinity] is not rejected, and when it passes the
    filter it is scored and handed to [finalPriceFor] like any other
    row. *)
Theorem render_rejects_NaN raw name q rows :
  (forall i r rest,
      isNaN (price r) = true ->
      collect HostProp StringToNumber NumberToString raw name q i (r :: rest)
      = collect HostProp StringToNumber NumberToString raw name q (S i) rest)
  /\ (forall hits,
         render HostProp StringToNumber NumberToString raw name q rows = Ret hits ->
         forall h, In h hits ->
           exists r, rows !! idx h = Some r /\ isNaN (price r) = false)
  /\ (forall i r rest,
         nonempty (device r) = true ->
         isFinite (price r) = false -> isNaN (price r) = false ->
         matchesQuery r q = true ->
         collect HostProp StringToNumber NumberToString raw name q i (r :: rest)
         = (fp ← finalPriceFor HostProp StringToNumber NumberToString raw name (price r);
            ms ← collect HostProp StringToNumber NumberToString raw name q (S i) rest;
            Ret (mkHit i (device r) fp
                   (if nonempty q then rankScore r q else num_of_Z 0) :: ms))).
Proof.
  split; [intros i r rest; apply collect_skips_NaN|]. split.
  - intros hits. unfold render.
    destruct (collect _ _ _ raw name q 0 rows) as [ms|] eqn:Ec; cbn [mbind res_bind];
      [|discriminate].
    intros [= <-] h Hin. apply (proj1 (sort_hits_In _ _)) in Hin.
    destruct (collect_hits raw name q rows 0 ms Ec h Hin) as (r & _ & Hl & Hp & _).
    rewrite Nat.sub_0_r in Hl. eauto.
  - intros i r rest Hd _ Hn Hm. cbn [collect].
    rewrite Hd. cbn iota. rewrite Hd, Hn, Hm. reflexivity.
Qed.

End RenderFacts.

(** ** Ranking *)

(** *** Text lemmas: trimming and tokens of a blob with a fixed head *)

Lemma drop_spaces_app (l1 l2 : list ascii) :
  drop_spaces (l1 ++ l2)
  = match drop_spaces l1 with
    | [] => drop_spaces l2
    | _ :: _ => drop_spaces l1 ++ l2
    end.
Proof.
  induction l1 as [|c l1 IH]; [reflexivity|].
  cbn [app drop_spaces]. destruct (is_space c); [exact IH|reflexivity].
Qed.

Lemma drop_spaces_solid (c : ascii) (l : list ascii) :
  is_space c = false -> drop_spaces (c :: l) = c :: l.
Proof. intros H. cbn. rewrite H. reflexivity. Qed.

(** Trimming a text whose head [f] starts and ends with a character
    that is not white space only trims the tail on its right. *)
Lemma trim_fixed_head (c d : ascii) (f x : list ascii) :
  is_space c = false -> is_space d = false ->
  chars (trim (text ((c :: f ++ [d]) ++ x))) = (c :: f ++ [d]) ++ rtrim x.
Proof.
  intros Hc Hd. unfold trim. rewrite chars_text, chars_text.
  cbn [app]. rewrite drop_spaces_solid by exact Hc.
  change (c :: (f ++ [d]) ++ x) with ((c :: f ++ [d]) ++ x).
  rewrite rev_app_distr, drop_spaces_app.
  assert (Hrev : rev (c :: f ++ [d]) = d :: rev (c :: f)).
  { change (c :: f ++ [d]) with ((c :: f) ++ [d]). rewrite rev_app_distr.
    reflexivity. }
  destruct (drop_spaces (rev x)) as [|e l] eqn:E.
  - rewrite Hrev, (drop_spaces_solid d _ Hd), <- Hrev, rev_involutive.
    unfold rtrim. rewrite E. cbn [rev]. rewrite app_nil_r. reflexivity.
  - rewrite rev_app_distr, rev_involutive. unfold rtrim. rewrite E. reflexivity.
Qed.

Lemma rtrim_cons (c : ascii) (l : list ascii) :
  rtrim (c :: l) = [] \/ rtrim (c :: l) = c :: rtrim l.
Proof.
  unfold rtrim. cbn [rev]. rewrite drop_spaces_app.
  destruct (drop_spaces (rev l)) as [|e l'] eqn:E.
  - cbn. destruct (is_space c); [left|right]; reflexivity.
  - right. rewrite rev_app_distr. reflexivity.
Qed.

Lemma split_go_space (cur l1 l2 : list ascii) :
  split_go cur (l1 ++ " "%char :: l2) = split_go cur l1 ++ split_go [] l2.
Proof.
  revert cur. induction l1 as [|c l1 IH]; intros cur; [reflexivity|].
  cbn [app split_go]. destruct (Ascii.eqb c " "); [|apply IH].
  cbn [app]. f_equal. apply IH.
Qed.

Lemma filter_app_list {A} (f : A -> bool) (l1 l2 : list A) :
  List.filter f (l1 ++ l2) = List.filter f l1 ++ List.filter f l2.
Proof.
  induction l1 as [|a l1 IH]; [reflexivity|].
  cbn. destruct (f a); cbn; rewrite IH; reflexivity.
Qed.

(** The tokens of a head followed by a tail that is empty or begins
    with a space are those of the head, then those of the tail. *)
Lemma tokens_of_head_tail (f r : list ascii) :
  r = [] \/ (exists r', r = " "%char :: r') ->
  tokens_of (text (f ++ r)) = tokens_of (text f) ++ tokens_of (text r).
Proof.
  unfold tokens_of, split_space. rewrite !chars_text.
  intros [->|[r' ->]].
  - rewrite app_nil_r. cbn. rewrite app_nil_r. reflexivity.
  - rewrite split_go_space, filter_app_list. reflexivity.
Qed.

Lemma includes_go_app (p f r : list ascii) :
  includes_go p f = true -> includes_go p (f ++ r) = true.
Proof.
  rewrite !includes_go_spec. intros (pre & post & ->).
  exists pre, (post ++ r). rewrite <- !app_assoc. reflexivity.
Qed.

(** *** The best signal of a token is a maximum *)

Lemma fold_max_from {A} (v : A -> nat) (hs : list A) :
  forall b,
    fold_left (fun best h => Nat.max best (v h)) hs b
    = Nat.max b (fold_left (fun best h => Nat.max best (v h)) hs 0).
Proof.
  induction hs as [|h hs IH]; intros b; cbn [fold_left].
  - rewrite Nat.max_0_r. reflexivity.
  - rewrite (IH (Nat.max b (v h))), (IH (Nat.max 0 (v h))). lia.
Qed.

Lemma token_best_max (tok : string) (hs : list string) :
  forall b0,
    fold_left
      (fun best h =>
         if String.eqb h tok then Nat.max best 10
         else if startsWith h tok || includes h tok then Nat.max best 6
         else
           let maxEd := if 6 <=? String.length tok then 2 else 1 in
           if (abs_diff (String.length h) (String.length tok) <=? 3)
              && (levenshtein tok h <=? maxEd)
           then Nat.max best 3 else best)
      hs b0
    = Nat.max b0 (fold_left (fun best h => Nat.max best (token_val tok h)) hs 0).
Proof.
  intros b0. rewrite <- fold_max_from. revert b0.
  induction hs as [|h hs IH]; intros b0; cbn [fold_left]; [reflexivity|].
  rewrite IH. f_equal. unfold token_val. cbv zeta.
  repeat match goal with |- context [if ?c then _ else _] => destruct c end;
    try reflexivity; lia.
Qed.

Lemma token_best_eq (tok : string) (hs : list string) :
  token_best tok hs
  = fold_left (fun best h => Nat.max best (token_val tok h)) hs 0.
Proof. unfold token_best. rewrite token_best_max. apply Nat.max_0_l. Qed.

Lemma token_best_app (tok : string) (h1 h2 : list string) :
  token_best tok (h1 ++ h2) = Nat.max (token_best tok h1) (token_best tok h2).
Proof. rewrite !token_best_eq, fold_left_app. apply fold_max_from. Qed.

Lemma token_val_le (tok h : string) : token_val tok h <= 10.
Proof.
  unfold token_val.
  repeat match goal with |- context [if ?c then _ else _] => destruct c end; lia.
Qed.

Lemma token_val_other (tok h : string) : h <> tok -> token_val tok h <= 6.
Proof.
  intros Hne. unfold token_val.
  destruct (String.eqb_spec h tok); [contradiction|].
  repeat match goal with |- context [if ?c then _ else _] => destruct c end; lia.
Qed.

Lemma token_best_le (tok : string) (hs : list string) : token_best tok hs <= 10.
Proof.
  rewrite token_best_eq.
  assert (G : forall b, b <= 10 ->
            fold_left (fun best h => Nat.max best (token_val tok h)) hs b <= 10).
  { induction hs as [|h hs IH]; intros b Hb; cbn [fold_left]; [exact Hb|].
    apply IH. pose proof (token_val_le tok h). lia. }
  apply G. lia.
Qed.

Lemma token_best_absent (tok : string) (hs : list string) :
  ~ In tok hs -> token_best tok hs <= 6.
Proof.
  intros Hno. rewrite token_best_eq.
  assert (G : forall b, b <= 6 ->
            fold_left (fun best h => Nat.max best (token_val tok h)) hs b <= 6).
  { induction hs as [|h hs IH]; intros b Hb; cbn [fold_left]; [exact Hb|].
    apply IH; [intros H; apply Hno; right; exact H|].
    assert (h <> tok) by (intros ->; apply Hno; left; reflexivity).
    pose proof (token_val_other tok h ltac:(assumption)). lia. }
  apply G. lia.
Qed.

(** *** The blob of a name with a fixed normal form *)

Lemma drop_spaces_idem (l : list ascii) :
  drop_spaces (drop_spaces l) = drop_spaces l.
Proof.
  induction l as [|c l IH]; [reflexivity|].
  cbn [drop_spaces]. destruct (is_space c) eqn:E; [exact IH|].
  cbn [drop_spaces]. rewrite E. reflexivity.
Qed.

Lemma rtrim_trim (x : string) : rtrim (chars (trim x)) = chars (trim x).
Proof.
  unfold trim, rtrim. rewrite chars_text, rev_involutive, drop_spaces_idem.
  reflexivity.
Qed.

Lemma normText_trimmed (s : string) : rtrim (chars (normText s)) = chars (normText s).
Proof.
  unfold normText. destruct (String.eqb s EmptyString); [reflexivity|].
  cbv zeta. apply rtrim_trim.
Qed.

(** The part of the blob that the sheet label contributes is empty, or
    a space and the normalised label; its tokens are those of the
    normalised label. *)
Lemma sheet_tail (sheetName : string) :
  let r := rtrim (chars (sheet_part sheetName)) in
  (r = [] \/ r = " "%char :: chars (normText sheetName))
  /\ tokens_of (text r) = tokens_of (normText sheetName).
Proof.
  cbv zeta. unfold sheet_part, nonempty.
  destruct (String.eqb_spec sheetName EmptyString) as [->|Hne]; cbn [negb].
  { split; [left|]; reflexivity. }
  rewrite chars_append. change (chars " ") with [" "%char]. cbn [app].
  set (l := chars (normText sheetName)).
  assert (Hl : rtrim l = l) by apply normText_trimmed.
  destruct (rtrim_cons " " l) as [E|E]; rewrite E.
  - split; [left; reflexivity|].
    assert (l = []) as Hnil.
    { unfold rtrim in E. cbn [rev] in E. rewrite drop_spaces_app in E.
      destruct (drop_spaces (rev l)) as [|e l'] eqn:D.
      - rewrite <- Hl. unfold rtrim. rewrite D. reflexivity.
      - rewrite rev_app_distr in E. discriminate E. }
    rewrite <- (text_chars (normText sheetName)). fold l. rewrite Hnil.
    reflexivity.
  - rewrite Hl. split; [right; reflexivity|].
    rewrite <- (text_chars (normText sheetName)). fold l.
    unfold tokens_of, split_space. rewrite !chars_text. reflexivity.
Qed.

Lemma buildSearchBlob_head (name sheetName : string) (c d : ascii) (f : list ascii) :
  chars (normText name ++ " "
         ++ trim (replaceAll re_spaces " "
                    (replaceAll re_brand EmptyString (normText name))))%string
  = c :: f ++ [d] ->
  is_space c = false -> is_space d = false ->
  chars (buildSearchBlob name sheetName)
  = (c :: f ++ [d]) ++ rtrim (chars (sheet_part sheetName)).
Proof.
  intros Hhead Hc Hd. unfold buildSearchBlob. cbv zeta. fold (sheet_part sheetName).
  rewrite <- (trim_fixed_head c d f _ Hc Hd). f_equal. f_equal.
  apply chars_inj. rewrite chars_text, <- Hhead, !chars_append, <- !app_assoc.
  reflexivity.
Qed.

Lemma blob_tokens (name sheetName : string) (c d : ascii) (f : list ascii) :
  chars (normText name ++ " "
         ++ trim (replaceAll re_spaces " "
                    (replaceAll re_brand EmptyString (normText name))))%string
  = c :: f ++ [d] ->
  is_space c = false -> is_space d = false ->
  tokens_of (buildSearchBlob name sheetName)
  = tokens_of (text (c :: f ++ [d])) ++ tokens_of (normText sheetName).
Proof.
  intros Hhead Hc Hd.
  rewrite <- (text_chars (buildSearchBlob name sheetName)).
  rewrite (buildSearchBlob_head _ _ _ _ _ Hhead Hc Hd).
  destruct (sheet_tail sheetName) as [Hshape Htok].
  rewrite tokens_of_head_tail by (destruct Hshape as [E|E]; [left|right; eexists]; exact E).
  rewrite Htok. reflexivity.
Qed.

Lemma blob_includes (name sheetName p : string) (c d : ascii) (f : list ascii) :
  chars (normText name ++ " "
         ++ trim (replaceAll re_spaces " "
                    (replaceAll re_brand EmptyString (normText name))))%string
  = c :: f ++ [d] ->
  is_space c = false -> is_space d = false ->
  includes_go (chars p) (c :: f ++ [d]) = true ->
  includes (buildSearchBlob name sheetName) p = true.
Proof.
  intros Hhead Hc Hd Hp. unfold includes.
  rewrite (buildSearchBlob_head _ _ _ _ _ Hhead Hc Hd).
  apply includes_go_app, Hp.
Qed.

(** A pattern that does not begin inside the head of a text is in the
    text exactly when it is in the tail. *)
Lemma is_prefix_app_false (p s t : list ascii) :
  is_prefix p s = false -> is_prefix s p = false -> is_prefix p (s ++ t) = false.
Proof.
  revert s. induction p as [|c p IH]; intros [|d s]; cbn; try discriminate.
  destruct (Ascii.eqb c d) eqn:E; [|reflexivity].
  apply Ascii.eqb_eq in E. subst d. rewrite Ascii.eqb_refl. cbn. apply IH.
Qed.

Lemma includes_go_past (p f r : list ascii) :
  overlaps p f = false -> includes_go p (f ++ r) = includes_go p r.
Proof.
  induction f as [|c f IH]; [reflexivity|].
  cbn [overlaps]. intros H.
  apply orb_false_iff in H. destruct H as [H H3].
  apply orb_false_iff in H. destruct H as [H1 H2].
  change ((c :: f) ++ r) with (c :: f ++ r). cbn [includes_go].
  change (c :: f ++ r) with ((c :: f) ++ r).
  rewrite (is_prefix_app_false _ _ r H1 H2). cbn [orb]. apply IH, H3.
Qed.

Lemma blob_includes_tail (name sheetName p : string) (c d : ascii) (f : list ascii) :
  chars (normText name ++ " "
         ++ trim (replaceAll re_spaces " "
                    (replaceAll re_brand EmptyString (normText name))))%string
  = c :: f ++ [d] ->
  is_space c = false -> is_space d = false ->
  overlaps (chars p) (c :: f ++ [d]) = false ->
  is_prefix (chars p) [] = false ->
  is_prefix (chars p) [" "%char] = false -> is_prefix [" "%char] (chars p) = false ->
  includes (buildSearchBlob name sheetName) p = includes (normText sheetName) p.
Proof.
  intros Hhead Hc Hd Hp H0 H1 H2. unfold includes.
  rewrite (buildSearchBlob_head _ _ _ _ _ Hhead Hc Hd).
  rewrite (includes_go_past _ _ _ Hp).
  destruct (sheet_tail sheetName) as [[E|E] _]; rewrite E.
  - cbn [includes_go]. rewrite H0. cbn [orb].
    assert (N : chars (normText sheetName) = []).
    { unfold sheet_part, nonempty in E.
      destruct (String.eqb_spec sheetName EmptyString) as [->|Hne]; [reflexivity|].
      cbn [negb] in E. rewrite chars_append in E.
      change (chars " ") with [" "%char] in E. cbn [app] in E.
      destruct (rtrim_cons " " (chars (normText sheetName))) as [G|G].
      + unfold rtrim in G. cbn [rev] in G. rewrite drop_spaces_app in G.
        pose proof (normText_trimmed sheetName) as T. unfold rtrim in T.
        destruct (drop_spaces (rev (chars (normText sheetName)))) as [|e l'].
        * symmetry. exact T.
        * rewrite rev_app_distr in G. discriminate G.
      + rewrite G in E. discriminate E. }
    rewrite N. cbn [includes_go]. rewrite H0. reflexivity.
  - apply (includes_go_past _ [" "%char] (chars (normText sheetName))).
    cbn [overlaps]. rewrite H1, H2. reflexivity.
Qed.

(** *** The numeric stage *)

Lemma best_delta_eq (qNums hNums : list num) :
  best_delta qNums hNums
  = fold_left (fun bd qn => fold_left (nearer qn) hNums bd) qNums PInf.
Proof. reflexivity. Qed.

Lemma nearer_zero (qn : num) (z : Q) (hNums : list num) :
  (z == 0)%Q -> fold_left (nearer qn) hNums (Fin z) = Fin z.
Proof.
  intros Hz. induction hNums as [|hn hNums IH]; [reflexivity|].
  cbn [fold_left]. unfold nearer at 2.
  destruct (num_sub hn qn) as [x| | |]; cbn [num_abs num_ltb]; try exact IH.
  assert (E : Qle_bool z (Qabs x) = true).
  { apply Qle_bool_iff. rewrite Hz. apply Qabs_nonneg. }
  rewrite E. exact IH.
Qed.

Lemma nearer_within_one (qn bd hn : num) :
  within_one bd -> within_one (nearer qn bd hn).
Proof.
  intros (d & -> & Hd). unfold nearer.
  destruct (num_sub hn qn) as [x| | |]; cbn [num_abs num_ltb];
    try (exists d; split; [reflexivity|exact Hd]).
  destruct (Qle_bool d (Qabs x)) eqn:E; cbn [negb];
    [exists d; split; [reflexivity|exact Hd]|].
  exists (Qabs x). split; [reflexivity|]. split; [apply Qabs_nonneg|].
  destruct (Qlt_le_dec (Qabs x) d) as [L|L]; [lra|].
  apply Qle_bool_iff in L. congruence.
Qed.

Lemma fold_nearer_within_one (qn : num) (hNums : list num) (bd : num) :
  within_one bd -> within_one (fold_left (nearer qn) hNums bd).
Proof.
  revert bd. induction hNums as [|hn hNums IH]; intros bd H; [exact H|].
  cbn [fold_left]. apply IH, nearer_within_one, H.
Qed.

(** With 14 among the numbers of the haystack the least difference
    from the numbers 15 and 256 of the query is at most 1. *)
Lemma best_delta_near (ns : list num) :
  within_one (best_delta [num_of_Z 15; num_of_Z 256] (num_of_Z 14 :: ns)).
Proof.
  rewrite best_delta_eq. cbn [fold_left].
  apply fold_nearer_within_one, nearer_within_one, fold_nearer_within_one.
  exists 1%Q. split; [vm_compute; reflexivity|split; discriminate].
Qed.

(** With 15 among them it is 0. *)
Lemma best_delta_exact (ns : list num) :
  best_delta [num_of_Z 15; num_of_Z 256] (num_of_Z 15 :: ns) = Fin 0.
Proof.
  rewrite best_delta_eq. cbn [fold_left].
  change (nearer (num_of_Z 15) PInf (num_of_Z 15)) with (Fin 0).
  rewrite (nearer_zero (num_of_Z 15) 0 ns) by reflexivity.
  change (nearer (num_of_Z 256) (Fin 0) (num_of_Z 15)) with (Fin 0).
  apply nearer_zero. reflexivity.
Qed.

Lemma numeric_stage_zero (x : Z) :
  (Z.abs (x + 25) < 2 ^ 53)%Z ->
  numeric_stage (num_of_Z x) (Fin 0) = num_of_Z (x + 25).
Proof. intros H. unfold numeric_stage. cbn [num_eqb num_of_Z Qeq_bool]. apply num_add_Z, H. Qed.

Lemma numeric_stage_near (x : Z) (bd : num) :
  within_one bd -> (0 <= x < 2 ^ 52)%Z ->
  exists y : Z, numeric_stage (num_of_Z x) bd = num_of_Z y /\ (x <= y <= x + 25)%Z.
Proof.
  intros (d & -> & Hd) Hx. unfold numeric_stage.
  destruct (num_eqb (Fin d) (num_of_Z 0)).
  { exists (x + 25)%Z. split; [apply num_add_Z|]; lia. }
  assert (E : num_leb (Fin d) (num_of_Z 1) = true).
  { cbn. apply Qle_bool_iff. apply Hd. }
  rewrite E. exists (x + 10)%Z. split; [apply num_add_Z|]; lia.
Qed.

(** *** The length penalty *)

(** A text has at most one token for every two of its characters,
    rounded up. *)
Lemma split_go_count (s cur : list ascii) :
  2 * List.length (List.filter nonempty (split_go cur s))
  <= List.length s + 1 + match cur with [] => 0 | _ :: _ => 1 end.
Proof.
  revert cur. induction s as [|c s IH]; intros cur; cbn [split_go].
  - destruct cur as [|d cur]; [cbn; lia|].
    cbn [List.filter]. destruct (nonempty _); cbn [List.length]; lia.
  - destruct (Ascii.eqb c " ").
    + cbn [List.filter]. specialize (IH []). cbn [List.length] in *.
      destruct cur as [|d cur].
      * change (nonempty (text (rev []))) with false. cbv iota. lia.
      * destruct (nonempty _); cbn [List.length]; lia.
    + specialize (IH (c :: cur)). cbn [List.length] in *.
      destruct cur; lia.
Qed.

Lemma tokens_of_count (s : string) :
  2 * List.length (tokens_of s) <= String.length s + 1.
Proof.
  unfold tokens_of, split_space. pose proof (split_go_count (chars s) []) as H.
  rewrite length_chars in H. lia.
Qed.

(** A whole number of quarters below [2^51] is a double. *)
Lemma round64_quarters (m : Z) :
  (Z.abs m < 2 ^ 53)%Z ->
  round64 (inject_Z m * (1 # 4)) = Fin (Qred (inject_Z m * (1 # 4))).
Proof.
  intros H. apply (round64_exact _ (-2)%Z).
  - exists m. reflexivity.
  - lia.
  - lia.
  - change (-2 + 53)%Z with 51%Z. rewrite pow2_nonneg by lia.
    assert (B : (Qabs (inject_Z m) < inject_Z (2 ^ 53))%Q)
      by (apply Qabs_inject_Z_lt, H).
    rewrite Qabs_Qmult. change (Qabs (1 # 4)) with (1 # 4)%Q.
    change (inject_Z (2 ^ 53)) with (inject_Z (2 ^ 51) * 4)%Q in B.
    lra.
Qed.

(** The last step of [rankScore] on a whole score and a count of
    surplus tokens is exact. *)
Lemma penalty_exact (n k : Z) :
  (0 <= n < 2 ^ 20)%Z -> (0 <= k < 2 ^ 53 - 2 ^ 23)%Z ->
  num_sub (num_of_Z n) (num_mul (num_of_Z k) (Fin (1 # 4)))
  = Fin (Qred (inject_Z (4 * n - k) * (1 # 4))).
Proof.
  intros Hn Hk. unfold num_of_Z. cbn [num_mul].
  rewrite round64_quarters by lia. cbn [num_sub].
  rewrite (round64_comp _ (inject_Z (4 * n - k) * (1 # 4))).
  - apply round64_quarters. lia.
  - rewrite Qred_correct. unfold Z.sub.
    rewrite inject_Z_plus, inject_Z_mult, inject_Z_opp.
    change (inject_Z 4) with 4%Q. field.
Qed.

Lemma penalty_order (n1 n2 k : Z) :
  (0 <= n1 < 2 ^ 20)%Z -> (0 <= n2 < 2 ^ 20)%Z -> (0 <= k < 2 ^ 53 - 2 ^ 23)%Z ->
  num_ltb (num_sub (num_of_Z n1) (num_mul (num_of_Z k) (Fin (1 # 4))))
          (num_sub (num_of_Z n2) (num_mul (num_of_Z k) (Fin (1 # 4))))
  = (n1 <? n2)%Z.
Proof.
  intros H1 H2 Hk. rewrite !penalty_exact by assumption. cbn [num_ltb].
  assert (E : forall a b : Z,
             (Qred (inject_Z a * (1 # 4)) <= Qred (inject_Z b * (1 # 4)))%Q
             <-> (a <= b)%Z).
  { intros a b. rewrite !Qred_correct, Zle_Qle. split; intros; lra. }
  destruct (Z.ltb_spec n1 n2) as [L|L].
  - apply negb_true_iff. destruct (Qle_bool _ _) eqn:Q; [|reflexivity].
    apply Qle_bool_iff in Q. apply (proj1 (E _ _)) in Q. lia.
  - apply negb_false_iff, Qle_bool_iff. apply (proj2 (E _ _)). lia.
Qed.

(** *** The query [15 pro 256] *)

Lemma token_best_Z (tok : string) (hs : list string) :
  (0 <= Z.of_nat (token_best tok hs) <= 10)%Z.
Proof. pose proof (token_best_le tok hs). lia. Qed.

Lemma score_int_range (hay : string) (hayTokens : list string) :
  (0 <= score_int hay hayTokens <= 94)%Z.
Proof.
  unfold score_int.
  pose proof (token_best_Z "15" hayTokens). pose proof (token_best_Z "pro" hayTokens).
  pose proof (token_best_Z "256" hayTokens).
  repeat match goal with |- context [if ?c then _ else _] => destruct c end; lia.
Qed.

(** The score of a row for the query, with the sums of the text
    signals, which are exact, written in [Z]. *)
Lemma rankScore_15_pro_256 (row : prow) :
  rankScore row "15 pro 256"
  = num_sub
      (if 0 <? List.length (extractNums (tokens_of (search row)))
       then numeric_stage
              (num_of_Z (score_int (search row) (tokens_of (search row))))
              (best_delta [num_of_Z 15; num_of_Z 256]
                 (extractNums (tokens_of (search row))))
       else num_of_Z (score_int (search row) (tokens_of (search row))))
      (num_mul
         (num_of_Z (Z.max 0 (Z.of_nat (List.length (tokens_of (search row))) - 3)))
         (Fin (1 # 4))).
Proof.
  unfold rankScore. cbv zeta.
  assert (Enq : normText "15 pro 256" = "15 pro 256") by (vm_compute; reflexivity).
  rewrite Enq.
  assert (Etok : tokens_of "15 pro 256" = q_tokens) by (vm_compute; reflexivity).
  rewrite Etok.
  assert (Eq : extractNums q_tokens = [num_of_Z 15; num_of_Z 256])
    by (vm_compute; reflexivity).
  rewrite Eq.
  change (String.eqb "15 pro 256" EmptyString) with false. cbv iota.
  set (hay := search row). set (hs := tokens_of hay).
  set (s3 := fold_left _ q_tokens _).
  assert (Hs3 : s3 = num_of_Z (score_int hay hs)).
  { unfold s3, q_tokens, score_int. cbn [fold_left].
    change (phrase_score hay ["15"; "pro"; "256"])
      with (fun sc =>
              let sc := if includes hay "15 pro" then num_add sc (num_of_Z 12) else sc in
              if includes hay "pro 256" then num_add sc (num_of_Z 12) else sc).
    cbv beta zeta.
    pose proof (token_best_Z "15" hs). pose proof (token_best_Z "pro" hs).
    pose proof (token_best_Z "256" hs).
    destruct (includes hay "15 pro 256"), (includes hay "15 pro"),
      (includes hay "pro 256");
      rewrite !num_add_Z by lia; f_equal; lia. }
  rewrite Hs3. reflexivity.
Qed.

Lemma blob15_head :
  chars (normText "iPhone 15 Pro 256GB" ++ " "
         ++ trim (replaceAll re_spaces " "
                    (replaceAll re_brand EmptyString
                       (normText "iPhone 15 Pro 256GB"))))%string
  = "i"%char :: head15 ++ ["b"%char].
Proof. vm_compute. reflexivity. Qed.

Lemma blob14_head :
  chars (normText "iPhone 14 Pro 256GB" ++ " "
         ++ trim (replaceAll re_spaces " "
                    (replaceAll re_brand EmptyString
                       (normText "iPhone 14 Pro 256GB"))))%string
  = "i"%char :: head14 ++ ["b"%char].
Proof. vm_compute. reflexivity. Qed.

Lemma blob15_tokens (sheetName : string) :
  tokens_of (buildSearchBlob "iPhone 15 Pro 256GB" sheetName)
  = ["iphone"; "15"; "pro"; "256gb"; "15"; "pro"; "256gb"]
    ++ tokens_of (normText sheetName).
Proof.
  rewrite (blob_tokens _ _ _ _ _ blob15_head eq_refl eq_refl). reflexivity.
Qed.

Lemma blob14_tokens (sheetName : string) :
  tokens_of (buildSearchBlob "iPhone 14 Pro 256GB" sheetName)
  = ["iphone"; "14"; "pro"; "256gb"; "14"; "pro"; "256gb"]
    ++ tokens_of (normText sheetName).
Proof.
  rewrite (blob_tokens _ _ _ _ _ blob14_head eq_refl eq_refl). reflexivity.
Qed.

Lemma extractNums_app (l1 l2 : list string) :
  extractNums (l1 ++ l2) = extractNums l1 ++ extractNums l2.
Proof. unfold extractNums. apply flat_map_app. Qed.

(** The text signals of the two items: the score of the first in
    full, and that of the second by what the sheet label brings. *)
Lemma score_int_15 (sheetName : string) :
  let S := tokens_of (normText sheetName) in
  score_int (buildSearchBlob "iPhone 15 Pro 256GB" sheetName)
    (tokens_of (buildSearchBlob "iPhone 15 Pro 256GB" sheetName))
  = (74 + Z.of_nat (Nat.max 10 (token_best "pro" S))
     + Z.of_nat (Nat.max 6 (token_best "256" S)))%Z.
Proof.
  cbv zeta. unfold score_int.
  rewrite blob15_tokens, !token_best_app.
  rewrite (blob_includes _ sheetName "15 pro 256" _ _ _ blob15_head eq_refl eq_refl)
    by (vm_compute; reflexivity).
  rewrite (blob_includes _ sheetName "15 pro" _ _ _ blob15_head eq_refl eq_refl)
    by (vm_compute; reflexivity).
  rewrite (blob_includes _ sheetName "pro 256" _ _ _ blob15_head eq_refl eq_refl)
    by (vm_compute; reflexivity).
  set (S := tokens_of (normText sheetName)).
  assert (E1 : token_best "15" ["iphone"; "15"; "pro"; "256gb"; "15"; "pro"; "256gb"] = 10)
    by (vm_compute; reflexivity).
  assert (E2 : token_best "pro" ["iphone"; "15"; "pro"; "256gb"; "15"; "pro"; "256gb"] = 10)
    by (vm_compute; reflexivity).
  assert (E3 : token_best "256" ["iphone"; "15"; "pro"; "256gb"; "15"; "pro"; "256gb"] = 6)
    by (vm_compute; reflexivity).
  rewrite E1, E2, E3. pose proof (token_best_le "15" S). lia.
Qed.

Lemma score_int_14 (sheetName : string) :
  let S := tokens_of (normText sheetName) in
  let L := normText sheetName in
  score_int (buildSearchBlob "iPhone 14 Pro 256GB" sheetName)
    (tokens_of (buildSearchBlob "iPhone 14 Pro 256GB" sheetName))
  = ((if includes L "15 pro 256" then 40 else 0)
     + (if includes L "15 pro" then 12 else 0) + 12
     + Z.of_nat (Nat.max 3 (token_best "15" S))
     + Z.of_nat (Nat.max 10 (token_best "pro" S))
     + Z.of_nat (Nat.max 6 (token_best "256" S)))%Z.
Proof.
  cbv zeta. unfold score_int.
  rewrite blob14_tokens, !token_best_app.
  rewrite (blob_includes_tail _ sheetName "15 pro 256" _ _ _ blob14_head eq_refl eq_refl)
    by (vm_compute; reflexivity).
  rewrite (blob_includes_tail _ sheetName "15 pro" _ _ _ blob14_head eq_refl eq_refl)
    by (vm_compute; reflexivity).
  rewrite (blob_includes _ sheetName "pro 256" _ _ _ blob14_head eq_refl eq_refl)
    by (vm_compute; reflexivity).
  assert (E4 : token_best "15" ["iphone"; "14"; "pro"; "256gb"; "14"; "pro"; "256gb"] = 3)
    by (vm_compute; reflexivity).
  assert (E5 : token_best "pro" ["iphone"; "14"; "pro"; "256gb"; "14"; "pro"; "256gb"] = 10)
    by (vm_compute; reflexivity).
  assert (E6 : token_best "256" ["iphone"; "14"; "pro"; "256gb"; "14"; "pro"; "256gb"] = 6)
    by (vm_compute; reflexivity).
  rewrite E4, E5, E6. reflexivity.
Qed.

(** *** When the sheet label repeats the query *)

Lemma fold_max_ge {A} (v : A -> nat) (hs : list A) (h : A) :
  In h hs -> forall b, v h <= fold_left (fun best x => Nat.max best (v x)) hs b.
Proof.
  induction hs as [|x hs IH]; intros Hin b; [destruct Hin|].
  cbn [fold_left]. destruct Hin as [->|Hin]; [|apply IH, Hin].
  rewrite fold_max_from. lia.
Qed.

Lemma token_best_present (tok : string) (hs : list string) :
  In tok hs -> token_best tok hs = 10.
Proof.
  intros Hin. pose proof (token_best_le tok hs) as U.
  rewrite token_best_eq in *.
  pose proof (fold_max_ge (token_val tok) hs tok Hin 0) as G.
  unfold token_val at 1 in G. rewrite String.eqb_refl in G. lia.
Qed.

Lemma includes_shorter (s : string) (p1 p2 : string) :
  includes s (p1 ++ p2) = true -> includes s p1 = true.
Proof.
  unfold includes. rewrite chars_append, !includes_go_spec.
  intros (pre & post & ->). exists pre, (chars p2 ++ post).
  rewrite <- !app_assoc. reflexivity.
Qed.

Lemma extractNums_15 (hs : list string) :
  In "15"%string hs -> In (num_of_Z 15) (extractNums hs).
Proof.
  intros Hin. unfold extractNums. apply in_flat_map. exists "15"%string.
  split; [exact Hin|]. vm_compute. left. reflexivity.
Qed.

Lemma nearer_at_least_0 (qn bd hn : num) :
  at_least_0 bd -> at_least_0 (nearer qn bd hn).
Proof.
  intros H. unfold nearer.
  destruct (num_ltb (num_abs (num_sub hn qn)) bd) eqn:L; [|exact H].
  destruct (num_sub hn qn) as [x| | |]; cbn [num_abs] in *.
  - unfold at_least_0. cbn. apply Qle_bool_iff. apply Qabs_nonneg.
  - reflexivity.
  - reflexivity.
  - destruct bd; discriminate L.
Qed.

Lemma nearer_hit (bd : num) :
  at_least_0 bd ->
  exists z, nearer (num_of_Z 15) bd (num_of_Z 15) = Fin z /\ (z == 0)%Q.
Proof.
  intros H. apply at_least_0_cases in H.
  change (nearer (num_of_Z 15) bd (num_of_Z 15))
    with (if num_ltb (Fin 0) bd then Fin 0 else bd).
  destruct H as [->|(d & -> & Hd)].
  - exists 0%Q. split; reflexivity.
  - cbn [num_ltb]. destruct (Qle_bool d 0) eqn:E; cbn [negb].
    + exists d. split; [reflexivity|]. apply Qle_bool_iff in E. lra.
    + exists 0%Q. split; reflexivity.
Qed.

Lemma fold_nearer_hit (ns : list num) :
  In (num_of_Z 15) ns ->
  forall bd, at_least_0 bd ->
    exists z, fold_left (nearer (num_of_Z 15)) ns bd = Fin z /\ (z == 0)%Q.
Proof.
  induction ns as [|n ns IH]; intros Hin bd Hbd; [destruct Hin|].
  cbn [fold_left]. destruct Hin as [->|Hin].
  - destruct (nearer_hit bd Hbd) as (z & -> & Hz).
    exists z. split; [apply nearer_zero, Hz|exact Hz].
  - apply IH; [exact Hin|]. apply nearer_at_least_0, Hbd.
Qed.

(** With 15 anywhere among the numbers of the haystack the least
    difference is 0. *)
Lemma best_delta_hit (ns : list num) :
  In (num_of_Z 15) ns ->
  exists z, best_delta [num_of_Z 15; num_of_Z 256] ns = Fin z /\ (z == 0)%Q.
Proof.
  intros Hin. rewrite best_delta_eq. cbn [fold_left].
  destruct (fold_nearer_hit ns Hin PInf eq_refl) as (z & -> & Hz).
  exists z. split; [apply nearer_zero, Hz|exact Hz].
Qed.

Lemma numeric_stage_hit (x : Z) (z : Q) :
  (z == 0)%Q -> (Z.abs (x + 25) < 2 ^ 53)%Z ->
  numeric_stage (num_of_Z x) (Fin z) = num_of_Z (x + 25).
Proof.
  intros Hz H. unfold numeric_stage. cbn [num_eqb num_of_Z].
  assert (E : Qeq_bool z (inject_Z 0) = true) by (apply Qeq_bool_iff, Hz).
  rewrite E. apply num_add_Z, H.
Qed.

(** *** The two items *)

(** C9, as the code has it.  For the query [15 pro 256] the item named
    [iPhone 15 Pro 256GB] scores strictly higher than the item named
    [iPhone 14 Pro 256GB], both scored over the blobs that
    [buildSearchBlob] makes of the name and the sheet label, unless
    the sheet label, once normalised, both contains the text
    [15 pro 256] and has the token [15]: for such a label the two
    scores are equal.  The normalised label is a string of the page,
    which has fewer than [2^53] characters. *)
Theorem rank_15_above_14 (sheetName : string) (p15 p14 : num) :
  let L := normText sheetName in
  let score15 :=
    rankScore (mkProw "iPhone 15 Pro 256GB" p15
                 (buildSearchBlob "iPhone 15 Pro 256GB" sheetName)) "15 pro 256" in
  let score14 :=
    rankScore (mkProw "iPhone 14 Pro 256GB" p14
                 (buildSearchBlob "iPhone 14 Pro 256GB" sheetName)) "15 pro 256" in
  (Z.of_nat (String.length L) < 2 ^ 53)%Z ->
  (includes L "15 pro 256" = false \/ ~ In "15"%string (tokens_of L) ->
   num_ltb score14 score15 = true)
  /\ (includes L "15 pro 256" = true -> In "15"%string (tokens_of L) ->
      score14 = score15).
Proof.
  cbv zeta. intros Hlen.
  rewrite !rankScore_15_pro_256. cbn [search].
  rewrite score_int_15, score_int_14.
  rewrite blob15_tokens, blob14_tokens, !extractNums_app, !length_app.
  set (L := normText sheetName) in *. set (S := tokens_of L).
  assert (N15 : extractNums ["iphone"; "15"; "pro"; "256gb"; "15"; "pro"; "256gb"]
                = [num_of_Z 15; num_of_Z 15]) by (vm_compute; reflexivity).
  assert (N14 : extractNums ["iphone"; "14"; "pro"; "256gb"; "14"; "pro"; "256gb"]
                = [num_of_Z 14; num_of_Z 14]) by (vm_compute; reflexivity).
  rewrite N15, N14. cbn [app List.length Nat.ltb Nat.leb Nat.add].
  rewrite best_delta_exact.
  pose proof (tokens_of_count L) as Hcount. fold S in Hcount.
  pose proof (token_best_le "15" S) as B15.
  pose proof (token_best_le "pro" S) as Bpro.
  pose proof (token_best_le "256" S) as B256.
  set (k := Z.max 0 _).
  assert (Hk : (0 <= k < 2 ^ 53 - 2 ^ 23)%Z) by (subst k; lia).
  set (n15 := (74 + Z.of_nat (Nat.max 10 (token_best "pro" S))
               + Z.of_nat (Nat.max 6 (token_best "256" S)))%Z).
  set (n14 := (_ + Z.of_nat (Nat.max 6 (token_best "256" S)))%Z).
  assert (R15 : (0 <= n15 <= 94)%Z) by (subst n15; lia).
  assert (R14 : (0 <= n14 <= 94)%Z).
  { subst n14. destruct (includes L "15 pro 256"), (includes L "15 pro"); lia. }
  rewrite (numeric_stage_zero n15) by lia.
  split.
  - intros Hcase.
    destruct (numeric_stage_near n14
                (best_delta [num_of_Z 15; num_of_Z 256]
                   (num_of_Z 14 :: num_of_Z 14 :: extractNums S))
                (best_delta_near _) ltac:(lia)) as (y & -> & Hy).
    rewrite penalty_order by lia. apply Z.ltb_lt.
    assert (n14 < n15)%Z; [|lia].
    subst n14 n15. destruct Hcase as [Hinc|Hno].
    + rewrite Hinc. destruct (includes L "15 pro"); lia.
    + pose proof (token_best_absent "15" S Hno).
      destruct (includes L "15 pro 256"), (includes L "15 pro"); lia.
  - intros Hinc Hin.
    destruct (best_delta_hit (num_of_Z 14 :: num_of_Z 14 :: extractNums S))
      as (z & -> & Hz).
    { right; right. apply extractNums_15, Hin. }
    rewrite (numeric_stage_hit n14 z Hz) by lia.
    assert (n14 = n15); [|congruence].
    subst n14 n15. rewrite Hinc.
    rewrite (includes_shorter L "15 pro" " 256" Hinc).
    rewrite (token_best_present "15" S Hin). lia.
Qed.

(** ** More on the edit distance *)

Lemma lev_prefix_lower (a b : list ascii) :
  forall i j, abs_diff i j <= lev_prefix a b i j.
Proof.
  unfold abs_diff.
  induction i as [|i IHi]; intros j; [cbn; lia|].
  induction j as [|j IHj]; [cbn; lia|].
  rewrite lev_prefix_step.
  pose proof (IHi (S j)). pose proof (IHi j).
  destruct (bool_decide (a !! i = b !! j)); lia.
Qed.

Lemma lev_prefix_upper (a b : list ascii) :
  forall i j, lev_prefix a b i j <= Nat.max i j.
Proof.
  induction i as [|i IHi]; intros j; [cbn; lia|].
  induction j as [|j IHj]; [cbn; lia|].
  rewrite lev_prefix_step.
  pose proof (IHi (S j)). pose proof (IHi j).
  destruct (bool_decide (a !! i = b !! j)); lia.
Qed.

Lemma lev_prefix_sym (a b : list ascii) :
  forall i j, lev_prefix a b i j = lev_prefix b a j i.
Proof.
  induction i as [|i IHi]; intros j.
  - rewrite lev_prefix_0_r. reflexivity.
  - induction j as [|j IHj]; [reflexivity|].
    rewrite !lev_prefix_step, IHj, (IHi (S j)), (IHi j).
    assert (E : bool_decide (a !! i = b !! j) = bool_decide (b !! j = a !! i)).
    { apply bool_decide_ext. split; intros H; symmetry; exact H. }
    rewrite E. lia.
Qed.

Lemma lev_prefix_zero (a b : list ascii) :
  forall i j,
    lev_prefix a b i j = 0 ->
    i = j /\ forall k, k < i -> a !! k = b !! k.
Proof.
  intros i j H.
  pose proof (lev_prefix_lower a b i j) as Hlow. unfold abs_diff in Hlow.
  assert (i = j) as <- by lia. split; [reflexivity|].
  induction i as [|i IH]; intros k Hk; [lia|].
  rewrite lev_prefix_step in H.
  pose proof (lev_prefix_lower a b i (S i)) as L1.
  pose proof (lev_prefix_lower a b (S i) i) as L2.
  destruct (bool_decide_reflect (a !! i = b !! i)) as [E|E]; [|lia].
  destruct (decide (k = i)) as [->|Hne]; [exact E|].
  apply IH; lia.
Qed.

(** The laws of the distance that [levenshtein] computes: it is 0
    exactly for equal strings, it does not depend on the order of its
    arguments, and it lies between the difference of the two lengths
    and the greater of them. *)
Theorem levenshtein_laws (a b : string) :
  (levenshtein a b = 0 <-> a = b)
  /\ levenshtein a b = levenshtein b a
  /\ abs_diff (String.length a) (String.length b) <= levenshtein a b
  /\ levenshtein a b <= Nat.max (String.length a) (String.length b).
Proof.
  split; [split|].
  - rewrite levenshtein_correct. unfold lev_distance. intros H.
    apply lev_prefix_zero in H. destruct H as [Hlen Hk].
    apply chars_inj. apply list_eq. intros k.
    destruct (decide (k < String.length a)) as [Hlt|Hge]; [apply Hk, Hlt|].
    rewrite !lookup_ge_None_2; [reflexivity| |]; rewrite length_chars; lia.
  - intros ->. unfold levenshtein. rewrite String.eqb_refl. reflexivity.
  - rewrite !levenshtein_correct. unfold lev_distance.
    split; [apply lev_prefix_sym|].
    split; [apply lev_prefix_lower|apply lev_prefix_upper].
Qed.

(** The test on the lengths in [fuzzyTokenMatch] never changes its
    answer: a haystack token more than 3 characters longer or shorter
    is already beyond the edit bound. *)
Theorem fuzzyTokenMatch_length_test_redundant (t : string) (hayTokens : list string) :
  fuzzyTokenMatch t hayTokens = true
  <-> t = EmptyString
      \/ (exists h, In h hayTokens /\ includes h t = true)
      \/ (exists h,
            In h hayTokens
            /\ levenshtein t h <= (if 6 <=? String.length t then 2 else 1)).
Proof.
  rewrite fuzzyTokenMatch_iff. unfold within_edits.
  split; intros [H|[(h & Hin & Hh)|(h & Hin & Hh)]]; auto.
  - right; left. exists h. split; [exact Hin|apply includes_spec, Hh].
  - right; right. exists h. split; [exact Hin|].
    rewrite levenshtein_correct. tauto.
  - right; left. exists h. split; [exact Hin|apply includes_spec, Hh].
  - right; right. exists h. split; [exact Hin|].
    rewrite levenshtein_correct in Hh.
    pose proof (lev_prefix_lower (chars t) (chars h)
                  (String.length t) (String.length h)) as Hlow.
    split; [|exact Hh].
    unfold lev_distance, abs_diff in *. destruct (6 <=? String.length t); lia.
Qed.

(** A token matches every haystack that holds it, and a match is never
    lost when the haystack grows; against an empty haystack only the
    empty token matches. *)
Theorem fuzzyTokenMatch_monotone (t : string) (h1 h2 : list string) :
  (In t h1 -> fuzzyTokenMatch t h1 = true)
  /\ ((forall h, In h h1 -> In h h2) ->
      fuzzyTokenMatch t h1 = true -> fuzzyTokenMatch t h2 = true)
  /\ (fuzzyTokenMatch t [] = true <-> t = EmptyString).
Proof.
  split; [|split].
  - intros Hin. apply fuzzyTokenMatch_iff. right; left.
    exists t. split; [exact Hin|]. exists EmptyString, EmptyString.
    apply chars_inj. rewrite !chars_append. cbn. rewrite app_nil_r. reflexivity.
  - intros Hsub. rewrite !fuzzyTokenMatch_iff.
    intros [H|[(h & Hin & Hh)|(h & Hin & Hh)]]; eauto 6.
  - rewrite fuzzyTokenMatch_iff. split; [|auto].
    intros [H|[(h & [] & _)|(h & [] & _)]]. exact H.
Qed.

(** ** More on rounding and discounts *)

Lemma Math_round_mono (x y : Q) : (x <= y)%Q -> (Math_round x <= Math_round y)%Z.
Proof. intros H. unfold Math_round. apply Qfloor_resp_le. lra. Qed.

Lemma avoid_10_90_mono (r1 r2 : Z) :
  (r1 mod 10 = 0)%Z -> (r2 mod 10 = 0)%Z -> (r1 <= r2)%Z ->
  (avoid_10_90 r1 <= avoid_10_90 r2)%Z.
Proof.
  intros H1 H2 Hle. unfold avoid_10_90.
  destruct (Z.ltb_spec 340 r1), (Z.ltb_spec 340 r2);
    destruct (Z.eqb_spec (r1 mod 100) 10), (Z.eqb_spec (r1 mod 100) 90),
             (Z.eqb_spec (r2 mod 100) 10), (Z.eqb_spec (r2 mod 100) 90);
    zmod.
Qed.


Lemma tens_mono (x y : Q) :
  (x <= y)%Q ->
  (avoid_10_90 (Math_round (x / 10) * 10) <= avoid_10_90 (Math_round (y / 10) * 10))%Z.
Proof.
  intros Hxy. apply avoid_10_90_mono; try (apply Z.mod_mul; lia).
  apply Z.mul_le_mono_nonneg_r; [lia|].
  apply Math_round_mono. apply Qmult_le_r with (z := 10%Q); [reflexivity|].
  field_simplify. lra.
Qed.

Section MoreRounding.

Variable HostProp : jsval -> string -> jsval.
Variable StringToNumber : string -> num.
Variable NumberToString : num -> string.

Lemma below_exact_range (x : Q) :
  (x <= inject_Z (2 ^ 52))%Q -> (x <= inject_Z (2 ^ 53 - 16))%Q.
Proof. intros H. eapply Qle_trans; [exact H|]. rewrite <- Zle_Qle. lia. Qed.


(** Rounding keeps the order of prices: of two prices that binary64
    holds, from 0 to [2^52], the greater is never shown lower than the
    other. *)
Theorem roundPrice_monotone (x y : Q) :
  is_double x = true -> is_double y = true ->
  (0 <= x)%Q -> (x <= y)%Q -> (y <= inject_Z (2 ^ 52))%Q ->
  exists p q : Z,
    roundPrice StringToNumber NumberToString (JNum (Fin x)) = JNum (num_of_Z p)
    /\ roundPrice StringToNumber NumberToString (JNum (Fin y)) = JNum (num_of_Z q)
    /\ (p <= q)%Z.
Proof.
  intros Hx Hy H0 Hxy Hb. do 2 eexists.
  split; [apply roundPrice_double; [exact Hx|exact H0|apply below_exact_range; lra]|].
  split; [apply roundPrice_double; [exact Hy|lra|apply below_exact_range, Hb]|].
  apply tens_mono, Hxy.
Qed.

(** A rule that takes something off a base price above 0 gives a
    double between 0 and the base price. *)
Lemma applyDiscount_le_base (q : Q) (r : rule) :
  is_double q = true -> (0 < q)%Q -> takes_off r ->
  exists a : Q,
    applyDiscount (Fin q) r = Fin a /\ is_double a = true /\ (0 <= a <= q)%Q.
Proof.
  intros Hd Hq (a & b & Ha & Hb & Ha0 & Hb0). unfold applyDiscount.
  rewrite Ha, Hb. unfold num_of_Z. cbn [num_div].
  change (Qeq_bool (inject_Z 100) 0) with false. cbv iota.
  assert (S : Qsign q = 1%Z).
  { unfold Qsign. destruct q as [[|n|n] d]; cbn in *; try reflexivity;
      unfold Qlt in Hq; cbn in Hq; lia. }
  assert (Zero : exists a0 : Q,
             Fin (inject_Z 0) = Fin a0 /\ is_double a0 = true /\ (0 <= a0 <= q)%Q).
  { exists (inject_Z 0). split; [reflexivity|]. split; [reflexivity|].
    change (inject_Z 0) with 0%Q. lra. }
  (* the percent as a fraction is at least 0 *)
  destruct (round64_nonneg (a / inject_Z 100)) as [->|(c & -> & Hc)].
  { apply Qle_shift_div_l; [reflexivity|]. lra. }
  { cbn [num_sub num_mul num_sign]. rewrite S. exact Zero. }
  cbn [num_sub].
  (* the factor is at most 1 *)
  assert (D1 : is_double 1 = true) by (vm_compute; reflexivity).
  destruct (round64_le_double (inject_Z 1 - c) 1 D1) as [->|(f & -> & Hf)].
  { change (inject_Z 1) with 1%Q. lra. }
  { cbn [num_mul num_sign]. rewrite S. exact Zero. }
  cbn [num_mul].
  (* the product is at most the base *)
  destruct (round64_le_double (q * f) q Hd) as [->|(g & Eg & Hg)].
  { assert (X : (0 <= q * (1 - f))%Q) by (apply Qmult_le_0_compat; lra).
    assert (Y : (q * (1 - f) == q - q * f)%Q) by ring.
    rewrite Y in X. lra. }
  { exact Zero. }
  rewrite Eg. cbn [num_sub].
  pose proof (is_double_round64 _ _ Eg) as Dg.
  destruct (round64_le_double (g - b) g Dg) as [->|(h & Eh & Hh)].
  { lra. }
  { exact Zero. }
  rewrite Eh. cbn [num_ltb].
  destruct (Qle_bool (inject_Z 0) h) eqn:E; cbn [negb]; [|exact Zero].
  exists h. split; [reflexivity|]. split; [apply (is_double_round64 _ _ Eh)|].
  apply Qle_bool_iff in E. change (inject_Z 0) with 0%Q in E. lra.
Qed.

(** A discount never raises the displayed price: for a base price
    that binary64 holds, above 0 and at most [2^52], and rules that
    take something off, the price shown is at most the rounded base
    price. *)
Theorem finalPriceFor_at_most_base raw sheetName (q : Q) bucks :
  activeBuckets HostProp StringToNumber NumberToString raw = Ret bucks ->
  is_double q = true -> (0 < q <= inject_Z (2 ^ 52))%Q ->
  Forall (fun b =>
            takes_off (resolveRule HostProp StringToNumber NumberToString raw
                         (label b) sheetName)) bucks ->
  exists p p0 : Z,
    finalPriceFor HostProp StringToNumber NumberToString raw sheetName (Fin q)
    = Ret (JNum (num_of_Z p))
    /\ roundPrice StringToNumber NumberToString (JNum (Fin q)) = JNum (num_of_Z p0)
    /\ (p <= p0)%Z.
Proof.
  intros Hact Hd [Hq Hb] Hall. unfold finalPriceFor. rewrite Hact.
  cbn [mbind res_bind]. rewrite finalPrice_scan_resolveBucket.
  pose proof (roundPrice_double StringToNumber NumberToString q Hd
                (Qlt_le_weak _ _ Hq) (below_exact_range q Hb)) as Rq.
  destruct (resolveBucket (Fin q) bucks) as [b|] eqn:E.
  - apply resolveBucket_some in E. destruct E as (pre & post & -> & _ & _).
    apply Forall_app in Hall. destruct Hall as [_ Hall].
    apply Forall_cons_iff in Hall. destruct Hall as [Hrule _].
    destruct (applyDiscount_le_base q _ Hd Hq Hrule) as (a & -> & Da & Ha0 & Ha).
    do 2 eexists.
    split; [rewrite (roundPrice_double StringToNumber NumberToString a Da Ha0);
            [reflexivity|apply below_exact_range; lra]|].
    split; [exact Rq|]. apply tens_mono, Ha.
  - do 2 eexists. split; [rewrite Rq; reflexivity|]. split; [exact Rq|]. lia.
Qed.

End MoreRounding.

(** ** Storing the configuration *)

Section StoreFacts.

Variable HostProp : jsval -> string -> jsval.
Variable StringToNumber : string -> num.
Variable NumberToString : num -> string.

Lemma map_res_ret {A B C} (f : B -> res C) (h : A -> B) (g : A -> C) (l : list A) :
  (forall a, In a l -> f (h a) = Ret (g a)) ->
  map_res f (List.map h l) = Ret (List.map g l).
Proof.
  induction l as [|a l IH]; intros H; [reflexivity|].
  cbn [map_res List.map]. rewrite (H a) by (left; reflexivity).
  cbn [mbind res_bind]. rewrite IH by (intros; apply H; right; assumption).
  reflexivity.
Qed.

(** The field [buckets] is the last that the stored object lists, and
    is read back from it whatever the host. *)
Lemma stored_buckets (d p b : jsval) :
  is_undef b = false ->
  buckets (getEngineConfig HostProp
             (setEngineConfig (config_object (mkConfig d p b))))
  = coalesce (json_image b) DEFAULT_BUCKETS.
Proof.
  intros Hb. unfold setEngineConfig, config_object, getEngineConfig.
  cbn [defaults perSheet buckets json_image json_props]. rewrite Hb.
  destruct (is_undef d), (is_undef p); reflexivity.
Qed.

Lemma stored_fields (d p b : jsval) :
  plain_config_names HostProp ->
  getEngineConfig HostProp (setEngineConfig (config_object (mkConfig d p b)))
  = mkConfig (coalesce (stored_value d) DEFAULT_RULES)
             (coalesce (stored_value p) (JObj []))
             (coalesce (stored_value b) DEFAULT_BUCKETS).
Proof.
  intros Hhost. unfold setEngineConfig, config_object, getEngineConfig, stored_value.
  cbn [defaults perSheet buckets json_image json_props].
  assert (Hd := fun o => Hhost o "defaults"%string ltac:(cbn; tauto)).
  assert (Hp := fun o => Hhost o "perSheet"%string ltac:(cbn; tauto)).
  assert (Hb := fun o => Hhost o "buckets"%string ltac:(cbn; tauto)).
  destruct (is_undef d), (is_undef p), (is_undef b);
    unfold prop; cbn [own_prop assoc String.eqb Ascii.eqb Bool.eqb];
    rewrite ?Hd, ?Hp, ?Hb; reflexivity.
Qed.

Lemma stored_config_read_back (c : EngineConfig) :
  plain_config_names HostProp ->
  getEngineConfig HostProp (setEngineConfig (config_object c))
  = mkConfig (coalesce (stored_value (defaults c)) DEFAULT_RULES)
             (coalesce (stored_value (perSheet c)) (JObj []))
             (coalesce (stored_value (buckets c)) DEFAULT_BUCKETS).
Proof. destruct c as [d p b]. apply stored_fields. Qed.

(** An upper bound of [Infinity] does not survive storage: it is
    written as [null] and read back as 0, whatever the other fields of
    the configuration. *)
Theorem stored_open_bucket_closes (d p : jsval) (entries : list (string * Q)) :
  activeBuckets HostProp StringToNumber NumberToString
    (setEngineConfig
       (config_object (mkConfig d p (JArr (List.map open_entry entries)))))
  = Ret (List.map (fun e => mkBucket e.1 (Fin e.2) (num_of_Z 0)) entries).
Proof.
  unfold activeBuckets. rewrite stored_buckets by reflexivity.
  cbn [json_image coalesce nullish isArray items].
  rewrite List.map_map.
  apply map_res_ret. intros e _. reflexivity.
Qed.

Lemma json_image_clean : forall v, json_clean v = true -> json_image v = v.
Proof.
  fix IH 1. intros [ | | b | [q| | |] | s | l | o | f]; cbn [json_clean json_image];
    try reflexivity; try discriminate.
  - intros H. f_equal. induction l as [|e l IHl]; [reflexivity|].
    cbn [forallb] in H. apply andb_true_iff in H. destruct H as [He Hl].
    cbn [List.map]. rewrite IHl by exact Hl. rewrite (IH e He).
    destruct e; try reflexivity; discriminate He.
  - intros H. f_equal. induction o as [|[k x] o IHo]; [reflexivity|].
    cbn [forallb snd] in H. apply andb_true_iff in H. destruct H as [He Ho].
    cbn [json_props]. rewrite IHo by exact Ho. rewrite (IH x He).
    destruct x; try reflexivity; discriminate He.
Qed.

Lemma kept_in_store_coalesce (v dflt : jsval) :
  kept_in_store v = true -> coalesce (stored_value v) dflt = v.
Proof.
  unfold kept_in_store, stored_value. intros H.
  apply andb_true_iff in H. destruct H as [Hc Hn].
  assert (U : is_undef v = false) by (destruct v; (reflexivity || discriminate Hc)).
  rewrite U, (json_image_clean v Hc). unfold coalesce.
  apply negb_true_iff in Hn. rewrite Hn. reflexivity.
Qed.

Lemma kept_in_store_defined (v : jsval) : kept_in_store v = true -> is_undef v = false.
Proof. destruct v; (reflexivity || discriminate). Qed.

(** A configuration whose three fields hold no [undefined], no
    function and no number that is not finite, and are not [null], is
    read back from the store exactly as it was written. *)
Theorem clean_config_round_trip (c : EngineConfig) :
  kept_in_store (defaults c) = true ->
  kept_in_store (perSheet c) = true ->
  kept_in_store (buckets c) = true ->
  getEngineConfig HostProp (setEngineConfig (config_object c)) = c.
Proof.
  intros Hd Hp Hb. destruct c as [d p b]. cbn [defaults perSheet buckets] in *.
  pose proof (kept_in_store_coalesce d DEFAULT_RULES Hd) as Ed.
  pose proof (kept_in_store_coalesce p (JObj []) Hp) as Ep.
  pose proof (kept_in_store_coalesce b DEFAULT_BUCKETS Hb) as Eb.
  apply kept_in_store_defined in Hd, Hp, Hb.
  unfold stored_value in *. rewrite Hd in Ed. rewrite Hp in Ep. rewrite Hb in Eb.
  unfold setEngineConfig, config_object, getEngineConfig.
  cbn [defaults perSheet buckets json_image json_props]. rewrite Hd, Hp, Hb.
  unfold prop. cbn [own_prop assoc String.eqb Ascii.eqb Bool.eqb].
  rewrite Ed, Ep, Eb. reflexivity.
Qed.

Lemma roundPrice_Qeq (x y : Q) :
  (x == y)%Q ->
  roundPrice StringToNumber NumberToString (JNum (Fin x))
  = roundPrice StringToNumber NumberToString (JNum (Fin y)).
Proof.
  intros H.
  assert (E : num_div (Fin x) (num_of_Z 10) = num_div (Fin y) (num_of_Z 10)).
  { unfold num_of_Z. cbn [num_div]. change (Qeq_bool (inject_Z 10) 0) with false.
    cbv iota. apply round64_comp. rewrite H. reflexivity. }
  unfold roundPrice. cbn [ToNumber isFinite negb]. rewrite E. reflexivity.
Qed.

Lemma above_bucket (l h q : Q) :
  (h < q)%Q -> num_leb (Fin l) (Fin q) && num_leb (Fin q) (Fin h) = false.
Proof.
  intros H. cbn [num_leb]. destruct (Qle_bool q h) eqn:E; [|apply andb_false_r].
  apply Qle_bool_iff in E. lra.
Qed.

Lemma scan_closed_buckets raw sheetName (q : Q) :
  (470 <= q)%Q ->
  finalPrice_scan HostProp StringToNumber NumberToString raw sheetName (Fin q)
    closed_buckets
  = roundPrice StringToNumber NumberToString (JNum (Fin q)).
Proof.
  intros H. unfold closed_buckets, num_of_Z. cbn [finalPrice_scan lo hi].
  rewrite !above_bucket; [reflexivity|..];
    match goal with |- (inject_Z ?z < q)%Q =>
      let c := eval vm_compute in (inject_Z z) in change (inject_Z z) with c end;
    lra.
Qed.

End StoreFacts.

(** ** Reset and first boot *)

Section BootFacts.

Variable HostProp : jsval -> string -> jsval.
Variable StringToNumber : string -> num.
Variable NumberToString : num -> string.

Lemma point_nine_value : point_nine = Fin (8106479329266893 # 9007199254740992).
Proof. vm_compute. reflexivity. Qed.

(** Taking 0 off a double leaves it. *)
Lemma num_sub_zero (x : Q) :
  num_sub (round64 x) (num_of_Z 0) = round64 x.
Proof.
  destruct (round64 x) as [r| | |] eqn:E; try reflexivity.
  unfold num_of_Z. cbn [num_sub].
  rewrite (round64_comp (r - inject_Z 0) r)
    by (change (inject_Z 0) with 0%Q; ring).
  apply (round64_idem x r E).
Qed.

(** The reset button costs the top bucket its discount: on a page that
    has never stored a configuration a price of 470 or more is shown
    with 10 percent off, and after a reset it is shown rounded, with
    nothing taken off.  The sheet name and the label of the top bucket
    are taken not to name an inherited property of an object. *)
Theorem reset_drops_top_discount (sheetName : string) (q : Q) :
  (470 <= q)%Q ->
  HostProp (JObj []) sheetName = JUndef ->
  HostProp (JObj []) "470+" = JUndef ->
  finalPriceFor HostProp StringToNumber NumberToString None sheetName (Fin q)
  = Ret (roundPrice StringToNumber NumberToString
           (JNum (num_mul (Fin q) point_nine)))
  /\ finalPriceFor HostProp StringToNumber NumberToString resetEngine sheetName (Fin q)
     = Ret (roundPrice StringToNumber NumberToString (JNum (Fin q))).
Proof.
  intros H Hs Hl. split.
  - unfold finalPriceFor.
    change (activeBuckets HostProp StringToNumber NumberToString None)
      with (Ret [ mkBucket "1-100" (Fin (inject_Z 1)) (Fin (inject_Z 100));
                  mkBucket "101-220" (Fin (inject_Z 101)) (Fin (inject_Z 220));
                  mkBucket "221-300" (Fin (inject_Z 221)) (Fin (inject_Z 300));
                  mkBucket "301-469" (Fin (inject_Z 301)) (Fin (inject_Z 469));
                  mkBucket "470+" (Fin (inject_Z 470)) PInf ]).
    cbn [mbind res_bind finalPrice_scan lo hi label].
    rewrite !above_bucket by
      (match goal with |- (inject_Z ?z < q)%Q =>
         let c := eval vm_compute in (inject_Z z) in change (inject_Z z) with c end;
       lra).
    assert (E : num_leb (Fin (inject_Z 470)) (Fin q) = true)
      by (apply Qle_bool_iff; exact H).
    rewrite E. cbn [andb num_leb].
    assert (R : resolveRule HostProp StringToNumber NumberToString None "470+" sheetName
                = mkRule (Some (num_of_Z 10)) None).
    { assert (P1 : prop HostProp (JObj []) sheetName = JUndef) by exact Hs.
      assert (P2 : prop HostProp (JObj []) "470+" = JUndef) by exact Hl.
      assert (P3 : prop HostProp DEFAULT_RULES "470+" = JNum (num_of_Z 10))
        by reflexivity.
      unfold resolveRule, getEngineConfig. cbn [perSheet defaults].
      rewrite P1. cbn [truthy andb]. rewrite P2, P3. reflexivity. }
    rewrite R. cbn [pct flat].
    change (or_zero (Some (num_of_Z 10))) with (num_of_Z 10).
    change (or_zero None) with (num_of_Z 0).
    fold point_nine. rewrite point_nine_value. cbn [num_mul].
    rewrite num_sub_zero.
    assert (N : num_ltb (round64 (q * (8106479329266893 # 9007199254740992)))
                  (num_of_Z 0) = false).
    { destruct (round64_nonneg (q * (8106479329266893 # 9007199254740992)))
        as [->|(r & -> & Hr)].
      - apply Qmult_le_0_compat; [lra|discriminate].
      - reflexivity.
      - cbn. apply negb_false_iff, Qle_bool_iff. exact Hr. }
    rewrite N. reflexivity.
  - unfold finalPriceFor.
    change (activeBuckets HostProp StringToNumber NumberToString resetEngine)
      with (Ret closed_buckets).
    cbn [mbind res_bind]. f_equal. apply scan_closed_buckets, H.
Qed.

Lemma merge_keeps_default_buckets (r : jsval) :
  isArray (prop HostProp r "buckets") = false ->
  buckets (mergeConfig HostProp StringToNumber NumberToString
             (getEngineConfig HostProp None) r)
  = DEFAULT_BUCKETS.
Proof.
  intros H. unfold mergeConfig. rewrite H.
  destruct (truthy r && is_object r); [|reflexivity].
  destruct (truthy (prop HostProp r "defaults") && is_object (prop HostProp r "defaults"));
    destruct (truthy (prop HostProp r "perSheet") && is_object (prop HostProp r "perSheet"));
    reflexivity.
Qed.

(** The first boot does the same when a remote configuration arrives
    that names no buckets: the compiled-in buckets are stored, the top
    bucket is read back closed at 0, and a price of 470 or more is
    shown with nothing taken off. *)
Theorem first_boot_drops_top_discount (r : jsval) (sheetName : string) (q : Q) :
  truthy r = true ->
  isArray (prop HostProp r "buckets") = false ->
  (470 <= q)%Q ->
  activeBuckets HostProp StringToNumber NumberToString
    (initEngineConfigFromServer HostProp StringToNumber NumberToString None (Some r))
  = Ret closed_buckets
  /\ finalPriceFor HostProp StringToNumber NumberToString
       (initEngineConfigFromServer HostProp StringToNumber NumberToString None (Some r))
       sheetName (Fin q)
     = Ret (roundPrice StringToNumber NumberToString (JNum (Fin q))).
Proof.
  intros Ht Hb Hq.
  assert (E : activeBuckets HostProp StringToNumber NumberToString
                (initEngineConfigFromServer HostProp StringToNumber NumberToString
                   None (Some r))
              = Ret closed_buckets).
  { unfold initEngineConfigFromServer. rewrite Ht.
    pose proof (merge_keeps_default_buckets r Hb) as Hm.
    destruct (mergeConfig HostProp StringToNumber NumberToString
                (getEngineConfig HostProp None) r)
      as [d p b]. cbn [buckets] in Hm. subst b.
    unfold activeBuckets. rewrite stored_buckets by reflexivity. reflexivity. }
  split; [exact E|].
  unfold finalPriceFor. rewrite E. cbn [mbind res_bind]. f_equal.
  apply scan_closed_buckets, Hq.
Qed.

Lemma remote_buckets_merged (cur : EngineConfig) (r b : jsval) :
  is_object r = true -> prop HostProp r "buckets" = b -> isArray b = true ->
  buckets (mergeConfig HostProp StringToNumber NumberToString cur r)
  = sanitizeBuckets HostProp StringToNumber NumberToString b.
Proof.
  intros Ho Hp Hb. unfold mergeConfig. rewrite Hp, Hb.
  assert (Ht : truthy r = true) by (destruct r; (reflexivity || discriminate)).
  rewrite Ht, Ho. reflexivity.
Qed.

(** A remote configuration whose buckets leave the upper bound [null]
    gives buckets with no upper bound: the loader writes the word
    Infinity, which the store keeps and [Number] reads as infinity. *)
Theorem remote_null_bound_stays_open (raw : store) (r : jsval)
    (entries : list (string * Q)) :
  StringToNumber "Infinity" = PInf ->
  is_object r = true ->
  prop HostProp r "buckets" = JArr (List.map remote_entry entries) ->
  activeBuckets HostProp StringToNumber NumberToString
    (initEngineConfigFromServer HostProp StringToNumber NumberToString raw (Some r))
  = Ret (List.map open_bucket entries).
Proof.
  intros Hinf Ho Hp. unfold initEngineConfigFromServer.
  assert (Ht : truthy r = true) by (destruct r; (reflexivity || discriminate)).
  rewrite Ht.
  pose proof (remote_buckets_merged (getEngineConfig HostProp raw) r _ Ho Hp eq_refl)
    as Hm.
  destruct (mergeConfig HostProp StringToNumber NumberToString
              (getEngineConfig HostProp raw) r)
    as [d p b]. cbn [buckets] in Hm. subst b.
  unfold activeBuckets. rewrite stored_buckets by reflexivity.
  cbn [sanitizeBuckets json_image coalesce nullish isArray items].
  rewrite !List.map_map. apply map_res_ret. intros [l x] _.
  vm_compute. rewrite Hinf. reflexivity.
Qed.

(** Sanitizing the buckets twice is sanitizing them once. *)
Theorem sanitizeBuckets_idempotent (b : jsval) :
  sanitizeBuckets HostProp StringToNumber NumberToString
    (sanitizeBuckets HostProp StringToNumber NumberToString b)
  = sanitizeBuckets HostProp StringToNumber NumberToString b.
Proof.
  destruct b as [ | | ? | ? | ? | l | ? | ?]; try reflexivity.
  cbn [sanitizeBuckets]. f_equal. rewrite List.map_map.
  apply List.map_ext. intros [ | | ? | ? | ? | a | ? | ?]; try reflexivity.
  cbv beta iota zeta.
  set (lbl := ToString NumberToString (prop HostProp (JArr a) "0")).
  set (low := ToNumber StringToNumber NumberToString (prop HostProp (JArr a) "1")).
  set (h := if 2 <? List.length a then prop HostProp (JArr a) "2" else JUndef).
  destruct h as [ | | ? | ? | [|c s] | ? | ? | ?]; reflexivity.
Qed.

End BootFacts.

(** ** The shape of normalised text *)

Lemma match_star_greedy (p : ascii -> bool) (caps : list (list ascii)) :
  forall s prev,
    match_star p prev s (fun _ s' => Some (s', caps))
    = Some (List.skipn (run_length p s) s, caps).
Proof.
  induction s as [|c s IH]; intros prev; [reflexivity|].
  cbn [match_star run_length]. destruct (p c); [|reflexivity].
  rewrite IH. reflexivity.
Qed.

Lemma run_length_le (p : ascii -> bool) (s : list ascii) :
  run_length p s <= List.length s.
Proof.
  induction s as [|c s IH]; cbn [run_length List.length]; [lia|].
  destruct (p c); lia.
Qed.

Lemma match_at_plus (p : ascii -> bool) (prev : option ascii) (s : list ascii) :
  match_at (RPlus p) prev s
  = match s with
    | c :: s' => if p c then Some (S (run_length p s'), []) else None
    | [] => None
    end.
Proof.
  unfold match_at. destruct s as [|c s']; [reflexivity|].
  cbn [rmatch]. destruct (p c); [|reflexivity].
  rewrite match_star_greedy. f_equal. f_equal.
  rewrite List.length_skipn. pose proof (run_length_le p s'). cbn [List.length]. lia.
Qed.

(** Replacing the runs of a class is [collapse]. *)
Lemma replace_go_plus (p : ascii -> bool) (by_ : list ascii) :
  forall s prev,
    replace_go (RPlus p) (fun _ => by_) prev 0 s = collapse p by_ false s
    /\ replace_go (RPlus p) (fun _ => by_) prev (run_length p s) s
       = collapse p by_ true s.
Proof.
  induction s as [|c s IH]; intros prev.
  { split; reflexivity. }
  assert (H0 : replace_go (RPlus p) (fun _ => by_) prev 0 (c :: s)
               = collapse p by_ false (c :: s)).
  { cbn [replace_go collapse]. rewrite match_at_plus.
    destruct (p c).
    - rewrite (proj2 (IH (Some c))). reflexivity.
    - rewrite (proj1 (IH (Some c))). reflexivity. }
  split; [exact H0|].
  cbn [run_length]. destruct (p c) eqn:E.
  - cbn [replace_go collapse]. rewrite E. apply IH.
  - rewrite H0. cbn [collapse]. rewrite E. reflexivity.
Qed.

Lemma replaceAll_plus (p : ascii -> bool) (by_ s : string) :
  replaceAll (RPlus p) by_ s = text (collapse p (chars by_) false (chars s)).
Proof.
  unfold replaceAll, replace_with. f_equal. apply replace_go_plus.
Qed.

(** Whatever the pattern, the characters of the result come from the
    subject or from a replacement. *)
Lemma replace_go_Forall (P : ascii -> Prop) (r : regex)
    (repl : list (list ascii) -> list ascii) :
  (forall caps, Forall P (repl caps)) ->
  forall s prev skip, Forall P s -> Forall P (replace_go r repl prev skip s).
Proof.
  intros Hrepl. induction s as [|c s IH]; intros prev skip Hs; cbn [replace_go].
  - destruct skip; [|constructor].
    destruct (match_at r prev []) as [[n caps]|]; [apply Hrepl|constructor].
  - apply Forall_cons_iff in Hs. destruct Hs as [Hc Hs].
    destruct skip as [|n]; [|apply IH, Hs].
    destruct (match_at r prev (c :: s)) as [[[|n] caps]|].
    + apply Forall_app. split; [apply Hrepl|]. constructor; [exact Hc|apply IH, Hs].
    + apply Forall_app. split; [apply Hrepl|apply IH, Hs].
    + constructor; [exact Hc|apply IH, Hs].
Qed.

Lemma collapse_Forall (P : ascii -> Prop) (p : ascii -> bool) (by_ : list ascii) :
  Forall P by_ ->
  (forall c, p c = false -> P c) ->
  forall s inrun, Forall P (collapse p by_ inrun s).
Proof.
  intros Hby Hp. induction s as [|c s IH]; intros inrun; cbn [collapse];
    [constructor|].
  destruct (p c) eqn:E.
  - destruct inrun; [apply IH|]. apply Forall_app. split; [exact Hby|apply IH].
  - constructor; [apply Hp, E|apply IH].
Qed.

Lemma collapse_single_spaced (p : ascii -> bool) :
  p " "%char = true ->
  forall s inrun,
    no_double_space (collapse p [" "%char] inrun s) = true
    /\ (inrun = true -> starts_with_space (collapse p [" "%char] inrun s) = false).
Proof.
  intros Hsp. induction s as [|c s IH]; intros inrun; cbn [collapse].
  { split; reflexivity. }
  destruct (p c) eqn:E.
  - destruct inrun; [apply IH|].
    destruct (IH true) as [H1 H2]. split; [|discriminate].
    cbn [app no_double_space].
    destruct (collapse p [" "%char] true s) as [|d l] eqn:D; [reflexivity|].
    rewrite H1. specialize (H2 eq_refl). cbn [starts_with_space] in H2.
    rewrite H2. cbn. reflexivity.
  - assert (Hc : Ascii.eqb c " " = false).
    { destruct (Ascii.eqb_spec c " "%char) as [->|]; [congruence|reflexivity]. }
    destruct (IH false) as [H1 _]. split.
    + cbn [no_double_space].
      destruct (collapse p [" "%char] false s) as [|d l] eqn:D; [reflexivity|].
      rewrite H1, Hc. reflexivity.
    + intros _. cbn [starts_with_space]. exact Hc.
Qed.

(** *** Trimming *)

Lemma drop_spaces_suffix (l : list ascii) :
  exists a, l = a ++ drop_spaces l /\ Forall (fun c => is_space c = true) a.
Proof.
  induction l as [|c l (a & IH & Ha)]; [exists []; split; [reflexivity|constructor]|].
  cbn [drop_spaces]. destruct (is_space c) eqn:E.
  - exists (c :: a). split; [cbn; f_equal; exact IH|constructor; assumption].
  - exists []. split; [reflexivity|constructor].
Qed.

Lemma rtrim_prefix (l : list ascii) :
  exists b, l = rtrim l ++ b /\ Forall (fun c => is_space c = true) b.
Proof.
  destruct (drop_spaces_suffix (rev l)) as (a & E & Ha).
  exists (rev a). split.
  - unfold rtrim. rewrite <- rev_app_distr, <- E, rev_involutive. reflexivity.
  - apply Forall_forall. intros c Hc. apply in_rev in Hc.
    exact (proj1 (Forall_forall _ _) Ha c Hc).
Qed.

Lemma trim_infix (x : string) :
  exists a b,
    chars x = a ++ chars (trim x) ++ b
    /\ Forall (fun c => is_space c = true) a
    /\ Forall (fun c => is_space c = true) b.
Proof.
  destruct (drop_spaces_suffix (chars x)) as (a & Ea & Ha).
  destruct (rtrim_prefix (drop_spaces (chars x))) as (b & Eb & Hb).
  exists a, b. split; [|split; assumption].
  unfold trim. rewrite chars_text. fold (rtrim (drop_spaces (chars x))).
  rewrite <- Eb. exact Ea.
Qed.

Lemma trim_Forall (P : ascii -> Prop) (x : string) :
  Forall P (chars x) -> Forall P (chars (trim x)).
Proof.
  destruct (trim_infix x) as (a & b & E & _). rewrite E. intros H.
  apply Forall_app in H. destruct H as [_ H].
  apply Forall_app in H. apply H.
Qed.

Lemma drop_spaces_head (l : list ascii) :
  drop_spaces l = []
  \/ exists c t, drop_spaces l = c :: t /\ is_space c = false.
Proof.
  induction l as [|c l IH]; [left; reflexivity|].
  cbn [drop_spaces]. destruct (is_space c) eqn:E; [exact IH|].
  right. exists c, l. split; [reflexivity|exact E].
Qed.

Lemma rtrim_idem (l : list ascii) : rtrim (rtrim l) = rtrim l.
Proof. unfold rtrim. rewrite rev_involutive, drop_spaces_idem. reflexivity. Qed.

Lemma trim_idem (x : string) : trim (trim x) = trim x.
Proof.
  unfold trim. rewrite chars_text. f_equal.
  fold (rtrim (drop_spaces (chars x))).
  fold (rtrim (drop_spaces (rtrim (drop_spaces (chars x))))).
  destruct (drop_spaces_head (chars x)) as [->|(c & t & -> & Hc)]; [reflexivity|].
  destruct (rtrim_cons c t) as [E|E]; rewrite E; [reflexivity|].
  rewrite drop_spaces_solid by exact Hc. rewrite <- E. apply rtrim_idem.
Qed.

Lemma no_double_space_app_r (a l : list ascii) :
  no_double_space (a ++ l) = true -> no_double_space l = true.
Proof.
  induction a as [|c a IH]; [auto|].
  cbn [app no_double_space]. destruct (a ++ l) as [|d m] eqn:E.
  - destruct a; [|discriminate E]. cbn in E. subst l. reflexivity.
  - intros H. apply andb_true_iff in H. apply IH, H.
Qed.

Lemma no_double_space_app_l (l b : list ascii) :
  no_double_space (l ++ b) = true -> no_double_space l = true.
Proof.
  induction l as [|c l IH]; [reflexivity|].
  cbn [app no_double_space]. destruct l as [|d l'].
  - reflexivity.
  - cbn [app]. intros H. apply andb_true_iff in H. destruct H as [H1 H2].
    rewrite H1. apply IH, H2.
Qed.

Lemma no_double_space_infix (pre post : list ascii) :
  no_double_space (pre ++ [" "%char; " "%char] ++ post) = false.
Proof.
  destruct (no_double_space (pre ++ [" "%char; " "%char] ++ post)) eqn:E;
    [|reflexivity].
  apply no_double_space_app_r in E. discriminate E.
Qed.

Lemma kept_space (c : ascii) : keeps c = true -> is_space c = true -> c = " "%char.
Proof.
  destruct c as [[] [] [] [] [] [] [] []]; vm_compute; intros; congruence.
Qed.

Lemma normText_kept (s : string) :
  Forall (fun c => keeps c = true) (chars (normText s)).
Proof.
  unfold normText. destruct (String.eqb s EmptyString); [constructor|]. cbv zeta.
  apply trim_Forall. unfold replaceAll at 1, replace_with. rewrite chars_text.
  apply replace_go_Forall; [intros _; repeat constructor|].
  unfold re_not_kept. rewrite replaceAll_plus, chars_text.
  apply collapse_Forall; [repeat constructor|].
  intros c H. apply negb_false_iff, H.
Qed.

Lemma normText_single_spaced (s : string) :
  no_double_space (chars (normText s)) = true.
Proof.
  unfold normText. destruct (String.eqb s EmptyString); [reflexivity|]. cbv zeta.
  match goal with |- no_double_space (chars (trim ?x)) = true =>
    destruct (trim_infix x) as (a & b & E & _);
    assert (H : no_double_space (chars x) = true)
  end.
  { unfold re_spaces. rewrite replaceAll_plus, chars_text.
    apply collapse_single_spaced. reflexivity. }
  rewrite E in H. apply no_double_space_app_r in H.
  apply no_double_space_app_l in H. exact H.
Qed.

(** What [normText] returns: lower-case letters, digits, dots and
    spaces only, never two spaces side by side, and no white space at
    either end. *)
Theorem normText_shape (s : string) :
  Forall (fun c => keeps c = true) (chars (normText s))
  /\ ~ substring_of "  " (normText s)
  /\ trim (normText s) = normText s.
Proof.
  split; [apply normText_kept|]. split.
  - intros (pre & post & E).
    pose proof (normText_single_spaced s) as H. rewrite E in H.
    rewrite !chars_append in H.
    change (chars "  ") with [" "%char; " "%char] in H.
    rewrite no_double_space_infix in H. discriminate H.
  - unfold normText. destruct (String.eqb s EmptyString); [reflexivity|].
    cbv zeta. apply trim_idem.
Qed.

(** *** The tokens of the search blob *)

Lemma tokens_cons_space (l : list ascii) :
  tokens_of (text (" "%char :: l)) = tokens_of (text l).
Proof. unfold tokens_of, split_space. rewrite !chars_text. reflexivity. Qed.

Lemma tokens_drop_spaces (l : list ascii) :
  Forall (fun c => keeps c = true) l ->
  tokens_of (text (drop_spaces l)) = tokens_of (text l).
Proof.
  induction 1 as [|c l Hc Hl IH]; [reflexivity|].
  cbn [drop_spaces]. destruct (is_space c) eqn:E; [|reflexivity].
  rewrite (kept_space c Hc E), tokens_cons_space. exact IH.
Qed.

Lemma tokens_all_spaces (b : list ascii) :
  Forall (fun c => keeps c = true) b ->
  Forall (fun c => is_space c = true) b ->
  (b = [] \/ exists b', b = " "%char :: b') /\ tokens_of (text b) = [].
Proof.
  induction 1 as [|c b Hc Hb IH]; intros Hs; [split; [left|]; reflexivity|].
  apply Forall_cons_iff in Hs. destruct Hs as [Hs1 Hs2].
  rewrite (kept_space c Hc Hs1). split; [right; eauto|].
  rewrite tokens_cons_space. apply IH, Hs2.
Qed.

Lemma tokens_rtrim (l : list ascii) :
  Forall (fun c => keeps c = true) l ->
  tokens_of (text (rtrim l)) = tokens_of (text l).
Proof.
  intros Hl. destruct (rtrim_prefix l) as (b & E & Hb).
  rewrite E in Hl. apply Forall_app in Hl. destruct Hl as [_ Hkb].
  destruct (tokens_all_spaces b Hkb Hb) as [Hshape Hnil].
  rewrite E at 2. rewrite tokens_of_head_tail by exact Hshape.
  rewrite Hnil, app_nil_r. reflexivity.
Qed.

Lemma tokens_trim (x : string) :
  Forall (fun c => keeps c = true) (chars x) ->
  tokens_of (trim x) = tokens_of x.
Proof.
  intros H. unfold trim. fold (rtrim (drop_spaces (chars x))).
  rewrite tokens_rtrim.
  - rewrite tokens_drop_spaces by exact H. rewrite text_chars. reflexivity.
  - destruct (drop_spaces_suffix (chars x)) as (a & E & _).
    rewrite E in H. apply Forall_app in H. apply H.
Qed.

Lemma brandless_kept (name : string) :
  Forall (fun c => keeps c = true) (chars (brandless name)).
Proof.
  unfold brandless. apply trim_Forall.
  unfold replaceAll, replace_with. rewrite !chars_text.
  apply replace_go_Forall; [intros _; repeat constructor|].
  apply replace_go_Forall; [intros _; constructor|].
  apply normText_kept.
Qed.

Lemma sheet_part_tokens (sheetName : string) :
  Forall (fun c => keeps c = true) (chars (sheet_part sheetName))
  /\ (chars (sheet_part sheetName) = []
      \/ exists r, chars (sheet_part sheetName) = " "%char :: r)
  /\ tokens_of (sheet_part sheetName) = tokens_of (normText sheetName).
Proof.
  unfold sheet_part, nonempty.
  destruct (String.eqb_spec sheetName EmptyString) as [->|Hne]; cbn [negb].
  { split; [constructor|]. split; [left|]; reflexivity. }
  rewrite chars_append. change (chars " ") with [" "%char]. cbn [app].
  split; [constructor; [reflexivity|apply normText_kept]|].
  split; [right; eauto|].
  rewrite <- (text_chars (" " ++ normText sheetName)%string), chars_append.
  change (chars " ") with [" "%char]. cbn [app].
  rewrite tokens_cons_space, text_chars. reflexivity.
Qed.

(** The tokens of the blob are those of the normalised name, then
    those of the name without its brand words, then those of the
    normalised sheet label. *)
Lemma blob_tokens_all (name sheetName : string) :
  tokens_of (buildSearchBlob name sheetName)
  = tokens_of (normText name) ++ tokens_of (brandless name)
    ++ tokens_of (normText sheetName).
Proof.
  unfold buildSearchBlob. cbv zeta. fold (brandless name). fold (sheet_part sheetName).
  destruct (sheet_part_tokens sheetName) as (Hk & Hshape & Htok).
  rewrite tokens_trim.
  - rewrite <- (text_chars (normText name ++ " " ++ brandless name
                            ++ sheet_part sheetName)%string).
    rewrite !chars_append. change (chars " ") with [" "%char].
    rewrite tokens_of_head_tail by (right; eauto).
    rewrite text_chars. f_equal. cbn [app]. rewrite tokens_cons_space.
    rewrite tokens_of_head_tail by exact Hshape.
    rewrite !text_chars, Htok. reflexivity.
  - rewrite !chars_append. change (chars " ") with [" "%char].
    apply Forall_app. split; [apply normText_kept|].
    constructor; [reflexivity|].
    apply Forall_app. split; [apply brandless_kept|exact Hk].
Qed.

Lemma fuzzyTokenMatch_In (t : string) (hayTokens : list string) :
  In t hayTokens -> fuzzyTokenMatch t hayTokens = true.
Proof.
  intros H. apply fuzzyTokenMatch_iff. right. left. exists t.
  split; [exact H|]. exists EmptyString, EmptyString.
  apply chars_inj. rewrite !chars_append. cbn [chars list_ascii_of_string app].
  rewrite app_nil_r. reflexivity.
Qed.

Lemma matchesQuery_tokens_in (row : prow) (q : string) :
  (forall t, In t (tokens_of (normText q)) -> In t (tokens_of (search row))) ->
  matchesQuery row q = true.
Proof.
  intros H. rewrite matchesQuery_forallb. apply forallb_forall.
  intros t Ht. apply fuzzyTokenMatch_In, H, Ht.
Qed.

(** Searching for a device by the name it is indexed under, or for
    the label of its sheet, always finds it: every prepared row passes
    the filter for both queries. *)
Theorem own_name_matches (sheet : string) (rows : list drow) (r : drow) :
  In r rows ->
  exists row,
    In row (prepareIndex sheet rows)
    /\ device row = d_device r
    /\ matchesQuery row (indexed_name r) = true
    /\ matchesQuery row sheet = true.
Proof.
  intros Hin.
  exists (mkProw (d_device r) (d_price r) (buildSearchBlob (indexed_name r) sheet)).
  split; [|split; [reflexivity|]].
  - unfold prepareIndex. apply in_map_iff. exists r. split; [reflexivity|exact Hin].
  - split; apply matchesQuery_tokens_in; intros t Ht; cbn [search];
      rewrite blob_tokens_all, !in_app_iff; auto.
Qed.

(** ** The order of the result list *)

Lemma num_ltb_Fin (a b : Q) : num_ltb (Fin a) (Fin b) = true <-> (a < b)%Q.
Proof.
  cbn [num_ltb]. rewrite negb_true_iff. split.
  - intros H. destruct (Qlt_le_dec a b) as [L|L]; [exact L|].
    apply Qle_bool_iff in L. congruence.
  - intros H. destruct (Qle_bool b a) eqn:E; [|reflexivity].
    apply Qle_bool_iff in E. lra.
Qed.

Lemma well_scored_zero : well_scored (num_of_Z 0).
Proof. right. exists (inject_Z 0). split; reflexivity. Qed.

(** The comparator is positive exactly when its second argument goes
    first. *)
Lemma hit_cmp_positive (x y : hit) :
  well_scored (sc x) -> well_scored (sc y) -> idx x <> idx y ->
  if num_ltb (num_of_Z 0) (hit_cmp x y) then ranked_before y x
  else ranked_before x y.
Proof.
  intros Hx Hy Hne. unfold hit_cmp, ranked_before.
  assert (Idx : if num_ltb (num_of_Z 0)
                     (num_of_Z (Z.of_nat (idx x) - Z.of_nat (idx y)))
                then idx y < idx x else idx x < idx y).
  { rewrite num_ltb_Z. destruct (Z.ltb_spec 0 (Z.of_nat (idx x) - Z.of_nat (idx y))); lia. }
  destruct Hx as [->|(a & -> & Da)], Hy as [->|(b & -> & Db)].
  - cbn [num_sub truthy_num same_score].
    destruct (num_ltb _ _); right; (split; [exact I|exact Idx]).
  - cbn [num_sub truthy_num]. left. reflexivity.
  - cbn [num_sub truthy_num]. left. reflexivity.
  - cbn [num_sub same_score].
    destruct (Qcompare_spec a b) as [E|L|G].
    + rewrite (round64_zero (b - a)) by (rewrite E; ring).
      cbn [truthy_num Qeq_bool]. change (negb (Qeq_bool 0 0)) with false. cbv iota.
      destruct (num_ltb _ _); right; (split; [|exact Idx]); rewrite E; reflexivity.
    + destruct (round64_pos (b - a) (double_gap a b Da Db L)) as [->|(r & -> & Hr)].
      * cbn. left. apply num_ltb_Fin, L.
      * assert (T : truthy_num (Fin r) = true).
        { cbn. apply negb_true_iff. destruct (Qeq_bool r 0) eqn:Q0; [|reflexivity].
          apply Qeq_bool_iff in Q0. lra. }
        rewrite T.
        assert (P : num_ltb (num_of_Z 0) (Fin r) = true)
          by (apply num_ltb_Fin; exact Hr).
        rewrite P. left. apply num_ltb_Fin, L.
    + assert (N : (b - a <= - pow2 (-1074))%Q).
      { pose proof (double_gap b a Db Da G). lra. }
      destruct (round64_neg (b - a) N) as [->|(r & -> & Hr)].
      * cbn. left. apply num_ltb_Fin, G.
      * assert (T : truthy_num (Fin r) = true).
        { cbn. apply negb_true_iff. destruct (Qeq_bool r 0) eqn:Q0; [|reflexivity].
          apply Qeq_bool_iff in Q0. lra. }
        rewrite T.
        assert (P : num_ltb (num_of_Z 0) (Fin r) = false).
        { destruct (num_ltb (num_of_Z 0) (Fin r)) eqn:P; [|reflexivity].
          apply num_ltb_Fin in P. change (inject_Z 0) with 0%Q in P. lra. }
        rewrite P. left. apply num_ltb_Fin, G.
Qed.

Lemma ranked_before_trans (a b c : hit) :
  ranked_before a b -> ranked_before b c -> ranked_before a c.
Proof.
  unfold ranked_before.
  destruct (sc a) as [x| | |], (sc b) as [y| | |], (sc c) as [z| | |];
    cbn [same_score];
    intros [H1|[H1 I1]] [H2|[H2 I2]];
    try discriminate; try contradiction;
    try (left; reflexivity);
    try (right; split; [exact I|lia]);
    try apply num_ltb_Fin in H1; try apply num_ltb_Fin in H2.
  - left. apply num_ltb_Fin. lra.
  - left. apply num_ltb_Fin. lra.
  - left. apply num_ltb_Fin. lra.
  - right. split; [lra|lia].
Qed.

Lemma insert_hit_sorted (x : hit) (l : list hit) :
  well_scored (sc x) ->
  Forall (fun y => well_scored (sc y) /\ idx x <> idx y) l ->
  StronglySorted ranked_before l ->
  StronglySorted ranked_before (insert_hit x l).
Proof.
  intros Hx. induction l as [|y l IH]; intros Hall Hs; cbn [insert_hit].
  { repeat constructor. }
  apply Forall_cons_iff in Hall. destruct Hall as [[Hy Hne] Hall].
  apply StronglySorted_inv in Hs. destruct Hs as [Hs Hyl].
  pose proof (hit_cmp_positive x y Hx Hy Hne) as Hc.
  destruct (num_ltb (num_of_Z 0) (hit_cmp x y)).
  - constructor; [apply IH; assumption|].
    apply Forall_forall. intros z Hz. apply insert_hit_In in Hz.
    destruct Hz as [->|Hz]; [exact Hc|].
    exact (proj1 (Forall_forall _ _) Hyl z Hz).
  - constructor; [constructor; assumption|].
    constructor; [exact Hc|].
    apply Forall_forall. intros z Hz.
    apply (ranked_before_trans x y z Hc).
    exact (proj1 (Forall_forall _ _) Hyl z Hz).
Qed.

Lemma sort_hits_sorted (l : list hit) :
  Forall (fun y => well_scored (sc y)) l ->
  StronglySorted (fun a b => idx a < idx b) l ->
  StronglySorted ranked_before (sort_hits l).
Proof.
  induction l as [|x l IH]; intros Hf Hi; [constructor|].
  apply Forall_cons_iff in Hf. destruct Hf as [Hx Hf].
  apply StronglySorted_inv in Hi. destruct Hi as [Hi Hxl].
  change (sort_hits (x :: l)) with (insert_hit x (sort_hits l)).
  apply insert_hit_sorted; [exact Hx| |apply IH; assumption].
  apply Forall_forall. intros y Hy. apply (proj1 (sort_hits_In _ _)) in Hy.
  split.
  - exact (proj1 (Forall_forall _ _) Hf y Hy).
  - pose proof (proj1 (Forall_forall _ _) Hxl y Hy). cbn in *. lia.
Qed.

(** A list of hits of score 0 in the order of the catalog is left as
    it is. *)
Lemma sort_hits_fixed (l : list hit) :
  Forall (fun y => sc y = num_of_Z 0) l ->
  StronglySorted (fun a b => idx a < idx b) l ->
  sort_hits l = l.
Proof.
  induction l as [|x l IH]; intros Hf Hs; [reflexivity|].
  apply Forall_cons_iff in Hf. destruct Hf as [Hx Hf].
  apply StronglySorted_inv in Hs. destruct Hs as [Hs Hxl].
  change (sort_hits (x :: l)) with (insert_hit x (sort_hits l)).
  rewrite IH by assumption.
  destruct l as [|y l']; [reflexivity|]. cbn [insert_hit].
  apply Forall_cons_iff in Hxl. destruct Hxl as [Hxy _].
  apply Forall_cons_iff in Hf. destruct Hf as [Hy _].
  assert (N : num_ltb (num_of_Z 0) (hit_cmp x y) = false).
  { unfold hit_cmp. rewrite Hx, Hy.
    change (num_sub (num_of_Z 0) (num_of_Z 0)) with (Fin 0).
    change (truthy_num (Fin 0)) with false. cbv iota zeta.
    rewrite num_ltb_Z. apply Z.ltb_ge. lia. }
  rewrite N. reflexivity.
Qed.

Lemma shown_name_nonempty (r : prow) : nonempty (shown_name r) = true.
Proof.
  unfold shown_name. destruct (nonempty (device r)) eqn:E; [exact E|reflexivity].
Qed.

Lemma listing_sorted (f : prow -> jsval) (rows : list prow) :
  forall i,
    Forall (fun h => sc h = num_of_Z 0 /\ i <= idx h) (listing f i rows)
    /\ StronglySorted (fun a b => idx a < idx b) (listing f i rows).
Proof.
  induction rows as [|r rest IH]; intros i; cbn [listing].
  { split; constructor. }
  destruct (IH (S i)) as [Hall Hs].
  assert (Hall' : Forall (fun h => sc h = num_of_Z 0 /\ i <= idx h)
                    (listing f (S i) rest)).
  { eapply Forall_impl; [|exact Hall]. cbn. intros h [H1 H2]. split; [exact H1|lia]. }
  destruct (isNaN (price r)); [split; assumption|].
  split.
  - constructor; [split; [reflexivity|cbn; lia]|exact Hall'].
  - constructor; [exact Hs|].
    eapply Forall_impl; [|exact Hall]. cbn. intros h [_ H2]. lia.
Qed.

(** *** Every score is a double or [-Infinity] *)

Lemma phrase_score_Z (hay : string) (tokens : list string) :
  forall z : Z,
    (0 <= z)%Z -> (z + 12 * Z.of_nat (List.length tokens) < 2 ^ 53)%Z ->
    exists z' : Z,
      phrase_score hay tokens (num_of_Z z) = num_of_Z z'
      /\ (z <= z' <= z + 12 * Z.of_nat (List.length tokens))%Z.
Proof.
  induction tokens as [|t1 tokens IH]; intros z H0 Hb.
  { exists z. split; [reflexivity|cbn; lia]. }
  destruct tokens as [|t2 rest].
  { exists z. split; [reflexivity|cbn [List.length]; lia]. }
  cbn [phrase_score]. cbn [List.length] in *.
  destruct (includes hay (t1 ++ " " ++ t2)).
  - rewrite num_add_Z by lia.
    destruct (IH (z + 12)%Z ltac:(lia) ltac:(lia)) as (z' & E & Hz).
    exists z'. split; [exact E|lia].
  - destruct (IH z H0 ltac:(lia)) as (z' & E & Hz).
    exists z'. split; [exact E|lia].
Qed.

Lemma token_sum_Z (hayTokens tokens : list string) :
  forall z : Z,
    (0 <= z)%Z -> (z + 10 * Z.of_nat (List.length tokens) < 2 ^ 53)%Z ->
    exists z' : Z,
      fold_left
        (fun score tok =>
           num_add score (num_of_Z (Z.of_nat (token_best tok hayTokens))))
        tokens (num_of_Z z)
      = num_of_Z z'
      /\ (z <= z' <= z + 10 * Z.of_nat (List.length tokens))%Z.
Proof.
  induction tokens as [|t tokens IH]; intros z H0 Hb.
  { exists z. split; [reflexivity|cbn; lia]. }
  cbn [fold_left]. cbn [List.length] in *.
  pose proof (token_best_Z t hayTokens) as B.
  rewrite num_add_Z by lia.
  destruct (IH (z + Z.of_nat (token_best t hayTokens))%Z ltac:(lia) ltac:(lia))
    as (z' & E & Hz).
  exists z'. split; [exact E|lia].
Qed.

Lemma fold_nearer_at_least_0 (qn : num) (hNums : list num) (bd : num) :
  at_least_0 bd -> at_least_0 (fold_left (nearer qn) hNums bd).
Proof.
  revert bd. induction hNums as [|hn hNums IH]; intros bd H; [exact H|].
  cbn [fold_left]. apply IH, nearer_at_least_0, H.
Qed.

Lemma best_delta_at_least_0 (qNums hNums : list num) :
  at_least_0 (best_delta qNums hNums).
Proof.
  rewrite best_delta_eq.
  assert (G : forall bd, at_least_0 bd ->
            at_least_0 (fold_left (fun bd qn => fold_left (nearer qn) hNums bd)
                          qNums bd)).
  { induction qNums as [|qn qNums IH]; intros bd H; [exact H|].
    cbn [fold_left]. apply IH, fold_nearer_at_least_0, H. }
  apply G. reflexivity.
Qed.

(** Taking a number that is at least 0 off a double gives a double
    or [-Infinity]. *)
Lemma num_sub_well_scored (x : Q) (p : num) :
  is_double x = true -> at_least_0 p -> well_scored (num_sub (Fin x) p).
Proof.
  intros Dx Hp. apply at_least_0_cases in Hp.
  destruct Hp as [->|(d & -> & Hd)]; [left; reflexivity|].
  cbn [num_sub].
  destruct (round64_le_double (x - d) x Dx) as [E|(r & E & _)]; [lra| |].
  - left. exact E.
  - right. exists r. split; [exact E|]. apply (is_double_round64 _ _ E).
Qed.

Lemma is_double_Z (z : Z) : (Z.abs z < 2 ^ 53)%Z -> is_double (inject_Z z) = true.
Proof. apply is_double_int. Qed.

Lemma numeric_stage_well_scored (z : Z) (bd : num) :
  (0 <= z < 2 ^ 52)%Z -> at_least_0 bd ->
  well_scored (numeric_stage (num_of_Z z) bd).
Proof.
  intros Hz Hbd. unfold numeric_stage.
  assert (W : forall c, (0 <= c <= 25)%Z ->
            well_scored (num_add (num_of_Z z) (num_of_Z c))).
  { intros c Hc. rewrite num_add_Z by lia. right. eexists. split; [reflexivity|].
    apply is_double_Z. lia. }
  destruct (num_eqb bd (num_of_Z 0)); [apply W; lia|].
  destruct (num_leb bd (num_of_Z 1)); [apply W; lia|].
  destruct (num_leb bd (num_of_Z 2)); [apply W; lia|].
  apply num_sub_well_scored; [apply is_double_Z; lia|exact Hbd].
Qed.

(** The score of a row is a double or [-Infinity], the token lists of
    the query and of the row being arrays. *)
Lemma rankScore_well_scored (row : prow) (q : string) :
  array_sized (tokens_of (normText q)) ->
  array_sized (tokens_of (search row)) ->
  well_scored (rankScore row q).
Proof.
  unfold array_sized. intros Hq Hh. unfold rankScore.
  destruct (String.eqb (normText q) EmptyString); [apply well_scored_zero|].
  cbv zeta.
  set (tokens := tokens_of (normText q)) in *.
  set (hayTokens := tokens_of (search row)) in *.
  set (s1 := if includes _ _ then _ else _).
  assert (E1 : exists z1 : Z, s1 = num_of_Z z1 /\ (0 <= z1 <= 40)%Z).
  { unfold s1. destruct (includes _ _).
    - exists 40%Z. split; [reflexivity|lia].
    - exists 0%Z. split; [reflexivity|lia]. }
  destruct E1 as (z1 & -> & H1).
  destruct (phrase_score_Z (search row) tokens z1 ltac:(lia) ltac:(lia))
    as (z2 & -> & H2).
  destruct (token_sum_Z hayTokens tokens z2 ltac:(lia) ltac:(lia))
    as (z3 & -> & H3).
  set (pen := num_mul _ _).
  assert (Epen : exists p : Q, pen = Fin p /\ (0 <= p)%Q).
  { unfold pen, num_of_Z. cbn [num_mul].
    set (k := Z.max 0 _).
    assert (Hk : (0 <= k < 2 ^ 32)%Z) by (subst k; lia).
    rewrite round64_quarters by lia. eexists. split; [reflexivity|].
    rewrite Qred_correct. apply Qmult_le_0_compat; [|discriminate].
    rewrite <- (Zle_Qle 0). lia. }
  destruct Epen as (p & -> & Hp).
  assert (Hpen : at_least_0 (Fin p)).
  { apply at_least_0_cases. right. exists p. split; [reflexivity|exact Hp]. }
  assert (W3 : well_scored (num_of_Z z3)).
  { right. eexists. split; [reflexivity|]. apply is_double_Z. lia. }
  assert (Fin_step : forall s, well_scored s -> well_scored (num_sub s (Fin p))).
  { intros s [->|(x & -> & Dx)]; [left; reflexivity|].
    apply num_sub_well_scored; assumption. }
  apply Fin_step.
  destruct ((0 <? List.length (extractNums tokens))
            && (0 <? List.length (extractNums hayTokens))); [|exact W3].
  apply (numeric_stage_well_scored z3); [lia|apply best_delta_at_least_0].
Qed.

Section RenderOrder.

Variable HostProp : jsval -> string -> jsval.
Variable StringToNumber : string -> num.
Variable NumberToString : num -> string.

Lemma collect_shape raw name q rows :
  array_sized (tokens_of (normText q)) ->
  Forall (fun r => array_sized (tokens_of (search r))) rows ->
  forall i hits,
    collect HostProp StringToNumber NumberToString raw name q i rows = Ret hits ->
    Forall (fun h => well_scored (sc h) /\ i <= idx h) hits
    /\ StronglySorted (fun a b => idx a < idx b) hits.
Proof.
  intros Hq. induction rows as [|r rest IH]; intros Hrows i hits; cbn [collect].
  { intros [= <-]. split; constructor. }
  apply Forall_cons_iff in Hrows. destruct Hrows as [Hr Hrows].
  specialize (IH Hrows).
  assert (Hrest : forall hits',
             collect HostProp StringToNumber NumberToString raw name q (S i) rest
             = Ret hits' ->
             Forall (fun h => well_scored (sc h) /\ i <= idx h) hits'
             /\ StronglySorted (fun a b => idx a < idx b) hits').
  { intros hits' Hc. destruct (IH _ _ Hc) as [H1 H2]. split; [|exact H2].
    eapply Forall_impl; [|exact H1]. cbn. intros h [E1 E2]. split; [exact E1|lia]. }
  destruct (negb _ || isNaN (price r)); [apply Hrest|].
  destruct (negb (matchesQuery r q)); [apply Hrest|].
  destruct (finalPriceFor _ _ _ raw name (price r)) as [fp|]; cbn [mbind res_bind];
    [|discriminate].
  destruct (collect _ _ _ raw name q (S i) rest) as [ms|] eqn:Ec; cbn [mbind res_bind];
    [|discriminate].
  intros [= <-]. destruct (IH _ _ Ec) as [H1 H2]. split.
  - constructor.
    + split; [|cbn; lia]. cbn [sc].
      destruct (nonempty q); [apply rankScore_well_scored; assumption|].
      apply well_scored_zero.
    + eapply Forall_impl; [|exact H1]. cbn. intros h [E1 E2]. split; [exact E1|lia].
  - constructor; [exact H2|].
    eapply Forall_impl; [|exact H1]. cbn. intros h [_ E2]. lia.
Qed.

(** The result list is in rank order: every score is a double or
    [-Infinity], a hit with a higher score comes before one with a
    lower score, and hits of equal score come in the order of the
    catalog.  The token lists of the query and of the rows are arrays
    of the page. *)
Theorem render_ranked raw name q rows hits :
  array_sized (tokens_of (normText q)) ->
  Forall (fun r => array_sized (tokens_of (search r))) rows ->
  render HostProp StringToNumber NumberToString raw name q rows = Ret hits ->
  Forall (fun h => well_scored (sc h)) hits
  /\ StronglySorted ranked_before hits.
Proof.
  intros Hq Hrows. unfold render.
  destruct (collect _ _ _ raw name q 0 rows) as [ms|] eqn:Ec; cbn [mbind res_bind];
    [|discriminate].
  intros [= <-]. destruct (collect_shape _ _ _ _ Hq Hrows _ _ Ec) as [H1 H2].
  assert (Hf : Forall (fun h => well_scored (sc h)) ms)
    by (eapply Forall_impl; [|exact H1]; cbn; tauto).
  split; [|apply sort_hits_sorted; assumption].
  apply Forall_forall. intros h Hh. apply (proj1 (sort_hits_In _ _)) in Hh.
  exact (proj1 (Forall_forall _ _) Hf h Hh).
Qed.

Lemma collect_without_query raw name bucks rows :
  activeBuckets HostProp StringToNumber NumberToString raw = Ret bucks ->
  forall i,
    collect HostProp StringToNumber NumberToString raw name EmptyString i rows
    = Ret (listing
             (fun r => finalPrice_scan HostProp StringToNumber NumberToString raw name
                         (price r) bucks) i rows).
Proof.
  intros Hb. induction rows as [|r rest IH]; intros i; cbn [collect listing];
    [reflexivity|].
  fold (shown_name r). rewrite shown_name_nonempty. cbn [negb orb].
  destruct (isNaN (price r)); [apply IH|].
  change (matchesQuery r EmptyString) with true. cbn [negb].
  unfold finalPriceFor. rewrite Hb. cbn [mbind res_bind]. rewrite IH.
  reflexivity.
Qed.

(** With an empty search box a section lists the catalog in its own
    order: every row whose price is not [NaN], each with score 0 and
    its final price; a row without a device name is not left out, it
    is listed under the name undefined. *)
Theorem render_without_query raw name bucks rows :
  activeBuckets HostProp StringToNumber NumberToString raw = Ret bucks ->
  render HostProp StringToNumber NumberToString raw name EmptyString rows
  = Ret (listing
           (fun r => finalPrice_scan HostProp StringToNumber NumberToString raw name
                       (price r) bucks) 0 rows).
Proof.
  intros Hb. unfold render. rewrite (collect_without_query raw name bucks rows Hb).
  cbn [mbind res_bind]. f_equal.
  destruct (listing_sorted
              (fun r => finalPrice_scan HostProp StringToNumber NumberToString raw name
                          (price r) bucks) rows 0) as [H1 H2].
  apply sort_hits_fixed; [|exact H2].
  eapply Forall_impl; [|exact H1]. cbn. tauto.
Qed.



End RenderOrder.

(** ** Buckets that cannot be read *)

Section BucketFacts.

Variable HostProp : jsval -> string -> jsval.
Variable StringToNumber : string -> num.
Variable NumberToString : num -> string.



End BucketFacts.

(** ** Rows of the source table *)

Lemma py_lstrip_app (l1 l2 : list ascii) :
  py_lstrip (l1 ++ l2)
  = match py_lstrip l1 with
    | [] => py_lstrip l2
    | _ :: _ => py_lstrip l1 ++ l2
    end.
Proof.
  induction l1 as [|c l1 IH]; [reflexivity|].
  cbn [app py_lstrip]. destruct (py_isspace c); [exact IH|reflexivity].
Qed.

Lemma py_lstrip_head (l : list ascii) :
  py_lstrip l = []
  \/ exists c t, py_lstrip l = c :: t /\ py_isspace c = false.
Proof.
  induction l as [|c l IH]; [left; reflexivity|].
  cbn [py_lstrip]. destruct (py_isspace c) eqn:E; [exact IH|].
  right. exists c, l. split; [reflexivity|exact E].
Qed.

Lemma py_lstrip_idem (l : list ascii) : py_lstrip (py_lstrip l) = py_lstrip l.
Proof.
  destruct (py_lstrip_head l) as [->|(c & t & -> & Hc)]; [reflexivity|].
  cbn [py_lstrip]. rewrite Hc. reflexivity.
Qed.

Lemma py_rstrip_cons (c : ascii) (l : list ascii) :
  py_rstrip (c :: l) = [] \/ py_rstrip (c :: l) = c :: py_rstrip l.
Proof.
  unfold py_rstrip. cbn [rev]. rewrite py_lstrip_app.
  destruct (py_lstrip (rev l)) as [|e l'] eqn:E.
  - cbn. destruct (py_isspace c); [left|right]; reflexivity.
  - right. rewrite rev_app_distr. reflexivity.
Qed.

Lemma py_strip_idem (s : string) : py_strip (py_strip s) = py_strip s.
Proof.
  unfold py_strip. rewrite chars_text. f_equal.
  fold (py_rstrip (py_lstrip (chars s))).
  fold (py_rstrip (py_lstrip (py_rstrip (py_lstrip (chars s))))).
  destruct (py_lstrip_head (chars s)) as [->|(c & t & -> & Hc)]; [reflexivity|].
  destruct (py_rstrip_cons c t) as [E|E]; rewrite E; [reflexivity|].
  cbn [py_lstrip]. rewrite Hc. rewrite <- E.
  unfold py_rstrip. rewrite rev_involutive, py_lstrip_idem. reflexivity.
Qed.





Lemma first_text_skip (c : pyval) (cells : list pyval) :
  first_text [c] = None -> first_text (c :: cells) = first_text cells.
Proof.
  cbn [first_text]. destruct c as [v| | | |]; try reflexivity.
  destruct (nonempty (py_strip v)); [discriminate|reflexivity].
Qed.

Lemma first_number_found (name : string) (rest : list pyval) (n : num) :
  first_number [PStr name] = Ret (Some n) ->
  first_number (PStr name :: rest) = Ret (Some n)
  /\ nonempty (py_strip name) = true.
Proof.
  cbn [first_number]. cbv zeta. intros H. split.
  - destruct (fullmatch re_py_number (remove_commas (py_strip name)));
      [exact H|].
    destruct (search_first re_py_number (remove_commas (py_strip name)));
      [exact H|discriminate H].
  - unfold nonempty.
    destruct (String.eqb_spec (py_strip name) EmptyString) as [E|]; [|reflexivity].
    rewrite E in H. vm_compute in H. discriminate H.
Qed.

(** When the first cell holds no text and the name that follows it
    carries a number, that number is the price: the cells after the
    name are never read. *)
Theorem name_number_taken_as_price (c0 : pyval) (name : string)
    (rest : list pyval) (n : num) :
  first_text [c0] = None ->
  first_number [PStr name] = Ret (Some n) ->
  row_to_device_and_price (c0 :: PStr name :: rest)
  = row_to_device_and_price [c0; PStr name]
  /\ forall d p,
       row_to_device_and_price (c0 :: PStr name :: rest) = Ret (Some (d, p)) ->
       d = py_strip name /\ p = n.
Proof.
  intros H0 Hn.
  destruct (first_number_found name rest n Hn) as [Hrest Hne].
  destruct (first_number_found name [] n Hn) as [Hnil _].
  assert (Hd : forall l, first_text (c0 :: PStr name :: l) = Some (py_strip name)).
  { intros l. rewrite (first_text_skip c0 _ H0). cbn [first_text]. cbv zeta.
    rewrite Hne. reflexivity. }
  assert (E : forall l,
             first_number (PStr name :: l) = Ret (Some n) ->
             row_to_device_and_price (c0 :: PStr name :: l)
             = if looks_like_header_or_junk (py_strip name) then Ret None
               else if num_leb n (num_of_Z 0) then Ret None
               else Ret (Some (py_strip (py_strip name), n))).
  { intros l Hl. unfold row_to_device_and_price. cbv zeta.
    rewrite Hd. cbn [tl]. rewrite Hl. reflexivity. }
  split.
  - rewrite (E rest Hrest), (E [] Hnil). reflexivity.
  - intros d p. rewrite (E rest Hrest).
    destruct (looks_like_header_or_junk (py_strip name)); [discriminate|].
    destruct (num_leb n (num_of_Z 0)); [discriminate|].
    intros [= <- <-]. split; [apply py_strip_idem|reflexivity].
Qed.

(** ** Concrete runs *)

(** Above [2^53] the two stages are lost: the double [2^55 + 8] is
    answered by a number that is no multiple of ten, and
    11258999068426244, whose nearest multiple of ten is
    11258999068426240, by 11258999068426250, because the quotient by
    10 is rounded to a half before [Math.round] sees it. *)
Lemma roundPrice_misses_the_ten :
  is_double (inject_Z 36028797018963976) = true
  /\ roundPrice no_number no_text (JNum (num_of_Z 36028797018963976))
     = JNum (num_of_Z 36028797018963984)
  /\ (36028797018963984 mod 10 = 4)%Z
  /\ is_double (inject_Z 11258999068426244) = true
  /\ roundPrice no_number no_text (JNum (num_of_Z 11258999068426244))
     = JNum (num_of_Z 11258999068426250).
Proof. split; [|split; [|split; [|split]]]; vm_compute; reflexivity. Qed.

(** Rounding the answer for [2^55 + 8] once more changes it. *)
Lemma roundPrice_twice_differs :
  is_double (inject_Z 36028797018963976) = true
  /\ roundPrice no_number no_text (JNum (num_of_Z 36028797018963976))
     = JNum (num_of_Z 36028797018963984)
  /\ roundPrice no_number no_text
       (roundPrice no_number no_text (JNum (num_of_Z 36028797018963976)))
     = JNum (num_of_Z 36028797018963992)
  /\ roundPrice no_number no_text
       (roundPrice no_number no_text (JNum (num_of_Z 36028797018963976)))
     <> roundPrice no_number no_text (JNum (num_of_Z 36028797018963976)).
Proof.
  split; [|split; [|split]]; try (vm_compute; reflexivity).
  vm_compute. discriminate.
Qed.

(** The price 346 is rounded to 350, and 350 to itself. *)
Lemma roundPrice_idempotent_at_346 :
  is_double 346 = true
  /\ (0 <= 346 <= inject_Z (2 ^ 52))%Q
  /\ roundPrice no_number no_text (JNum (Fin 346)) = JNum (num_of_Z 350)
  /\ roundPrice no_number no_text (roundPrice no_number no_text (JNum (Fin 346)))
     = roundPrice no_number no_text (JNum (Fin 346)).
Proof.
  assert (Hd : is_double 346 = true) by (vm_compute; reflexivity).
  assert (Hr : (0 <= 346 <= inject_Z (2 ^ 52))%Q) by (split; discriminate).
  split; [exact Hd|]. split; [exact Hr|]. split; [vm_compute; reflexivity|].
  exact (roundPrice_idempotent no_number no_text 346 Hd Hr).
Defined.

(** The price 150 falls in bucket B, the second of the list, whose 20
    percent rule gives 120. *)
Lemma finalPriceFor_first_bucket_run :
  activeBuckets sample_host no_number no_text cfg_AB = Ret [bucket_A; bucket_B]
  /\ finalPriceFor sample_host no_number no_text cfg_AB "Phones" (num_of_Z 150)
     = Ret (JNum (num_of_Z 120)).
Proof.
  split; [vm_compute; reflexivity|].
  rewrite (proj1 (finalPriceFor_first_bucket sample_host no_number no_text cfg_AB
                    "Phones" (num_of_Z 150) [bucket_A; bucket_B] eq_refl)
             [bucket_A] bucket_B []);
    [vm_compute; reflexivity|reflexivity|repeat constructor|vm_compute; reflexivity].
Defined.

(** The products of the discount are rounded to binary64: 30 percent
    off 350 is a little under 245, and is shown as 240. *)
Lemma finalPrice_scan_rounds_down :
  finalPrice_scan sample_host no_number no_text None "Phones" (num_of_Z 350)
    [mkBucket "1-100" (num_of_Z 1) (num_of_Z 1000)]
  = JNum (num_of_Z 240).
Proof. vm_compute. reflexivity. Qed.




(** The token 16 is not contained in 15 and matches it within one
    edit. *)
Lemma fuzzyTokenMatch_16_15 :
  "16" <> EmptyString
  /\ exists h,
       In h ["15"]
       /\ abs_diff (String.length h) (String.length "16") <= 3
       /\ lev_distance "16" h <= 1.
Proof.
  assert (Hne : "16" <> EmptyString) by discriminate.
  split; [exact Hne|].
  apply (proj1 (proj1 (proj2 (fuzzyTokenMatch_contains_or_close "16" ["15"] Hne))
                  ltac:(intros (h & [<-|[]] & Hs);
                        apply includes_spec in Hs; discriminate Hs))).
  reflexivity.
Defined.

(** On the sheet named iPhone 15, whose label brings the token 15 but
    not the text of the query, the first item is ahead. *)
Lemma rank_15_above_14_on_iPhone_15 :
  (Z.of_nat (String.length (normText "iPhone 15")) < 2 ^ 53)%Z
  /\ includes (normText "iPhone 15") "15 pro 256" = false
  /\ num_ltb
       (rankScore (mkProw "iPhone 14 Pro 256GB" (num_of_Z 500)
                     (buildSearchBlob "iPhone 14 Pro 256GB" "iPhone 15"))
          "15 pro 256")
       (rankScore (mkProw "iPhone 15 Pro 256GB" (num_of_Z 700)
                     (buildSearchBlob "iPhone 15 Pro 256GB" "iPhone 15"))
          "15 pro 256")
     = true.
Proof.
  assert (Hlen : (Z.of_nat (String.length (normText "iPhone 15")) < 2 ^ 53)%Z)
    by (vm_compute; reflexivity).
  assert (Hinc : includes (normText "iPhone 15") "15 pro 256" = false)
    by (vm_compute; reflexivity).
  split; [exact Hlen|]. split; [exact Hinc|].
  exact (proj1 (rank_15_above_14 "iPhone 15" (num_of_Z 700) (num_of_Z 500) Hlen)
           (or_introl Hinc)).
Defined.

(** The scores on three sheets: 113.75 and 39.75 on Phones, 113.5 and
    61.5 on iPhone 15, 113.75 and 61.75 on the sheet named 15. *)
Lemma rank_scores_on_three_sheets :
  rankScore (mkProw "iPhone 15 Pro 256GB" (num_of_Z 700)
               (buildSearchBlob "iPhone 15 Pro 256GB" "Phones")) "15 pro 256"
  = Fin (455 # 4)
  /\ rankScore (mkProw "iPhone 14 Pro 256GB" (num_of_Z 500)
                  (buildSearchBlob "iPhone 14 Pro 256GB" "Phones")) "15 pro 256"
     = Fin (159 # 4)
  /\ rankScore (mkProw "iPhone 15 Pro 256GB" (num_of_Z 700)
                  (buildSearchBlob "iPhone 15 Pro 256GB" "iPhone 15")) "15 pro 256"
     = Fin (227 # 2)
  /\ rankScore (mkProw "iPhone 14 Pro 256GB" (num_of_Z 500)
                  (buildSearchBlob "iPhone 14 Pro 256GB" "iPhone 15")) "15 pro 256"
     = Fin (123 # 2)
  /\ rankScore (mkProw "iPhone 15 Pro 256GB" (num_of_Z 700)
                  (buildSearchBlob "iPhone 15 Pro 256GB" "15")) "15 pro 256"
     = Fin (455 # 4)
  /\ rankScore (mkProw "iPhone 14 Pro 256GB" (num_of_Z 500)
                  (buildSearchBlob "iPhone 14 Pro 256GB" "15")) "15 pro 256"
     = Fin (247 # 4).
Proof. split; [|split; [|split; [|split; [|split]]]]; vm_compute; reflexivity. Qed.

(** A sheet label that repeats the query levels the two scores, at
    117.25. *)
Lemma rank_tie_when_label_repeats_query :
  rankScore (mkProw "iPhone 15 Pro 256GB" (num_of_Z 700)
               (buildSearchBlob "iPhone 15 Pro 256GB" "15 pro 256")) "15 pro 256"
  = Fin (469 # 4)
  /\ rankScore (mkProw "iPhone 14 Pro 256GB" (num_of_Z 500)
                  (buildSearchBlob "iPhone 14 Pro 256GB" "15 pro 256")) "15 pro 256"
     = Fin (469 # 4)
  /\ num_ltb
       (rankScore (mkProw "iPhone 14 Pro 256GB" (num_of_Z 500)
                     (buildSearchBlob "iPhone 14 Pro 256GB" "15 pro 256"))
          "15 pro 256")
       (rankScore (mkProw "iPhone 15 Pro 256GB" (num_of_Z 700)
                     (buildSearchBlob "iPhone 15 Pro 256GB" "15 pro 256"))
          "15 pro 256")
     = false.
Proof. split; [|split]; vm_compute; reflexivity. Qed.

(** With the compiled-in configuration the rule of bucket 1-100 keeps a
    null [flat]. *)
Lemma resolveRule_default_flat_null :
  resolveRule sample_host no_number no_text None "1-100" "Phones"
  = mkRule (Some (num_of_Z 30)) None.
Proof. vm_compute. reflexivity. Qed.

(** The query vzw has the variant verizon, whose one token the blob of
    a Verizon phone matches, and yet the filter rejects the row. *)
Lemma matchesQuery_ignores_variants :
  In "verizon" (expandQueryVariants "vzw")
  /\ variant_filter row_verizon "vzw" = true
  /\ matchesQuery row_verizon "vzw" = false.
Proof. split; [|split]; vm_compute; auto. Qed.

(** A row whose price is [+Infinity] is kept by [render] and shown with
    a blank price. *)
Lemma render_keeps_infinite_price :
  Forall (fun r => isFinite (price r) = false) rows_infinite
  /\ render sample_host no_number no_text None "Phones" EmptyString rows_infinite
     = Ret [mkHit 0 "Galaxy S22" (JStr EmptyString) (num_of_Z 0)].
Proof. split; [repeat constructor|vm_compute; reflexivity]. Qed.

(** ** More concrete runs *)

(** 344 and 346 are shown as 340 and 350. *)
Lemma roundPrice_monotone_run :
  is_double 344 = true /\ is_double 346 = true
  /\ (0 <= 344)%Q /\ (344 <= 346)%Q /\ (346 <= inject_Z (2 ^ 52))%Q
  /\ roundPrice no_number no_text (JNum (Fin 344)) = JNum (num_of_Z 340)
  /\ roundPrice no_number no_text (JNum (Fin 346)) = JNum (num_of_Z 350)
  /\ exists p q : Z,
       roundPrice no_number no_text (JNum (Fin 344)) = JNum (num_of_Z p)
       /\ roundPrice no_number no_text (JNum (Fin 346)) = JNum (num_of_Z q)
       /\ (p <= q)%Z.
Proof.
  assert (D1 : is_double 344 = true) by (vm_compute; reflexivity).
  assert (D2 : is_double 346 = true) by (vm_compute; reflexivity).
  assert (H0 : (0 <= 344)%Q) by discriminate.
  assert (H1 : (344 <= 346)%Q) by discriminate.
  assert (H2 : (346 <= inject_Z (2 ^ 52))%Q) by discriminate.
  repeat (split; [assumption || (vm_compute; reflexivity)|]).
  exact (roundPrice_monotone no_number no_text 344 346 D1 D2 H0 H1 H2).
Defined.


(** With the compiled-in configuration every rule takes a percentage
    off, and 1000 is shown no higher than its rounded self. *)
Lemma finalPriceFor_at_most_base_run :
  activeBuckets sample_host no_number no_text None = Ret default_buckets
  /\ is_double 1000 = true
  /\ (0 < 1000 <= inject_Z (2 ^ 52))%Q
  /\ finalPriceFor sample_host no_number no_text None "Phones" (Fin 1000)
     = Ret (JNum (num_of_Z 900))
  /\ exists p p0 : Z,
       finalPriceFor sample_host no_number no_text None "Phones" (Fin 1000)
       = Ret (JNum (num_of_Z p))
       /\ roundPrice no_number no_text (JNum (Fin 1000)) = JNum (num_of_Z p0)
       /\ (p <= p0)%Z.
Proof.
  assert (A : activeBuckets sample_host no_number no_text None = Ret default_buckets)
    by (vm_compute; reflexivity).
  assert (D : is_double 1000 = true) by (vm_compute; reflexivity).
  assert (R : (0 < 1000 <= inject_Z (2 ^ 52))%Q) by (split; [reflexivity|discriminate]).
  split; [exact A|]. split; [exact D|]. split; [exact R|].
  split; [vm_compute; reflexivity|].
  apply (finalPriceFor_at_most_base sample_host no_number no_text None "Phones" 1000
           default_buckets A D R).
  repeat constructor;
    (do 2 eexists; split; [vm_compute; reflexivity|]; split; [vm_compute; reflexivity|];
     split; discriminate).
Defined.

(** A configuration with finite bounds is read back as it was
    stored. *)
Lemma clean_config_round_trip_run :
  let c := mkConfig DEFAULT_RULES (JObj [])
             (JArr [JArr [JStr "all"; JNum (num_of_Z 1); JNum (num_of_Z 100)]]) in
  kept_in_store (defaults c) = true
  /\ getEngineConfig sample_host (setEngineConfig (config_object c)) = c.
Proof.
  cbv zeta. split; [reflexivity|].
  apply clean_config_round_trip; reflexivity.
Defined.

(** A base price of 1000: 900 on a fresh page, 1000 after a reset. *)
Lemma reset_drops_top_discount_run :
  (470 <= 1000)%Q
  /\ sample_host (JObj []) "Phones" = JUndef
  /\ finalPriceFor sample_host no_number no_text None "Phones" (Fin 1000)
     = Ret (JNum (num_of_Z 900))
  /\ finalPriceFor sample_host no_number no_text resetEngine "Phones" (Fin 1000)
     = Ret (JNum (num_of_Z 1000)).
Proof.
  assert (H : (470 <= 1000)%Q) by discriminate.
  split; [exact H|]. split; [reflexivity|].
  destruct (reset_drops_top_discount sample_host no_number no_text "Phones" 1000 H
              eq_refl eq_refl) as [E1 E2].
  split.
  - rewrite E1. vm_compute. reflexivity.
  - rewrite E2. vm_compute. reflexivity.
Defined.

(** A remote configuration that only sets a rule: after the first boot
    1000 is shown as 1000. *)
Lemma first_boot_drops_top_discount_run :
  let r := JObj [("defaults", JObj [("470+", JNum (num_of_Z 5))])] in
  truthy r = true
  /\ isArray (prop sample_host r "buckets") = false
  /\ (470 <= 1000)%Q
  /\ finalPriceFor sample_host no_number no_text
       (initEngineConfigFromServer sample_host no_number no_text None (Some r))
       "Phones" (Fin 1000)
     = Ret (JNum (num_of_Z 1000)).
Proof.
  cbv zeta.
  assert (H : (470 <= 1000)%Q) by discriminate.
  split; [reflexivity|]. split; [reflexivity|]. split; [exact H|].
  rewrite (proj2 (first_boot_drops_top_discount sample_host no_number no_text
                    (JObj [("defaults", JObj [("470+", JNum (num_of_Z 5))])])
                    "Phones" 1000 eq_refl eq_refl H)).
  vm_compute. reflexivity.
Defined.

(** A remote bucket [all] from 1 with a [null] upper bound. *)
Lemma remote_null_bound_stays_open_run :
  inf_number "Infinity" = PInf
  /\ is_object remote_one_bucket = true
  /\ activeBuckets sample_host inf_number no_text
       (initEngineConfigFromServer sample_host inf_number no_text None
          (Some remote_one_bucket))
     = Ret [mkBucket "all" (Fin 1) PInf].
Proof.
  split; [reflexivity|]. split; [reflexivity|].
  exact (remote_null_bound_stays_open sample_host inf_number no_text None
           remote_one_bucket [("all", 1%Q)] eq_refl eq_refl eq_refl).
Defined.

(** The iPhone 15 of the two phones is found by its own name and by
    the label of its sheet. *)
Lemma own_name_matches_run :
  let r := mkDrow "iPhone 15 Pro 256GB" "iPhone 15 Pro 256GB" (num_of_Z 700) in
  In r two_phones
  /\ exists row,
       In row (prepareIndex "Phones" two_phones)
       /\ device row = d_device r
       /\ matchesQuery row (indexed_name r) = true
       /\ matchesQuery row "Phones" = true.
Proof.
  cbv zeta.
  assert (H : In (mkDrow "iPhone 15 Pro 256GB" "iPhone 15 Pro 256GB" (num_of_Z 700))
                two_phones) by (right; left; reflexivity).
  split; [exact H|]. exact (own_name_matches "Phones" two_phones _ H).
Defined.

(** The query [15 pro 256] on the two phones. *)
Lemma render_ranked_run :
  array_sized (tokens_of (normText "15 pro 256"))
  /\ render sample_host no_number no_text None "Phones" "15 pro 256"
       (prepareIndex "Phones" two_phones)
     = Ret two_phones_ranked
  /\ Forall (fun h => well_scored (sc h)) two_phones_ranked
  /\ StronglySorted ranked_before two_phones_ranked.
Proof.
  assert (Hq : array_sized (tokens_of (normText "15 pro 256")))
    by (vm_compute; reflexivity).
  assert (Hrows : Forall (fun r => array_sized (tokens_of (search r)))
                    (prepareIndex "Phones" two_phones))
    by (repeat constructor).
  assert (H : render sample_host no_number no_text None "Phones" "15 pro 256"
                (prepareIndex "Phones" two_phones)
              = Ret two_phones_ranked) by (vm_compute; reflexivity).
  split; [exact Hq|]. split; [exact H|].
  exact (render_ranked sample_host no_number no_text None "Phones" "15 pro 256"
           (prepareIndex "Phones" two_phones) two_phones_ranked Hq Hrows H).
Defined.

(** The two phones with an empty search box. *)
Lemma render_without_query_run :
  activeBuckets sample_host no_number no_text None = Ret default_buckets
  /\ render sample_host no_number no_text None "Phones" EmptyString
       (prepareIndex "Phones" two_phones)
     = Ret [ mkHit 0 "iPhone 14 Pro 256GB" (JNum (num_of_Z 450)) (num_of_Z 0);
             mkHit 1 "iPhone 15 Pro 256GB" (JNum (num_of_Z 630)) (num_of_Z 0) ].
Proof.
  assert (A : activeBuckets sample_host no_number no_text None = Ret default_buckets)
    by (vm_compute; reflexivity).
  split; [exact A|].
  rewrite (render_without_query sample_host no_number no_text None "Phones"
             default_buckets (prepareIndex "Phones" two_phones) A).
  vm_compute. reflexivity.
Defined.



(** An empty first cell, the name, then the price 410: the row is kept
    at a price of 12. *)
Lemma name_number_taken_as_price_run :
  first_text [POther] = None
  /\ first_number [PStr "iPhone 12 Pro"] = Ret (Some (num_of_Z 12))
  /\ row_to_device_and_price [POther; PStr "iPhone 12 Pro"; PInt 410]
     = row_to_device_and_price [POther; PStr "iPhone 12 Pro"]
  /\ row_to_device_and_price [POther; PStr "iPhone 12 Pro"; PInt 410]
     = Ret (Some ("iPhone 12 Pro", num_of_Z 12)).
Proof.
  assert (F : first_number [PStr "iPhone 12 Pro"] = Ret (Some (num_of_Z 12)))
    by (vm_compute; reflexivity).
  split; [reflexivity|]. split; [exact F|].
  split; [|vm_compute; reflexivity].
  exact (proj1 (name_number_taken_as_price POther "iPhone 12 Pro" [PInt 410]
                  (num_of_Z 12) eq_refl F)).
Defined.
